(** * RFM customer segmentation ([src/analysis.py], [perform_rfm_analysis])

    A shallow embedding of the RFM scoring routine of the purchase-analytics
    dashboard, together with the pandas primitives it is written with
    ([Series.max], [groupby().agg], [Series.rank(method='first')], [pd.qcut]).

    Conventions of the embedding.
    - A DataFrame is the list of its rows, in row order.  A cell may be
      missing (NaN, NaT, None): such a cell is [None].
    - A Timestamp is the integer number of nanoseconds since the epoch, and
      [Timedelta.days] is the floor division by the nanoseconds of a day.
    - The development has two layers.  In the first (modules [Pandas] and
      [Analysis]) amounts, quantile edges and interpolation are exact
      rationals ([Q]): the arithmetic the routine is meant to carry out.  In
      the second (modules [Binary64], [Numpy], [Pandas64] and [Analysis64])
      the edges of the bins are computed in binary64 the way [numpy] does
      it, every operation rounded to nearest, ties to even; a binary64
      number is the rational it stands for, and overflow and subnormal
      numbers are left out.  The layers share the aggregation of dates and
      counts and the labelling; they differ on the edges, hence on the
      tables on which [pd.qcut] raises.
    - A Python exception is the [Raise] alternative of [result]. *)

From Stdlib Require Import String Ascii.
From Stdlib Require Import List ZArith QArith Qround Qpower Bool Lia Lra Psatz.
From Stdlib Require Import Sorting.Mergesort Sorting.Permutation Sorting.Sorted Orders.
Import ListNotations.

Local Open Scope Z_scope.

(** ** Exceptions and the error monad *)

Inductive exn : Type :=
| ValueError (msg : string).

Inductive result (A : Type) : Type :=
| Ok (a : A)
| Raise (e : exn).

Arguments Ok {A} a.
Arguments Raise {A} e.

Definition bind {A B : Type} (c : result A) (k : A -> result B) : result B :=
  match c with
  | Ok a => k a
  | Raise e => Raise e
  end.

Notation "x <- c ;; k" := (bind c (fun x => k))
  (at level 61, c at next level, right associativity).

Definition is_ok {A : Type} (c : result A) : bool :=
  match c with Ok _ => true | Raise _ => false end.

(** [mapM f l]: apply [f] to the elements of [l] in order, stopping at the
    first exception (the row-wise [DataFrame.apply]). *)
Fixpoint mapM {A B : Type} (f : A -> result B) (l : list A) : result (list B) :=
  match l with
  | [] => Ok []
  | a :: t => b <- f a ;; bs <- mapM f t ;; Ok (b :: bs)
  end.

(** ** Orders used for sorting *)

Lemma Qle_bool_total (x y : Q) : Qle_bool x y = true \/ Qle_bool y x = true.
Proof.
  rewrite !Qle_bool_iff.
  destruct (Qlt_le_dec x y) as [H | H]; [left; apply Qlt_le_weak; exact H | right; exact H].
Qed.

Module QOrder <: TotalLeBool.
Definition t := Q.
Definition leb := Qle_bool.
Definition leb_total : forall x y, leb x y = true \/ leb y x = true := Qle_bool_total.
End QOrder.

Module QSort := Sort QOrder.

Module StringOrder <: TotalLeBool.
Definition t := string.
Definition leb := String.leb.
Definition leb_total : forall x y, leb x y = true \/ leb y x = true :=
  String.leb_total.
End StringOrder.

Module StringSort := Sort StringOrder.

(** ** The pandas primitives *)

Module Pandas.

(** Drop the missing cells of a column. *)
Fixpoint dropna {A : Type} (l : list (option A)) : list A :=
  match l with
  | [] => []
  | Some a :: t => a :: dropna t
  | None :: t => dropna t
  end.

(** [Series.max()] of a datetime column: missing cells are skipped, and the
    maximum of no value at all is NaT. *)
Fixpoint series_max (l : list (option Z)) : option Z :=
  match l with
  | [] => None
  | None :: t => series_max t
  | Some d :: t =>
      match series_max t with
      | None => Some d
      | Some m => Some (Z.max d m)
      end
  end.

(** [Series.sum()] of a float column: missing cells are skipped, the sum of
    nothing is 0. *)
Fixpoint series_sum (l : list (option Q)) : Q :=
  match l with
  | [] => 0%Q
  | None :: t => series_sum t
  | Some a :: t => (a + series_sum t)%Q
  end.

(** [Series.count()]: the number of cells that are not missing. *)
Definition series_count {A : Type} (l : list (option A)) : Z :=
  Z.of_nat (length (dropna l)).

(** The keys of [groupby(col)]: the distinct values of the column that are
    not missing, in ascending order. *)
Definition group_keys (col : list (option string)) : list string :=
  StringSort.sort (nodup string_dec (dropna col)).

Definition ns_per_day : Z := 86400 * 1000000000.

(** [Timedelta.days]. *)
Definition days (delta : Z) : Z := delta / ns_per_day.

(** [Series.rank(method='first')] of an integer column: ranks 1..n in
    ascending order of the values, equal values ranked in the order they
    appear in the column. *)
Definition rank_at (x : list Z) (i : nat) : Z :=
  let v := nth i x 0 in
  1 + Z.of_nat (length (filter (fun y => y <? v) x))
    + Z.of_nat (length (filter (fun y => y =? v) (firstn i x))).

Definition rank_first (x : list Z) : list Z :=
  map (rank_at x) (seq 0 (length x)).

(** The [k]-th of the [q]-quantiles of the sorted values [a], with linear
    interpolation: the position is [k/q * (n-1)], its integer part selects
    [a[lo]] and [a[lo+1]] and its fractional part weighs them. *)
Definition quantile (a : list Q) (q k : nat) : Q :=
  let n := length a in
  let pos := (k * (n - 1))%nat in
  let lo := (pos / q)%nat in
  let hi := Nat.min (lo + 1) (n - 1) in
  let gamma := (inject_Z (Z.of_nat (pos mod q)) / inject_Z (Z.of_nat q))%Q in
  (nth lo a 0 + gamma * (nth hi a 0 - nth lo a 0))%Q.

(** The edges at [np.linspace(0, 1, q + 1)]. *)
Definition quantile_edges (a : list Q) (q : nat) : list Q :=
  map (quantile a q) (seq 0 (S q)).

(** [algos.unique]: the first occurrence of every value, in order. *)
Fixpoint unique_from (seen : list Q) (l : list Q) : list Q :=
  match l with
  | [] => []
  | h :: t =>
      if existsb (Qeq_bool h) seen then unique_from seen t
      else h :: unique_from (h :: seen) t
  end.

Definition unique (l : list Q) : list Q := unique_from [] l.

(** [bins.searchsorted(v, side='left')]: the first index whose edge is not
    below [v]. *)
Fixpoint searchsorted_left (bins : list Q) (v : Q) : nat :=
  match bins with
  | [] => 0%nat
  | b :: t => if Qle_bool v b then 0%nat else S (searchsorted_left t v)
  end.

Definition bin_labels_error : exn :=
  ValueError "Bin labels must be one fewer than the number of bin edges".

(** The bucket number of one cell ([_bins_to_cuts] with [right=True],
    [include_lowest=True]): the insertion point among the edges, and 1 for
    the cell equal to the lowest edge. *)
Definition bucket (bins : list Q) (v : Q) : nat :=
  let id := searchsorted_left bins v in
  if Qeq_bool v (hd 0%Q bins) then 1%nat else id.

(** The label of one cell: a missing cell, and a cell outside the edges
    (bucket 0 or [len(bins)]), is NaN. *)
Definition cut1 (bins : list Q) (labels : list Z) (v : option Q) : option Z :=
  match v with
  | None => None
  | Some v =>
      let id := bucket bins v in
      if (id =? length bins)%nat || (id =? 0)%nat then None
      else nth_error labels (id - 1)
  end.

(** [_bins_to_cuts]: the duplicate edges are dropped ([duplicates='drop']),
    and a list of labels is accepted only when it has one label per
    remaining bucket. *)
Definition bins_to_cuts (x : list (option Q)) (bins : list Q) (labels : list Z)
  : result (list (option Z)) :=
  let unique_bins := unique bins in
  let bins :=
    if (length unique_bins <? length bins)%nat && negb (length bins =? 2)%nat
    then unique_bins else bins in
  if negb (length labels =? length bins - 1)%nat then Raise bin_labels_error
  else Ok (map (cut1 bins labels) x).

(** [pd.qcut(x, q, labels=labels, duplicates='drop')] for a list of
    distinct labels.  The edges are the quantiles of the cells that are not
    missing.  When there is none, every quantile is NaN: the [q+1] edges are
    one value repeated, of which [unique] keeps one (unless there are exactly
    two), and every cell is NaN. *)
Definition qcut (x : list (option Q)) (q : nat) (labels : list Z)
  : result (list (option Z)) :=
  match QSort.sort (dropna x) with
  | [] =>
      let nbins := if (S q =? 2)%nat then 2%nat else 1%nat in
      if negb (length labels =? nbins - 1)%nat then Raise bin_labels_error
      else Ok (map (fun _ => None) x)
  | a => bins_to_cuts x (quantile_edges a q) labels
  end.

End Pandas.

(** ** The analysis module ([src/analysis.py]) *)

Module Analysis.
Import Pandas.

(** A row of the transaction table, with the columns that
    [perform_rfm_analysis] reads. *)
Record transaction : Type := {
  transaction_id : option string;
  customer_id : option string;
  transaction_date : option Z;
  total_amount : option Q
}.

Definition DataFrame : Type := list transaction.

(** A row of the aggregated table [rfm], indexed by [customer_id]. *)
Record rfm_row : Type := {
  index : string;
  recency : option Z;
  frequency : Z;
  monetary : Q
}.

(** The rows of one group of [df.groupby('customer_id')]. *)
Definition group (df : DataFrame) (c : string) : DataFrame :=
  filter (fun t => match customer_id t with
                   | Some c' => String.eqb c c'
                   | None => false
                   end) df.

(** The aggregation [lambda x: (max_date - x.max()).days]; the difference
    with NaT is NaT, whose [days] is NaN. *)
Definition recency_of (max_date : option Z) (x : list (option Z)) : option Z :=
  match max_date, series_max x with
  | Some m, Some d => Some (days (m - d))
  | _, _ => None
  end.

(** Lines 28-38: [max_date] and the grouped aggregation. *)
Definition aggregate (df : DataFrame) : list rfm_row :=
  let max_date := series_max (map transaction_date df) in
  map (fun c =>
         let g := group df c in
         {| index := c;
            recency := recency_of max_date (map transaction_date g);
            frequency := series_count (map transaction_id g);
            monetary := series_sum (map total_amount g) |})
      (group_keys (map customer_id df)).

(** [int(row[...])] on a cell of a score column. *)
Definition int (v : option Z) : result Z :=
  match v with
  | Some z => Ok z
  | None => Raise (ValueError "cannot convert float NaN to integer")
  end.

(** The sum of the three scores (line 47). *)
Definition total_score (r f m : Z) : Z := r + f + m.

(** Lines 46-57. *)
Definition segment_customers (r_score f_score m_score : option Z) : result string :=
  r <- int r_score ;;
  f <- int f_score ;;
  m <- int m_score ;;
  let score := total_score r f m in
  if score >=? 13 then Ok "Champions"%string
  else if score >=? 10 then Ok "Loyal Customers"%string
  else if score >=? 7 then Ok "Potential Loyalists"%string
  else if score >=? 5 then Ok "At Risk"%string
  else Ok "Lost Customers"%string.

(** Lines 62-64. *)
Definition churn_risk_of (r_score : option Z) : result string :=
  r <- int r_score ;;
  if r <=? 2 then Ok "High"%string
  else if r <=? 3 then Ok "Medium"%string
  else Ok "Low"%string.

(** A row of the returned table. *)
Record profile : Type := {
  row : rfm_row;
  r_score : option Z;
  f_score : option Z;
  m_score : option Z;
  segment : string;
  churn_risk : string
}.

Definition customer (p : profile) : string := index (row p).

Definition to_Q (v : option Z) : option Q :=
  match v with
  | Some z => Some (inject_Z z)
  | None => None
  end.

(** The three score columns (lines 41-43). *)
Definition r_scores (rfm : list rfm_row) : result (list (option Z)) :=
  qcut (map (fun r => to_Q (recency r)) rfm) 5 [5; 4; 3; 2; 1].

Definition f_scores (rfm : list rfm_row) : result (list (option Z)) :=
  qcut (map (fun z => Some (inject_Z z)) (rank_first (map frequency rfm)))
       5 [1; 2; 3; 4; 5].

Definition m_scores (rfm : list rfm_row) : result (list (option Z)) :=
  qcut (map (fun r => Some (monetary r)) rfm) 5 [1; 2; 3; 4; 5].

(** A row of [rfm] with its three scores. *)
Definition scored_row : Type := (rfm_row * (option Z * option Z * option Z))%type.

(** The table [rfm] once the three score columns are assigned. *)
Fixpoint zip_scores (rfm : list rfm_row) (rs fs ms : list (option Z))
  : list scored_row :=
  match rfm, rs, fs, ms with
  | x :: rfm', r :: rs', f :: fs', m :: ms' =>
      (x, (r, f, m)) :: zip_scores rfm' rs' fs' ms'
  | _, _, _, _ => []
  end.

(** The two row-wise [apply] calls (lines 59 and 62). *)
Definition segment_of_row (e : scored_row) : result string :=
  let '(_, (r, f, m)) := e in segment_customers r f m.

Definition churn_of_row (e : scored_row) : result string :=
  let '(_, (r, _, _)) := e in churn_risk_of r.

Definition build_profile (e : scored_row * (string * string)) : profile :=
  let '((x, (r, f, m)), (s, c)) := e in
  {| row := x; r_score := r; f_score := f; m_score := m;
     segment := s; churn_risk := c |}.

Definition perform_rfm_analysis (df : DataFrame) : result (list profile) :=
  let rfm := aggregate df in
  rs <- r_scores rfm ;;
  fs <- f_scores rfm ;;
  ms <- m_scores rfm ;;
  let scored := zip_scores rfm rs fs ms in
  segs <- mapM segment_of_row scored ;;
  risks <- mapM churn_of_row scored ;;
  Ok (map build_profile (combine scored (combine segs risks))).

End Analysis.

Import Pandas Analysis.

(** ** Sample tables *)

Module Samples.
Local Open Scope string_scope.

Definition day (n : Z) : option Z := Some (n * ns_per_day)%Z.

Definition tx (i c : string) (d : Z) (a : Q) : transaction :=
  {| transaction_id := Some i; customer_id := Some c;
     transaction_date := day d; total_amount := Some a |}.

(** Five customers, one of them with two purchases. *)
Definition sample : DataFrame :=
  [ tx "t1" "a" 10 50; tx "t2" "b" 9 40; tx "t3" "c" 8 30; tx "t4" "d" 7 20;
    tx "t5" "e" 6 10; tx "t6" "a" 3 5 ]%Q.

(** The same purchases, the one of customer "c" a day later. *)
Definition sample_later : DataFrame :=
  [ tx "t1" "a" 10 50; tx "t2" "b" 9 40; tx "t3" "c" 9 30; tx "t4" "d" 7 20;
    tx "t5" "e" 6 10; tx "t6" "a" 3 5 ]%Q.

(** Five customers with one purchase each, all on the same day, of 10 to
    50. *)
Definition five_customers : DataFrame :=
  [ tx "t1" "a" 1 10; tx "t2" "b" 1 20; tx "t3" "c" 1 30; tx "t4" "d" 1 40;
    tx "t5" "e" 1 50 ]%Q.

(** Five customers with one purchase each, on five days, all of 10. *)
Definition same_amount : DataFrame :=
  [ tx "t1" "a" 1 10; tx "t2" "b" 2 10; tx "t3" "c" 3 10; tx "t4" "d" 4 10;
    tx "t5" "e" 5 10 ]%Q.

(** [sample] with one more row of customer "b", whose amount is missing. *)
Definition missing_amount : DataFrame :=
  (sample ++ [ {| transaction_id := Some "t7"; customer_id := Some "b";
                  transaction_date := day 5; total_amount := None |} ])%list.

(** [sample] with one more customer, whose only row has no date. *)
Definition undated : DataFrame :=
  (sample ++ [ {| transaction_id := Some "t7"; customer_id := Some "f";
                  transaction_date := None; total_amount := Some 25%Q |} ])%list.

End Samples.

(** Runs of the primitives on small columns. *)

Example rank_first_ties : rank_first [2; 1; 1; 1; 1] = [5; 1; 2; 3; 4].
Proof. reflexivity. Qed.

Example quantile_edges_five :
  Forall2 Qeq (quantile_edges [0; 1; 2; 3; 4]%Q 5) [0; 4 # 5; 8 # 5; 12 # 5; 16 # 5; 4]%Q.
Proof. repeat constructor. Qed.

Example qcut_ascending :
  qcut (map Some [10; 20; 30; 40; 50]%Q) 5 [1; 2; 3; 4; 5]
  = Ok [Some 1; Some 2; Some 3; Some 4; Some 5].
Proof. vm_compute. reflexivity. Qed.

Example qcut_descending_labels :
  qcut (map Some [0; 1; 2; 3; 4]%Q) 5 [5; 4; 3; 2; 1]
  = Ok [Some 5; Some 4; Some 3; Some 2; Some 1].
Proof. vm_compute. reflexivity. Qed.

Example qcut_tied_cells :
  qcut (map Some [1; 1; 1; 2; 3]%Q) 5 [1; 2; 3; 4; 5] = Raise bin_labels_error.
Proof. vm_compute. reflexivity. Qed.

Example qcut_missing_cell :
  qcut [Some 0; None; Some 1; Some 2; Some 3; Some 4]%Q 5 [5; 4; 3; 2; 1]
  = Ok [Some 5; None; Some 4; Some 3; Some 2; Some 1].
Proof. vm_compute. reflexivity. Qed.

Example aggregate_sample :
  map (fun x => (index x, recency x, frequency x)) (aggregate Samples.sample)
  = [("a", Some 0, 2); ("b", Some 1, 1); ("c", Some 2, 1); ("d", Some 3, 1);
     ("e", Some 4, 1)]%string.
Proof. vm_compute. reflexivity. Qed.

(** ** General facts on the error monad *)

Lemma bind_ok {A B : Type} (c : result A) (k : A -> result B) (b : B) :
  bind c k = Ok b -> exists a, c = Ok a /\ k a = Ok b.
Proof.
  destruct c as [a | e]; simpl; intros H; [exists a; split; [reflexivity | exact H] | discriminate].
Qed.

Section Monad.
Variables A B : Type.

Lemma mapM_Forall2 (f : A -> result B) (l : list A) (bs : list B) :
  mapM f l = Ok bs -> Forall2 (fun a b => f a = Ok b) l bs.
Proof.
  revert bs. induction l as [| a t IH]; simpl; intros bs H.
  - injection H as <-. constructor.
  - apply bind_ok in H. destruct H as [b [Hb H]].
    destruct (mapM f t) as [bs' | e]; simpl in H; [| discriminate].
    injection H as <-. constructor; [exact Hb | apply IH; reflexivity].
Qed.

Lemma mapM_raise (f : A -> result B) (l : list A) (a : A) :
  In a l -> is_ok (f a) = false -> is_ok (mapM f l) = false.
Proof.
  induction l as [| h t IH]; simpl; intros Hin Hf; [contradiction |].
  destruct Hin as [-> | Hin].
  - destruct (f a); [discriminate | reflexivity].
  - destruct (f h); simpl; [| reflexivity].
    specialize (IH Hin Hf). destruct (mapM f t); [discriminate | reflexivity].
Qed.

End Monad.

(** ** What a successful run is made of *)

Definition scores_of (p : profile) : scored_row :=
  (row p, (r_score p, f_score p, m_score p)).

Definition labelled (p : profile) : Prop :=
  segment_customers (r_score p) (f_score p) (m_score p) = Ok (segment p) /\
  churn_risk_of (r_score p) = Ok (churn_risk p).

Lemma build_profiles scored : forall segs risks,
  Forall2 (fun e s => segment_of_row e = Ok s) scored segs ->
  Forall2 (fun e c => churn_of_row e = Ok c) scored risks ->
  map scores_of (map build_profile (combine scored (combine segs risks))) = scored /\
  Forall labelled (map build_profile (combine scored (combine segs risks))).
Proof.
  induction scored as [| [x [[r f] m]] t IH]; intros segs risks Hs Hc.
  - split; [reflexivity | constructor].
  - inversion Hs as [| ? s ? segs' Hs1 Hs2]; subst.
    inversion Hc as [| ? c ? risks' Hc1 Hc2]; subst.
    destruct (IH _ _ Hs2 Hc2) as [IH1 IH2]. simpl. split.
    + rewrite IH1. reflexivity.
    + constructor; [split; assumption | exact IH2].
Qed.

Lemma perform_ok (df : DataFrame) (ps : list profile) :
  perform_rfm_analysis df = Ok ps ->
  exists rs fs ms,
    r_scores (aggregate df) = Ok rs /\
    f_scores (aggregate df) = Ok fs /\
    m_scores (aggregate df) = Ok ms /\
    map scores_of ps = zip_scores (aggregate df) rs fs ms /\
    Forall labelled ps.
Proof.
  unfold perform_rfm_analysis. intros H.
  apply bind_ok in H. destruct H as [rs [Hr H]].
  apply bind_ok in H. destruct H as [fs [Hf H]].
  apply bind_ok in H. destruct H as [ms [Hm H]].
  apply bind_ok in H. destruct H as [segs [Hs H]].
  apply bind_ok in H. destruct H as [risks [Hc H]].
  injection H as <-.
  apply mapM_Forall2 in Hs. apply mapM_Forall2 in Hc.
  exists rs, fs, ms. repeat split; try assumption;
    apply (build_profiles _ _ _ Hs Hc).
Qed.

Lemma zip_scores_In rfm : forall rs fs ms x r f m,
  In (x, (r, f, m)) (zip_scores rfm rs fs ms) ->
  In x rfm /\ In r rs /\ In f fs /\ In m ms.
Proof.
  induction rfm as [| y t IH]; intros rs fs ms x r f m H; [contradiction |].
  destruct rs as [| r0 rs]; [contradiction |].
  destruct fs as [| f0 fs]; [contradiction |].
  destruct ms as [| m0 ms]; [contradiction |].
  simpl in H. destruct H as [H | H].
  - injection H as <- <- <- <-. simpl. auto.
  - apply IH in H. simpl. tauto.
Qed.

Lemma zip_scores_full rfm : forall rs fs ms,
  length rs = length rfm -> length fs = length rfm -> length ms = length rfm ->
  map fst (zip_scores rfm rs fs ms) = rfm.
Proof.
  induction rfm as [| y t IH]; intros rs fs ms H1 H2 H3; [reflexivity |].
  destruct rs as [| r0 rs]; [discriminate |].
  destruct fs as [| f0 fs]; [discriminate |].
  destruct ms as [| m0 ms]; [discriminate |].
  simpl in *. f_equal. apply IH; lia.
Qed.

(** ** The labels that [qcut] hands out *)

Lemma cut1_label bins labels v z : cut1 bins labels v = Some z -> In z labels.
Proof.
  unfold cut1. destruct v as [v |]; [| discriminate].
  match goal with |- context [if ?c then None else _] => destruct c end;
    [discriminate | apply nth_error_In].
Qed.

Lemma bins_to_cuts_ok x bins labels res :
  bins_to_cuts x bins labels = Ok res ->
  exists bins', length labels = (length bins' - 1)%nat /\ res = map (cut1 bins' labels) x.
Proof.
  unfold bins_to_cuts.
  match goal with |- context [negb (length labels =? length ?c - 1)%nat] => set (b := c) end.
  destruct (Nat.eqb_spec (length labels) (length b - 1)) as [E | E]; simpl; intros H;
    [| discriminate].
  injection H as <-. exists b. split; [exact E | reflexivity].
Qed.

Lemma qcut_ok_labels x q labels res :
  qcut x q labels = Ok res ->
  length res = length x /\
  Forall (fun v => forall z, v = Some z -> In z labels) res.
Proof.
  unfold qcut. destruct (QSort.sort (dropna x)) as [| a0 a].
  - destruct (negb _); [discriminate |]. intros H. injection H as <-.
    split; [apply length_map |].
    apply Forall_forall. intros v Hv. apply in_map_iff in Hv.
    destruct Hv as [? [<- _]]. discriminate.
  - intros H. apply bins_to_cuts_ok in H. destruct H as [b [_ ->]].
    split; [apply length_map |].
    apply Forall_forall. intros v Hv z ->. apply in_map_iff in Hv.
    destruct Hv as [w [Hw _]]. exact (cut1_label _ _ _ _ Hw).
Qed.

(** Every profile of a successful run carries three integer scores, each one
    of the five labels, and the two labels computed from them. *)
Lemma profile_scores (df : DataFrame) (ps : list profile) (p : profile) :
  perform_rfm_analysis df = Ok ps -> In p ps ->
  exists r f m,
    r_score p = Some r /\ f_score p = Some f /\ m_score p = Some m /\
    In r [5; 4; 3; 2; 1] /\ In f [1; 2; 3; 4; 5] /\ In m [1; 2; 3; 4; 5].
Proof.
  intros H Hp.
  destruct (perform_ok _ _ H) as [rs [fs [ms [Hr [Hf [Hm [Hz Hl]]]]]]].
  assert (Hin : In (scores_of p) (zip_scores (aggregate df) rs fs ms)).
  { rewrite <- Hz. apply in_map. exact Hp. }
  apply zip_scores_In in Hin. destruct Hin as [_ [Ir [If Im]]].
  rewrite Forall_forall in Hl. destruct (Hl p Hp) as [Hs _].
  destruct (qcut_ok_labels _ _ _ _ Hr) as [_ Lr].
  destruct (qcut_ok_labels _ _ _ _ Hf) as [_ Lf].
  destruct (qcut_ok_labels _ _ _ _ Hm) as [_ Lm].
  rewrite Forall_forall in Lr, Lf, Lm.
  unfold segment_customers in Hs.
  destruct (r_score p) as [r |]; [| discriminate].
  destruct (f_score p) as [f |]; [| discriminate].
  destruct (m_score p) as [m |]; [| discriminate].
  exists r, f, m. repeat split; eauto.
Qed.

Lemma segment_customers_spec (r f m : Z) (s : string) :
  segment_customers (Some r) (Some f) (Some m) = Ok s ->
  let t := total_score r f m in
  (s = "Champions"%string <-> 13 <= t) /\
  (s = "Loyal Customers"%string <-> 10 <= t < 13) /\
  (s = "Potential Loyalists"%string <-> 7 <= t < 10) /\
  (s = "At Risk"%string <-> 5 <= t < 7) /\
  (s = "Lost Customers"%string <-> t < 5).
Proof.
  intros H t. unfold segment_customers in H. simpl in H. fold t in H.
  destruct (Z.geb_spec t 13); [| destruct (Z.geb_spec t 10);
    [| destruct (Z.geb_spec t 7); [| destruct (Z.geb_spec t 5)]]];
    injection H as <-;
    repeat split; intros; try reflexivity; try lia; try discriminate.
Qed.

Lemma churn_risk_spec (r : Z) (c : string) :
  churn_risk_of (Some r) = Ok c ->
  (c = "High"%string <-> r <= 2) /\
  (c = "Medium"%string <-> r = 3) /\
  (c = "Low"%string <-> 4 <= r).
Proof.
  unfold churn_risk_of. simpl. intros H.
  destruct (Z.leb_spec r 2); [| destruct (Z.leb_spec r 3)];
    injection H as <-;
    repeat split; intros; try reflexivity; try lia; try discriminate.
Qed.

(** The profiles computed for [Samples.sample]. *)
Definition sample_profiles : list profile :=
  Eval vm_compute in
    match perform_rfm_analysis Samples.sample with
    | Ok ps => ps
    | Raise _ => []
    end.

Definition sample_champion : profile :=
  Eval vm_compute in
    nth 0 sample_profiles
      {| row := {| index := ""; recency := None; frequency := 0; monetary := 0 |};
         r_score := None; f_score := None; m_score := None;
         segment := ""; churn_risk := "" |}.

Lemma sample_run : perform_rfm_analysis Samples.sample = Ok sample_profiles.
Proof. vm_compute. reflexivity. Defined.

Lemma sample_champion_in : In sample_champion sample_profiles.
Proof. left. reflexivity. Defined.

(** ** The aggregated table *)


(** The distinct customers of a table. *)
Definition distinct_customers (df : DataFrame) : list string :=
  nodup string_dec (dropna (map customer_id df)).

Lemma dropna_In {A : Type} (l : list (option A)) (a : A) :
  In a (dropna l) <-> In (Some a) l.
Proof.
  induction l as [| [b |] t IH]; simpl.
  - tauto.
  - rewrite IH. split; intros [H | H]; auto; left; congruence.
  - rewrite IH. split; [auto | intros [H | H]; [discriminate | exact H]].
Qed.

Lemma dropna_Some {A B : Type} (f : A -> B) (l : list A) :
  dropna (map (fun a => Some (f a)) l) = map f l.
Proof. induction l as [| a t IH]; simpl; [reflexivity | rewrite IH; reflexivity]. Qed.

Lemma dropna_map_Some {A : Type} (l : list A) : dropna (map Some l) = l.
Proof. induction l as [| a t IH]; simpl; [reflexivity | rewrite IH; reflexivity]. Qed.

Lemma group_keys_perm (col : list (option string)) :
  Permutation (nodup string_dec (dropna col)) (group_keys col).
Proof. apply StringSort.Permuted_sort. Qed.

Lemma group_keys_NoDup (col : list (option string)) : NoDup (group_keys col).
Proof.
  apply (Permutation_NoDup (group_keys_perm col)). apply NoDup_nodup.
Qed.

Lemma group_keys_In (col : list (option string)) (c : string) :
  In c (group_keys col) <-> In (Some c) col.
Proof.
  split; intros H.
  - apply dropna_In. apply (nodup_In string_dec).
    apply (Permutation_in c (Permutation_sym (group_keys_perm col)) H).
  - apply (Permutation_in c (group_keys_perm col)).
    apply (nodup_In string_dec). apply dropna_In. exact H.
Qed.

Lemma aggregate_index (df : DataFrame) :
  map index (aggregate df) = group_keys (map customer_id df).
Proof.
  unfold aggregate. rewrite map_map. simpl. apply map_id.
Qed.

Lemma aggregate_length (df : DataFrame) :
  length (aggregate df) = length (distinct_customers df).
Proof.
  rewrite <- (length_map index), aggregate_index.
  symmetry. apply Permutation_length, group_keys_perm.
Qed.

Lemma group_In (df : DataFrame) (c : string) (t : transaction) :
  In t (group df c) <-> In t df /\ customer_id t = Some c.
Proof.
  unfold group. rewrite filter_In.
  destruct (customer_id t) as [c' |].
  - destruct (String.eqb_spec c c') as [-> | N]; split; intros [H1 H2];
      split; try assumption; try reflexivity; try discriminate.
    injection H2 as E. congruence.
  - split; intros [H1 H2]; discriminate.
Qed.

Lemma filter_map_comm {A B : Type} (p : B -> bool) (f : A -> B) (l : list A) :
  filter p (map f l) = map f (filter (fun a => p (f a)) l).
Proof.
  induction l as [| a t IH]; simpl; [reflexivity |].
  destruct (p (f a)); simpl; rewrite IH; reflexivity.
Qed.


Lemma days_nonneg (d : Z) : 0 <= d -> 0 <= days d.
Proof. intros H. unfold days. apply Z.div_pos; [exact H | reflexivity]. Qed.

Lemma rank_first_length (x : list Z) : length (rank_first x) = length x.
Proof. unfold rank_first. rewrite length_map, length_seq. reflexivity. Qed.

(** A successful run returns the aggregated rows, in order. *)
Lemma perform_rows (df : DataFrame) (ps : list profile) :
  perform_rfm_analysis df = Ok ps -> map row ps = aggregate df.
Proof.
  intros H.
  destruct (perform_ok _ _ H) as [rs [fs [ms [Hr [Hf [Hm [Hz _]]]]]]].
  destruct (qcut_ok_labels _ _ _ _ Hr) as [Lr _].
  destruct (qcut_ok_labels _ _ _ _ Hf) as [Lf _].
  destruct (qcut_ok_labels _ _ _ _ Hm) as [Lm _].
  rewrite length_map in Lr, Lm.
  rewrite length_map, rank_first_length, length_map in Lf.
  rewrite <- (zip_scores_full (aggregate df) rs fs ms Lr Lf Lm), <- Hz, map_map.
  reflexivity.
Qed.

(** ** Segments *)

Definition five_segments : list string :=
  ["Champions"; "Loyal Customers"; "Potential Loyalists"; "At Risk"; "Lost Customers"]%string.

(** The number of profiles of a segment ([rfm['segment'].value_counts()]). *)
Definition segment_count (ps : list profile) (s : string) : nat :=
  count_occ string_dec (map segment ps) s.

Lemma segment_customers_five (r f m : option Z) (s : string) :
  segment_customers r f m = Ok s -> In s five_segments.
Proof.
  unfold segment_customers, five_segments.
  destruct r as [r |]; [| discriminate].
  destruct f as [f |]; [| discriminate].
  destruct m as [m |]; [| discriminate]. simpl.
  repeat match goal with
         | |- (if ?c then _ else _) = _ -> _ => destruct c
         end; intros H; injection H as <-; simpl; auto 6.
Qed.

Lemma five_counts (l : list string) :
  Forall (fun s => In s five_segments) l ->
  (count_occ string_dec l "Champions"%string + count_occ string_dec l "Loyal Customers"%string
   + count_occ string_dec l "Potential Loyalists"%string + count_occ string_dec l "At Risk"%string
   + count_occ string_dec l "Lost Customers"%string)%nat = length l.
Proof.
  induction 1 as [| s l Hs _ IH]; [reflexivity |].
  cbn [length]. rewrite <- IH. clear IH.
  unfold five_segments in Hs. simpl in Hs.
  destruct Hs as [<- | [<- | [<- | [<- | [<- | []]]]]];
    repeat match goal with
           | |- context [count_occ string_dec (?a :: _) ?b] =>
               first [ rewrite (count_occ_cons_eq string_dec _ (eq_refl : a = b))
                     | rewrite (count_occ_cons_neq string_dec l (x := a) (y := b))
                         by discriminate ]
           end; lia.
Qed.

(** ** Order statistics of a sorted column *)

(** The number of cells of [l] that satisfy [p]. *)
Definition count (p : Q -> bool) (l : list Q) : nat := length (filter p l).

(** [below x y]: the cell [y] is strictly below [x]. *)
Definition below (x y : Q) : bool := negb (Qle_bool x y).

(** [upto x y]: the cell [y] is at most [x]. *)
Definition upto (x y : Q) : bool := Qle_bool y x.

Lemma below_iff (x y : Q) : below x y = true <-> (y < x)%Q.
Proof.
  unfold below. rewrite negb_true_iff, <- not_true_iff_false, Qle_bool_iff.
  split; [apply Qnot_le_lt | apply Qlt_not_le].
Qed.

Lemma upto_iff (x y : Q) : upto x y = true <-> (y <= x)%Q.
Proof. apply Qle_bool_iff. Qed.

(** A predicate that holds of every cell under a cell of which it holds. *)
Definition downward (p : Q -> bool) : Prop :=
  forall y z, (y <= z)%Q -> p z = true -> p y = true.

Lemma below_downward (x : Q) : downward (below x).
Proof. intros y z Hyz. rewrite !below_iff. lra. Qed.

Lemma upto_downward (x : Q) : downward (upto x).
Proof. intros y z Hyz. rewrite !upto_iff. lra. Qed.

Lemma count_perm (p : Q -> bool) (l l' : list Q) :
  Permutation l l' -> count p l = count p l'.
Proof.
  unfold count. induction 1 as [| a l l' _ IH | a b l | l l' l'' _ IH1 _ IH2]; simpl.
  - reflexivity.
  - destruct (p a); simpl; rewrite IH; reflexivity.
  - destruct (p a), (p b); reflexivity.
  - rewrite IH1. exact IH2.
Qed.

Lemma sort_sorted (l : list Q) : StronglySorted Qle (QSort.sort l).
Proof.
  assert (T : Relations_1.Transitive (fun x y => is_true (Qle_bool x y))).
  { intros x y z. unfold is_true. rewrite !Qle_bool_iff. apply Qle_trans. }
  pose proof (QSort.StronglySorted_sort l T) as H.
  induction H as [| a t _ IH Hall]; constructor; [exact IH |].
  apply (Forall_impl _ (fun y Hy => proj1 (Qle_bool_iff a y) Hy) Hall).
Qed.

Lemma sort_perm (l : list Q) : Permutation l (QSort.sort l).
Proof. apply QSort.Permuted_sort. Qed.

Lemma sort_length (l : list Q) : length (QSort.sort l) = length l.
Proof. symmetry. apply Permutation_length, sort_perm. Qed.

(** In a sorted column the cells that satisfy a downward predicate are the
    first [count p a] ones. *)
Lemma sorted_prefix (p : Q -> bool) (a : list Q) :
  downward p -> StronglySorted Qle a ->
  forall j, (j < length a)%nat -> (p (nth j a 0%Q) = true <-> (j < count p a)%nat).
Proof.
  intros Hp Hs. induction Hs as [| h t _ IH Hall]; intros j Hj; [simpl in Hj; lia |].
  unfold count in *. simpl. destruct (p h) eqn:Eh.
  - destruct j as [| j]; simpl; [split; [lia | intros _; exact Eh] |].
    simpl in Hj. rewrite IH by lia. lia.
  - assert (Ht : forall y, In y t -> p y = false).
    { intros y Hy. rewrite Forall_forall in Hall. specialize (Hall y Hy).
      destruct (p y) eqn:Ey; [| reflexivity].
      rewrite (Hp h y Hall Ey) in Eh. discriminate. }
    assert (E0 : filter p t = []).
    { clear -Ht. induction t as [| y t IH]; [reflexivity |]. simpl.
      rewrite (Ht y (or_introl eq_refl)). apply IH. intros z Hz. apply Ht. right. exact Hz. }
    rewrite E0. simpl. destruct j as [| j]; simpl.
    + rewrite Eh. split; [discriminate | lia].
    + simpl in Hj. rewrite (Ht (nth j t 0%Q)) by (apply nth_In; lia).
      split; [discriminate | lia].
Qed.

Lemma sorted_nth_le (a : list Q) :
  StronglySorted Qle a ->
  forall i j, (i <= j)%nat -> (j < length a)%nat -> (nth i a 0 <= nth j a 0)%Q.
Proof.
  induction 1 as [| h t _ IH Hall]; intros i j Hij Hj; [simpl in Hj; lia |].
  destruct i as [| i], j as [| j]; simpl in *; try lia.
  - apply Qle_refl.
  - rewrite Forall_forall in Hall. apply Hall. apply nth_In. lia.
  - apply IH; lia.
Qed.

Section Quantiles.
(** A column [xs] and one of its cells [x]. *)
Variable xs : list Q.
Variable x : Q.
Hypothesis x_in : In x xs.

Let a := QSort.sort xs.
Let n := length xs.
Let c := count (below x) xs.

Lemma sorted_cell :
  exists j, (j < n)%nat /\ nth j a 0%Q = x.
Proof.
  assert (Hin : In x a) by (apply (Permutation_in x (sort_perm xs) x_in)).
  destruct (In_nth a x 0%Q Hin) as [j [Hj Ej]].
  exists j. split; [unfold n; rewrite <- sort_length; exact Hj | exact Ej].
Qed.

Lemma nth_below_iff (j : nat) :
  (j < n)%nat -> ((nth j a 0 < x)%Q <-> (j < c)%nat).
Proof.
  intros Hj. rewrite <- below_iff. unfold c.
  rewrite (count_perm (below x) xs a (sort_perm xs)).
  apply sorted_prefix; [apply below_downward | apply sort_sorted |].
  unfold a. rewrite sort_length. exact Hj.
Qed.

Lemma count_below_lt : (c < n)%nat.
Proof.
  destruct sorted_cell as [j [Hj Ej]].
  destruct (Nat.lt_ge_cases j c) as [H | H]; [| lia].
  apply (nth_below_iff j Hj) in H. rewrite Ej in H. lra.
Qed.

(** The cell of rank [c] in the sorted column is [x] itself. *)
Lemma nth_count_below : (nth c a 0 == x)%Q.
Proof.
  destruct sorted_cell as [j [Hj Ej]].
  assert (Hcj : (c <= j)%nat).
  { destruct (Nat.lt_ge_cases j c) as [H | H]; [| exact H].
    apply (nth_below_iff j Hj) in H. rewrite Ej in H. lra. }
  assert (H1 : (nth c a 0 <= x)%Q).
  { rewrite <- Ej. apply sorted_nth_le; [apply sort_sorted | exact Hcj |].
    unfold a. rewrite sort_length. exact Hj. }
  assert (H2 : ~ (nth c a 0 < x)%Q).
  { rewrite (nth_below_iff c count_below_lt). lia. }
  lra.
Qed.

Lemma gamma_bounds (r q : nat) :
  (r < q)%nat ->
  (0 <= inject_Z (Z.of_nat r) / inject_Z (Z.of_nat q) < 1)%Q.
Proof.
  intros H.
  assert (Hq : (0 < inject_Z (Z.of_nat q))%Q).
  { change 0%Q with (inject_Z 0). rewrite <- Zlt_Qlt. lia. }
  split.
  - apply Qle_shift_div_l; [exact Hq |]. rewrite Qmult_0_l.
    change 0%Q with (inject_Z 0). rewrite <- Zle_Qle. lia.
  - apply Qlt_shift_div_r; [exact Hq |]. rewrite Qmult_1_l.
    rewrite <- Zlt_Qlt. lia.
Qed.

(** The [k]-th edge is below [x] exactly when its position [k/q * (n-1)]
    is below the rank of [x]. *)
Lemma quantile_below_iff (q k : nat) :
  (0 < q)%nat -> (k <= q)%nat ->
  ((quantile a q k < x)%Q <-> (k * (n - 1) < q * c)%nat).
Proof.
  intros Hq Hk. unfold quantile.
  replace (length a) with n by (unfold a, n; rewrite sort_length; reflexivity).
  set (pos := (k * (n - 1))%nat).
  set (lo := (pos / q)%nat).
  set (hi := Nat.min (lo + 1) (n - 1)).
  pose proof count_below_lt as Hc.
  assert (Hlo : (lo <= n - 1)%nat).
  { unfold lo. apply Nat.Div0.div_le_upper_bound. unfold pos. nia. }
  assert (Hdm : pos = (q * lo + pos mod q)%nat) by (apply Nat.div_mod_eq).
  assert (Hr : (pos mod q < q)%nat) by (apply Nat.mod_upper_bound; lia).
  destruct (gamma_bounds (pos mod q) q Hr) as [G0 G1].
  set (g := (inject_Z (Z.of_nat (pos mod q)) / inject_Z (Z.of_nat q))%Q) in *.
  assert (Hhi : (lo <= hi <= lo + 1)%nat /\ (hi < n)%nat) by (unfold hi; lia).
  destruct (Nat.lt_ge_cases pos (q * c)) as [Hlt | Hge].
  - (* the position is below the rank *)
    assert (Hloc : (lo < c)%nat) by nia.
    assert (U : (nth lo a 0 < x)%Q) by (apply nth_below_iff; lia).
    assert (V : (nth hi a 0 <= x)%Q).
    { destruct (Nat.eq_dec hi c) as [-> | N].
      - rewrite nth_count_below. apply Qle_refl.
      - apply Qlt_le_weak. apply nth_below_iff; lia. }
    split; [intros _; exact Hlt | intros _]. nra.
  - (* the position has reached the rank *)
    assert (Hloc : (c <= lo)%nat) by nia.
    assert (U : ~ (nth lo a 0 < x)%Q) by (rewrite nth_below_iff; lia).
    assert (V : ~ (nth hi a 0 < x)%Q) by (rewrite nth_below_iff; lia).
    split; [intros H; exfalso; nra | intros H; lia].
Qed.

End Quantiles.

(** ** Buckets *)

(** The number of leading elements of [ks] that satisfy [p]. *)
Fixpoint prefix_len (p : nat -> bool) (ks : list nat) : nat :=
  match ks with
  | [] => 0%nat
  | k :: t => if p k then S (prefix_len p t) else 0%nat
  end.

(** The insertion point, among the [q+1] edges of a column of [n] cells, of
    a cell of rank [c]. *)
Definition level (n q c : nat) : nat :=
  prefix_len (fun k => (k * (n - 1) <? q * c)%nat) (seq 0 (S q)).

Lemma searchsorted_map (f : nat -> Q) (v : Q) (ks : list nat) :
  searchsorted_left (map f ks) v = prefix_len (fun k => below v (f k)) ks.
Proof.
  induction ks as [| k t IH]; simpl; [reflexivity |].
  unfold below. destruct (Qle_bool v (f k)); simpl; [reflexivity | rewrite IH; reflexivity].
Qed.

Lemma prefix_len_ext (p p' : nat -> bool) (ks : list nat) :
  (forall k, In k ks -> p k = p' k) -> prefix_len p ks = prefix_len p' ks.
Proof.
  induction ks as [| k t IH]; simpl; intros H; [reflexivity |].
  rewrite (H k (or_introl eq_refl)), IH; [reflexivity |].
  intros j Hj. apply H. right. exact Hj.
Qed.

Lemma prefix_len_mono (p p' : nat -> bool) (ks : list nat) :
  (forall k, p' k = true -> p k = true) -> (prefix_len p' ks <= prefix_len p ks)%nat.
Proof.
  intros H. induction ks as [| k t IH]; simpl; [lia |].
  destruct (p' k) eqn:E; [rewrite (H k E); lia | lia].
Qed.

Lemma level_mono (n q c c' : nat) : (c' <= c)%nat -> (level n q c' <= level n q c)%nat.
Proof.
  intros H. apply prefix_len_mono. intros k. rewrite !Nat.ltb_lt. nia.
Qed.

(** The insertion point of a cell of the column among the quantile edges of
    the column is the level of its rank. *)
Lemma searchsorted_level (xs : list Q) (x : Q) (q : nat) :
  In x xs -> (0 < q)%nat ->
  searchsorted_left (quantile_edges (QSort.sort xs) q) x
  = level (length xs) q (count (below x) xs).
Proof.
  intros Hin Hq. unfold quantile_edges, level. rewrite searchsorted_map.
  apply prefix_len_ext. intros k Hk. apply in_seq in Hk.
  apply eq_true_iff_eq.
  rewrite below_iff, Nat.ltb_lt. apply quantile_below_iff; [exact Hin | exact Hq | lia].
Qed.

Lemma count_mono (p p' : Q -> bool) (l : list Q) :
  (forall y, p' y = true -> p y = true) -> (count p' l <= count p l)%nat.
Proof.
  intros H. unfold count. induction l as [| y t IH]; simpl; [lia |].
  destruct (p' y) eqn:E; [rewrite (H y E); simpl; lia |].
  destruct (p y); simpl; lia.
Qed.

Lemma count_app (p : Q -> bool) (l l' : list Q) :
  count p (l ++ l') = (count p l + count p l')%nat.
Proof. unfold count. rewrite filter_app, length_app. reflexivity. Qed.

Lemma count_cons (p : Q -> bool) (y : Q) (l : list Q) :
  count p (y :: l) = ((if p y then 1 else 0) + count p l)%nat.
Proof. unfold count. simpl. destruct (p y); reflexivity. Qed.

Lemma dropna_app {A : Type} (l l' : list (option A)) :
  dropna (l ++ l') = dropna l ++ dropna l'.
Proof.
  induction l as [| [a |] t IH]; simpl; [reflexivity | rewrite IH; reflexivity | exact IH].
Qed.

Lemma unique_from_length (l seen : list Q) :
  (length (unique_from seen l) <= length l)%nat.
Proof.
  revert seen. induction l as [| h t IH]; intros seen; simpl; [lia |].
  destruct (existsb (Qeq_bool h) seen); simpl.
  - specialize (IH seen). lia.
  - specialize (IH (h :: seen)). lia.
Qed.

(** With as many labels as there are intervals between the edges, a result
    means that no edge was dropped. *)
Lemma bins_to_cuts_full (x : list (option Q)) (bins : list Q) (labels : list Z)
      (res : list (option Z)) :
  (1 < length labels)%nat -> length bins = S (length labels) ->
  bins_to_cuts x bins labels = Ok res ->
  res = map (cut1 bins labels) x /\ length (unique bins) = length bins.
Proof.
  intros Hl Hb. unfold bins_to_cuts.
  pose proof (unique_from_length bins []) as Hu. fold (unique bins) in Hu.
  destruct (Nat.ltb_spec (length (unique bins)) (length bins)) as [Lt | Ge].
  - destruct (Nat.eqb_spec (length bins) 2) as [E2 | N2]; simpl; [lia |].
    destruct (Nat.eqb_spec (length labels) (length (unique bins) - 1)) as [E | N];
      simpl; [lia | discriminate].
  - simpl.
    destruct (Nat.eqb_spec (length labels) (length bins - 1)) as [E | N]; simpl;
      [| discriminate].
    intros H. injection H as <-. split; [reflexivity | lia].
Qed.

Lemma quantile_edges_length (a : list Q) (q : nat) : length (quantile_edges a q) = S q.
Proof. unfold quantile_edges. rewrite length_map, length_seq. reflexivity. Qed.

(** A result of [qcut] on a column that has a cell: the cells were cut at the
    quantile edges of the column, none of which was dropped. *)
Lemma qcut_full (x : list (option Q)) (q : nat) (labels : list Z) (res : list (option Z)) :
  dropna x <> [] -> (1 < length labels)%nat -> length labels = q ->
  qcut x q labels = Ok res ->
  res = map (cut1 (quantile_edges (QSort.sort (dropna x)) q) labels) x /\
  length (unique (quantile_edges (QSort.sort (dropna x)) q)) = S q.
Proof.
  intros Hne Hl Hq. unfold qcut.
  destruct (QSort.sort (dropna x)) as [| a0 a] eqn:Ea.
  - exfalso. apply Hne. apply length_zero_iff_nil.
    rewrite <- sort_length, Ea. reflexivity.
  - intros H.
    destruct (bins_to_cuts_full x (quantile_edges (a0 :: a) q) labels res Hl) as [E1 E2];
      [rewrite quantile_edges_length, Hq; reflexivity | exact H |].
    split; [exact E1 | rewrite E2; apply quantile_edges_length].
Qed.

Lemma quantile_edges_hd (a : list Q) (q : nat) :
  hd 0%Q (quantile_edges a q) = quantile a q 0.
Proof. reflexivity. Qed.

(** The bucket of a cell of the column is never below the level of its rank,
    and is that level unless the level is 0. *)
Lemma bucket_level (xs : list Q) (x : Q) (q : nat) :
  In x xs -> (0 < q)%nat ->
  let b := bucket (quantile_edges (QSort.sort xs) q) x in
  let l := level (length xs) q (count (below x) xs) in
  (b = l \/ (b = 1%nat /\ l = 0%nat)).
Proof.
  intros Hin Hq b l. unfold b, bucket.
  rewrite (searchsorted_level xs x q Hin Hq). fold l.
  destruct (Qeq_bool x (hd 0%Q (quantile_edges (QSort.sort xs) q))) eqn:E; [| left; reflexivity].
  right. split; [reflexivity |].
  unfold l. rewrite <- (searchsorted_level xs x q Hin Hq).
  apply Qeq_bool_iff in E. unfold quantile_edges in *. simpl in *.
  destruct (Qle_bool x (quantile (QSort.sort xs) q 0)) eqn:L; [reflexivity |].
  exfalso. apply not_true_iff_false in L. apply L. apply Qle_bool_iff.
  rewrite E. apply Qle_refl.
Qed.

Lemma zip_scores_nth (rfm : list rfm_row) : forall rs fs ms i x r f m,
  nth_error (zip_scores rfm rs fs ms) i = Some (x, (r, f, m)) ->
  nth_error rfm i = Some x /\ nth_error rs i = Some r /\
  nth_error fs i = Some f /\ nth_error ms i = Some m.
Proof.
  induction rfm as [| y t IH]; intros rs fs ms i x r f m H;
    [destruct i; discriminate |].
  destruct rs as [| r0 rs]; [destruct i; discriminate |].
  destruct fs as [| f0 fs]; [destruct i; discriminate |].
  destruct ms as [| m0 ms]; [destruct i; discriminate |].
  destruct i as [| i]; simpl in H.
  - injection H as <- <- <- <-. simpl. auto.
  - simpl. apply IH. exact H.
Qed.

(** ** Columns without spread *)

Lemma qcut_raise (x : list (option Q)) (q : nat) (labels : list Z) (e : exn) :
  qcut x q labels = Raise e -> e = bin_labels_error.
Proof.
  unfold qcut, bins_to_cuts.
  destruct (QSort.sort (dropna x)) as [| a0 a];
    match goal with |- context [negb ?c] => destruct c end; simpl; intros H;
    try discriminate; injection H as <-; reflexivity.
Qed.

Lemma unique_from_seen (l seen : list Q) :
  (forall y, In y l -> existsb (Qeq_bool y) seen = true) -> unique_from seen l = [].
Proof.
  induction l as [| h t IH]; simpl; intros H; [reflexivity |].
  rewrite (H h (or_introl eq_refl)). apply IH. intros y Hy. apply H. right. exact Hy.
Qed.

Lemma unique_constant (h : Q) (t : list Q) :
  (forall y, In y t -> (y == h)%Q) -> unique (h :: t) = [h].
Proof.
  intros H. unfold unique. simpl. f_equal. apply unique_from_seen.
  intros y Hy. simpl. apply orb_true_iff. left. apply Qeq_bool_iff. apply H. exact Hy.
Qed.

Lemma quantile_constant (a : list Q) (v : Q) (q k : nat) :
  (0 < q)%nat -> (k <= q)%nat -> a <> [] ->
  (forall y, In y a -> (y == v)%Q) -> (quantile a q k == v)%Q.
Proof.
  intros Hq Hk Hne H. unfold quantile.
  assert (Hn : (0 < length a)%nat) by (destruct a; [contradiction | simpl; lia]).
  set (pos := (k * (length a - 1))%nat).
  assert (Hlo : (pos / q <= length a - 1)%nat).
  { apply Nat.Div0.div_le_upper_bound. unfold pos. nia. }
  rewrite (H (nth (pos / q) a 0%Q)) by (apply nth_In; lia).
  rewrite (H (nth (Nat.min (pos / q + 1) (length a - 1)) a 0%Q)) by (apply nth_In; lia).
  ring.
Qed.

(** On a column whose cells are all equal, the six edges are one value, five
    of them are dropped and the five labels are refused. *)
Lemma qcut_constant_raises (xs : list Q) (labels : list Z) :
  length labels = 5%nat ->
  (forall u v, In u xs -> In v xs -> (u == v)%Q) ->
  qcut (map Some xs) 5 labels = Raise bin_labels_error.
Proof.
  intros Hl H. unfold qcut.
  rewrite dropna_map_Some.
  destruct (QSort.sort xs) as [| a0 a] eqn:Ea.
  - rewrite Hl. reflexivity.
  - assert (Ha : forall y, In y (a0 :: a) -> (y == a0)%Q).
    { intros y Hy. rewrite <- Ea in Hy.
      apply (Permutation_in y (Permutation_sym (sort_perm xs))) in Hy.
      apply H; [exact Hy |].
      apply (Permutation_in a0 (Permutation_sym (sort_perm xs))).
      rewrite Ea. left. reflexivity. }
    unfold bins_to_cuts.
    assert (Hu : unique (quantile_edges (a0 :: a) 5) = [quantile (a0 :: a) 5 0]).
    { unfold quantile_edges. cbn [seq map]. apply unique_constant.
      intros y Hy. apply (Qeq_trans _ a0).
      - simpl in Hy.
        destruct Hy as [<- | [<- | [<- | [<- | [<- | []]]]]];
          apply quantile_constant; try lia; try discriminate; exact Ha.
      - apply Qeq_sym. apply quantile_constant; try lia; try discriminate; exact Ha. }
    rewrite Hu, quantile_edges_length, Hl. reflexivity.
Qed.

(** ** Missing cells *)

(** No row of the table has a customer. *)
Definition no_customer (df : DataFrame) : Prop :=
  forall t, In t df -> customer_id t = None.

(** Some customer of the table has no date on any of its rows. *)
Definition undated_customer (df : DataFrame) : Prop :=
  exists c, In (Some c) (map customer_id df) /\
            forall t, In t df -> customer_id t = Some c -> transaction_date t = None.

(** A required cell of the row is missing. *)
Definition required_missing (t : transaction) : Prop :=
  customer_id t = None \/ transaction_date t = None \/ total_amount t = None.

Lemma series_max_none (l : list (option Z)) :
  (forall d, In d l -> d = None) -> series_max l = None.
Proof.
  induction l as [| [d |] t IH]; simpl; intros H.
  - reflexivity.
  - discriminate (H (Some d) (or_introl eq_refl)).
  - apply IH. intros d Hd. apply H. right. exact Hd.
Qed.

Lemma no_customer_aggregate (df : DataFrame) :
  no_customer df -> aggregate df = [].
Proof.
  intros H. unfold aggregate, group_keys.
  assert (E : dropna (map customer_id df) = []).
  { induction df as [| t df IH]; [reflexivity |]. simpl.
    rewrite (H t (or_introl eq_refl)). apply IH. intros u Hu. apply H. right. exact Hu. }
  rewrite E. reflexivity.
Qed.

Lemma undated_customer_row (df : DataFrame) :
  undated_customer df -> exists x, In x (aggregate df) /\ recency x = None.
Proof.
  intros [c [Hc Hd]]. unfold aggregate.
  eexists. split.
  - apply in_map. apply group_keys_In. exact Hc.
  - cbn [recency]. unfold recency_of.
    rewrite (series_max_none (map transaction_date (group df c))).
    + destruct (series_max (map transaction_date df)); reflexivity.
    + intros d Hin. apply in_map_iff in Hin. destruct Hin as [t [<- Ht]].
      apply group_In in Ht. apply Hd; tauto.
Qed.

(** A missing cell of a column has no label. *)
Lemma qcut_nan (x : list (option Q)) (q : nat) (labels : list Z)
      (res : list (option Z)) (i : nat) :
  qcut x q labels = Ok res -> nth_error x i = Some None -> nth_error res i = Some None.
Proof.
  unfold qcut. destruct (QSort.sort (dropna x)) as [| a0 a].
  - destruct (negb _); [discriminate |]. intros H Hi. injection H as <-.
    apply (map_nth_error (fun _ => @None Z)) in Hi. exact Hi.
  - intros H Hi. apply bins_to_cuts_ok in H. destruct H as [b [_ ->]].
    apply (map_nth_error (cut1 b labels)) in Hi. exact Hi.
Qed.

Lemma zip_scores_nth_full (rfm : list rfm_row) : forall rs fs ms i x,
  length rs = length rfm -> length fs = length rfm -> length ms = length rfm ->
  nth_error rfm i = Some x ->
  exists r f m, nth_error (zip_scores rfm rs fs ms) i = Some (x, (r, f, m)).
Proof.
  induction rfm as [| y t IH]; intros rs fs ms i x H1 H2 H3 Hi;
    [destruct i; discriminate |].
  destruct rs as [| r0 rs]; [discriminate |].
  destruct fs as [| f0 fs]; [discriminate |].
  destruct ms as [| m0 ms]; [discriminate |].
  destruct i as [| i]; simpl in *.
  - injection Hi as <-. exists r0, f0, m0. reflexivity.
  - apply IH; try lia. exact Hi.
Qed.

(** A customer without recency makes the run fail: at the latest when the
    segment of its row is computed. *)
Lemma recency_nan_raises (df : DataFrame) (x : rfm_row) :
  In x (aggregate df) -> recency x = None ->
  is_ok (perform_rfm_analysis df) = false.
Proof.
  intros Hx Hn. unfold perform_rfm_analysis.
  destruct (r_scores (aggregate df)) as [rs | e] eqn:Hr; [| reflexivity].
  destruct (f_scores (aggregate df)) as [fs | e] eqn:Hf; [| reflexivity].
  destruct (m_scores (aggregate df)) as [ms | e] eqn:Hm; [| reflexivity].
  cbn [bind].
  destruct (qcut_ok_labels _ _ _ _ Hr) as [Lr _].
  destruct (qcut_ok_labels _ _ _ _ Hf) as [Lf _].
  destruct (qcut_ok_labels _ _ _ _ Hm) as [Lm _].
  rewrite length_map in Lr, Lm.
  rewrite length_map, rank_first_length, length_map in Lf.
  destruct (In_nth_error _ _ Hx) as [i Hi].
  destruct (zip_scores_nth_full (aggregate df) rs fs ms i x Lr Lf Lm Hi) as [r [f [m Hz]]].
  assert (Er : r = None).
  { destruct (zip_scores_nth _ _ _ _ _ _ _ _ _ Hz) as [_ [Hri _]].
    apply (map_nth_error (fun r => to_Q (recency r))) in Hi. rewrite Hn in Hi.
    rewrite (qcut_nan _ _ _ _ _ Hr Hi) in Hri. injection Hri as <-. reflexivity. }
  subst r.
  assert (Hs : is_ok (mapM segment_of_row (zip_scores (aggregate df) rs fs ms)) = false).
  { apply (mapM_raise _ _ segment_of_row _ (x, (None, f, m)));
      [exact (nth_error_In _ _ Hz) | reflexivity]. }
  destruct (mapM segment_of_row _); [discriminate | reflexivity].
Qed.

(** ** Ranks *)

(** The number of cells of an integer column that satisfy [p]. *)
Definition countZ (p : Z -> bool) (l : list Z) : Z := Z.of_nat (length (filter p l)).

Lemma countZ_app (p : Z -> bool) (l l' : list Z) :
  countZ p (l ++ l') = countZ p l + countZ p l'.
Proof. unfold countZ. rewrite filter_app, length_app. lia. Qed.

Lemma countZ_bounds (p : Z -> bool) (l : list Z) :
  0 <= countZ p l <= Z.of_nat (length l).
Proof. unfold countZ. pose proof (filter_length_le p l). lia. Qed.

Lemma countZ_mono (p p' : Z -> bool) (l : list Z) :
  (forall y, p' y = true -> p y = true) -> countZ p' l <= countZ p l.
Proof.
  intros H. unfold countZ.
  assert (L : (length (filter p' l) <= length (filter p l))%nat).
  { induction l as [| y t IH]; cbn [filter]; [lia |].
    destruct (p' y) eqn:E; [rewrite (H y E); cbn [length]; lia |].
    destruct (p y); cbn [length]; lia. }
  lia.
Qed.

Lemma countZ_lt_eq (v : Z) (l : list Z) :
  countZ (fun y => y <? v) l + countZ (fun y => y =? v) l = countZ (fun y => y <=? v) l.
Proof.
  unfold countZ.
  assert (H : Nat.add (length (filter (fun y => y <? v) l))
                       (length (filter (fun y => y =? v) l))
               = length (filter (fun y => y <=? v) l)).
  { induction l as [| y t IH]; [reflexivity |]. cbn [filter].
    destruct (Z.ltb_spec y v), (Z.eqb_spec y v), (Z.leb_spec y v); cbn [length]; lia. }
  lia.
Qed.

(** The rank of the cell [v] that stands between [l1] and [l2]: one more than
    the cells before it that are at most [v] and the cells after it that are
    below [v]. *)
Lemma rank_at_split (l1 l2 : list Z) (v : Z) :
  rank_at (l1 ++ v :: l2) (length l1)
  = 1 + countZ (fun y => y <=? v) l1 + countZ (fun y => y <? v) l2.
Proof.
  unfold rank_at. rewrite nth_middle.
  replace (firstn (length l1) (l1 ++ v :: l2)) with l1.
  2:{ rewrite firstn_app, Nat.sub_diag, firstn_all. simpl. rewrite app_nil_r. reflexivity. }
  fold (countZ (fun y => y <? v) (l1 ++ v :: l2)).
  fold (countZ (fun y => y =? v) l1).
  rewrite countZ_app, <- (countZ_lt_eq v l1).
  change (v :: l2) with ([v] ++ l2). rewrite countZ_app.
  unfold countZ at 2. cbn [app filter]. rewrite Z.ltb_irrefl. cbn [length]. lia.
Qed.

Lemma rank_at_bounds (x : list Z) (i : nat) :
  (i < length x)%nat -> 1 <= rank_at x i <= Z.of_nat (length x).
Proof.
  intros Hi. destruct (nth_split x 0 Hi) as [l1 [l2 [E L]]].
  remember (nth i x 0) as v eqn:Ev. clear Ev Hi. subst x i.
  rewrite rank_at_split, length_app. cbn [length].
  pose proof (countZ_bounds (fun y => y <=? v) l1).
  pose proof (countZ_bounds (fun y => y <? v) l2).
  lia.
Qed.

(** Two cells of a column have different ranks. *)
Lemma rank_at_lt (x : list Z) (i j : nat) :
  (i < j)%nat -> (j < length x)%nat -> rank_at x i <> rank_at x j.
Proof.
  intros Hij Hj.
  destruct (nth_split x 0 Hj) as [m1 [l3 [E L]]].
  assert (Hi : (i < length m1)%nat) by lia.
  destruct (nth_split m1 0 Hi) as [l1 [l2 [E1 L1]]].
  remember (nth j x 0) as vj eqn:Evj. remember (nth i m1 0) as vi eqn:Evi.
  clear Evj Evi Hi Hj Hij. subst m1 x i j.
  assert (Ri : rank_at ((l1 ++ vi :: l2) ++ vj :: l3) (length l1)
               = 1 + countZ (fun y => y <=? vi) l1
                 + (countZ (fun y => y <? vi) l2 + (if vj <? vi then 1 else 0)
                    + countZ (fun y => y <? vi) l3)).
  { rewrite <- app_assoc. cbn [app]. rewrite rank_at_split.
    rewrite countZ_app. change (vj :: l3) with ([vj] ++ l3). rewrite countZ_app.
    unfold countZ at 3. cbn [app filter]. destruct (vj <? vi); cbn [length]; lia. }
  assert (Rj : rank_at ((l1 ++ vi :: l2) ++ vj :: l3) (length (l1 ++ vi :: l2))
               = 1 + (countZ (fun y => y <=? vj) l1 + (if vi <=? vj then 1 else 0)
                      + countZ (fun y => y <=? vj) l2)
                 + countZ (fun y => y <? vj) l3).
  { rewrite rank_at_split, countZ_app.
    change (vi :: l2) with ([vi] ++ l2). rewrite countZ_app.
    unfold countZ at 2. cbn [app filter]. destruct (vi <=? vj); cbn [length]; lia. }
  rewrite Ri, Rj. clear Ri Rj.
  destruct (Z.leb_spec vi vj) as [Hle | Hgt].
  - assert ((vj <? vi) = false) as -> by (apply Z.ltb_ge; exact Hle).
    pose proof (countZ_mono (fun y => y <=? vj) (fun y => y <=? vi) l1) as M1.
    pose proof (countZ_mono (fun y => y <=? vj) (fun y => y <? vi) l2) as M2.
    pose proof (countZ_mono (fun y => y <? vj) (fun y => y <? vi) l3) as M3.
    specialize (M1 ltac:(intros y; rewrite !Z.leb_le; lia)).
    specialize (M2 ltac:(intros y; rewrite Z.ltb_lt, Z.leb_le; lia)).
    specialize (M3 ltac:(intros y; rewrite !Z.ltb_lt; lia)).
    lia.
  - assert ((vj <? vi) = true) as -> by (apply Z.ltb_lt; exact Hgt).
    pose proof (countZ_mono (fun y => y <=? vi) (fun y => y <=? vj) l1) as M1.
    pose proof (countZ_mono (fun y => y <? vi) (fun y => y <=? vj) l2) as M2.
    pose proof (countZ_mono (fun y => y <? vi) (fun y => y <? vj) l3) as M3.
    specialize (M1 ltac:(intros y; rewrite !Z.leb_le; lia)).
    specialize (M2 ltac:(intros y; rewrite Z.ltb_lt, Z.leb_le; lia)).
    specialize (M3 ltac:(intros y; rewrite !Z.ltb_lt; lia)).
    lia.
Qed.

Lemma NoDup_map_seq (f : nat -> Z) (n : nat) : forall s,
  (forall i j, (s <= i)%nat -> (i < j)%nat -> (j < s + n)%nat -> f i <> f j) ->
  NoDup (map f (seq s n)).
Proof.
  induction n as [| n IH]; intros s H; simpl; constructor.
  - intros Hin. apply in_map_iff in Hin. destruct Hin as [j [Ej Hj]].
    apply in_seq in Hj. apply (H s j); [lia | lia | lia | symmetry; exact Ej].
  - apply IH. intros i j H1 H2 H3. apply H; lia.
Qed.

(** The ranks 1..n. *)
Definition ranks_upto (n : nat) : list Z := map Z.of_nat (seq 1 n).

(** [rank(method='first')] numbers the cells of the column from 1 to n. *)
Lemma rank_first_perm (x : list Z) :
  Permutation (rank_first x) (ranks_upto (length x)).
Proof.
  apply NoDup_Permutation_bis.
  - unfold rank_first. apply NoDup_map_seq. intros i j _ Hij Hj.
    apply rank_at_lt; [exact Hij | exact Hj].
  - unfold ranks_upto. rewrite rank_first_length, length_map, length_seq. lia.
  - intros r Hr. unfold rank_first in Hr. apply in_map_iff in Hr.
    destruct Hr as [i [<- Hi]]. apply in_seq in Hi.
    pose proof (rank_at_bounds x i ltac:(lia)) as B.
    unfold ranks_upto. apply in_map_iff. exists (Z.to_nat (rank_at x i)).
    split; [lia | apply in_seq; lia].
Qed.

(** ** The quantile edges of a column of ranks *)

(** The ranks 1..n as a column of rationals. *)
Definition rank_column (n : nat) : list Q := map inject_Z (ranks_upto n).

Lemma rank_column_S (n : nat) :
  rank_column (S n) = rank_column n ++ [inject_Z (Z.of_nat (S n))].
Proof.
  unfold rank_column, ranks_upto. rewrite seq_S, !map_app. reflexivity.
Qed.

Lemma rank_column_length (n : nat) : length (rank_column n) = n.
Proof. unfold rank_column, ranks_upto. rewrite !length_map, length_seq. reflexivity. Qed.

Lemma rank_column_In (n : nat) (y : Q) :
  In y (rank_column n) -> exists m, y = inject_Z (Z.of_nat m) /\ (1 <= m <= n)%nat.
Proof.
  unfold rank_column, ranks_upto. rewrite map_map. intros H.
  apply in_map_iff in H. destruct H as [m [<- Hm]]. apply in_seq in Hm.
  exists m. split; [reflexivity | lia].
Qed.

Lemma count_below_ranks (n m : nat) :
  count (below (inject_Z (Z.of_nat m))) (rank_column n) = Nat.min (m - 1) n.
Proof.
  induction n as [| n IH]; [rewrite Nat.min_0_r; reflexivity |].
  rewrite rank_column_S, count_app, IH, count_cons. unfold count at 1. simpl length.
  destruct (below (inject_Z (Z.of_nat m)) (inject_Z (Z.of_nat (S n)))) eqn:E.
  - apply below_iff in E. rewrite <- Zlt_Qlt in E. lia.
  - apply not_true_iff_false in E. rewrite below_iff, <- Zlt_Qlt in E. lia.
Qed.

Lemma count_upto_ranks (n m : nat) :
  count (upto (inject_Z (Z.of_nat m))) (rank_column n) = Nat.min m n.
Proof.
  induction n as [| n IH]; [rewrite Nat.min_0_r; reflexivity |].
  rewrite rank_column_S, count_app, IH, count_cons. unfold count at 1. simpl length.
  destruct (upto (inject_Z (Z.of_nat m)) (inject_Z (Z.of_nat (S n)))) eqn:E.
  - apply upto_iff in E. rewrite <- Zle_Qle in E. lia.
  - apply not_true_iff_false in E. rewrite upto_iff, <- Zle_Qle in E. lia.
Qed.

Section RankQuantiles.
(** A column [xs] that holds the ranks 1..n in some order. *)
Variable xs : list Q.
Variable n : nat.
Hypothesis xs_ranks : Permutation xs (rank_column n).

Lemma ranks_length : length xs = n.
Proof. rewrite (Permutation_length xs_ranks). apply rank_column_length. Qed.

(** Sorted, the column is 1, 2, ..., n. *)
Lemma sort_ranks (j : nat) :
  (j < n)%nat -> nth j (QSort.sort xs) 0%Q = inject_Z (Z.of_nat (S j)).
Proof.
  intros Hj.
  assert (Hl : (j < length (QSort.sort xs))%nat) by (rewrite sort_length, ranks_length; exact Hj).
  assert (Hin : In (nth j (QSort.sort xs) 0%Q) (rank_column n)).
  { apply (Permutation_in _ xs_ranks).
    apply (Permutation_in _ (Permutation_sym (sort_perm xs))).
    apply nth_In. exact Hl. }
  destruct (rank_column_In n _ Hin) as [m [Em Hm]].
  assert (P : Permutation (rank_column n) (QSort.sort xs)).
  { apply (Permutation_trans (Permutation_sym xs_ranks) (sort_perm xs)). }
  pose proof (sorted_prefix (below (inject_Z (Z.of_nat m))) (QSort.sort xs)
                (below_downward _) (sort_sorted xs) j Hl) as B.
  pose proof (sorted_prefix (upto (inject_Z (Z.of_nat m))) (QSort.sort xs)
                (upto_downward _) (sort_sorted xs) j Hl) as U.
  rewrite <- (count_perm _ _ _ P), count_below_ranks in B.
  rewrite <- (count_perm _ _ _ P), count_upto_ranks in U.
  rewrite Em in B, U. rewrite below_iff in B. rewrite upto_iff in U.
  assert (B' : ~ (j < Nat.min (m - 1) n)%nat).
  { intros C. apply B in C. lra. }
  assert (U' : (j < Nat.min m n)%nat).
  { apply U. apply Qle_refl. }
  rewrite Em. f_equal. f_equal. lia.
Qed.

(** The [k]-th of the five-quantile edges is [1 + k (n-1) / 5]. *)
Lemma quantile_ranks (k : nat) :
  (1 <= n)%nat -> (k <= 5)%nat ->
  (quantile (QSort.sort xs) 5 k == 1 + inject_Z (Z.of_nat (k * (n - 1))) / 5)%Q.
Proof.
  intros Hn Hk. unfold quantile. rewrite sort_length, ranks_length.
  set (pos := (k * (n - 1))%nat).
  assert (Hlo : (pos / 5 <= n - 1)%nat).
  { apply Nat.Div0.div_le_upper_bound. unfold pos. nia. }
  assert (Hdm : pos = (5 * (pos / 5) + pos mod 5)%nat) by (apply Nat.div_mod_eq).
  assert (Hr : (pos mod 5 < 5)%nat) by (apply Nat.mod_upper_bound; lia).
  set (lo := (pos / 5)%nat) in *. set (r := (pos mod 5)%nat) in *.
  rewrite (sort_ranks lo) by lia.
  rewrite (sort_ranks (Nat.min (lo + 1) (n - 1))) by lia.
  rewrite Hdm.
  destruct (Nat.le_gt_cases (lo + 1) (n - 1)) as [Hin | Hout].
  - rewrite Nat.min_l by exact Hin.
    replace (Z.of_nat (S (lo + 1))) with (Z.of_nat lo + 2)%Z by lia.
    replace (Z.of_nat (S lo)) with (Z.of_nat lo + 1)%Z by lia.
    replace (Z.of_nat (5 * lo + r)) with (5 * Z.of_nat lo + Z.of_nat r)%Z by lia.
    rewrite !inject_Z_plus, inject_Z_mult.
    change (inject_Z (Z.of_nat 5)) with 5%Q.
    change (inject_Z 5) with 5%Q. change (inject_Z 2) with 2%Q.
    change (inject_Z 1) with 1%Q. field.
  - rewrite Nat.min_r by lia.
    assert (E : lo = (n - 1)%nat) by lia.
    assert (R0 : r = 0%nat) by (unfold pos in Hdm; nia).
    rewrite R0, E.
    replace (Z.of_nat (S (n - 1))) with (Z.of_nat (n - 1) + 1)%Z by lia.
    replace (Z.of_nat (5 * (n - 1) + 0)) with (5 * Z.of_nat (n - 1))%Z by lia.
    rewrite !inject_Z_plus, inject_Z_mult.
    change (inject_Z (Z.of_nat 5)) with 5%Q. change (inject_Z (Z.of_nat 0)) with 0%Q.
    change (inject_Z 5) with 5%Q. change (inject_Z 1) with 1%Q. field.
Qed.

(** With two cells or more the edges increase strictly. *)
Lemma quantile_ranks_lt (k k' : nat) :
  (2 <= n)%nat -> (k < k')%nat -> (k' <= 5)%nat ->
  (quantile (QSort.sort xs) 5 k < quantile (QSort.sort xs) 5 k')%Q.
Proof.
  intros Hn Hk Hk'.
  rewrite (quantile_ranks k), (quantile_ranks k') by lia.
  assert (H : (inject_Z (Z.of_nat (k * (n - 1))) < inject_Z (Z.of_nat (k' * (n - 1))))%Q).
  { rewrite <- Zlt_Qlt. nia. }
  unfold Qdiv. change (/ 5)%Q with (1 # 5)%Q. lra.
Qed.

Lemma edges_ranks_sorted :
  (2 <= n)%nat -> StronglySorted Qlt (quantile_edges (QSort.sort xs) 5).
Proof.
  intros Hn. unfold quantile_edges. cbn [seq map].
  repeat (constructor; [| repeat (constructor; [apply quantile_ranks_lt; lia |]); constructor]).
  constructor.
Qed.

End RankQuantiles.

(** ** Edges without duplicates *)

Lemma unique_from_sorted (l : list Q) : forall seen,
  StronglySorted Qlt l ->
  (forall s y, In s seen -> In y l -> (s < y)%Q) ->
  unique_from seen l = l.
Proof.
  induction l as [| h t IH]; intros seen Hs Hseen; [reflexivity |].
  inversion Hs as [| ? ? Hs' Hall]; subst. simpl.
  assert (E : existsb (Qeq_bool h) seen = false).
  { apply not_true_iff_false. intros C. apply existsb_exists in C.
    destruct C as [s [Hin Heq]]. apply Qeq_bool_iff in Heq.
    specialize (Hseen s h Hin (or_introl eq_refl)). lra. }
  rewrite E. f_equal. apply IH; [exact Hs' |].
  rewrite Forall_forall in Hall.
  intros s y [<- | Hin] Hy; [apply Hall; exact Hy |].
  apply (Hseen s y Hin). right. exact Hy.
Qed.

Lemma unique_sorted (l : list Q) : StronglySorted Qlt l -> unique l = l.
Proof.
  intros H. apply unique_from_sorted; [exact H | intros s y []].
Qed.

(** With edges that are pairwise different, the cells are cut at them. *)
Lemma bins_to_cuts_sorted (x : list (option Q)) (bins : list Q) (labels : list Z) :
  StronglySorted Qlt bins -> length bins = S (length labels) ->
  bins_to_cuts x bins labels = Ok (map (cut1 bins labels) x).
Proof.
  intros Hs Hl. unfold bins_to_cuts. rewrite (unique_sorted bins Hs), Nat.ltb_irrefl.
  cbn [andb]. rewrite Hl. cbn [Nat.sub]. rewrite Nat.sub_0_r, Nat.eqb_refl. reflexivity.
Qed.

Lemma prefix_len_stop (p : nat -> bool) (k : nat) (l t : list nat) :
  p k = false -> (prefix_len p (l ++ k :: t) <= length l)%nat.
Proof.
  intros H. induction l as [| h l IH]; simpl; [rewrite H; lia |].
  destruct (p h); simpl; lia.
Qed.

Lemma level_le (n q c : nat) : (c <= n - 1)%nat -> (level n q c <= q)%nat.
Proof.
  intros H. unfold level. rewrite seq_S. cbn [Nat.add].
  apply (Nat.le_trans _ (length (seq 0 q))); [| rewrite length_seq; lia].
  apply prefix_len_stop. apply Nat.ltb_ge. nia.
Qed.

Lemma level_pos (n q c : nat) : (0 < q)%nat -> (0 < c)%nat -> (1 <= level n q c)%nat.
Proof.
  intros Hq Hc. unfold level. cbn [seq prefix_len].
  assert (E : (0 * (n - 1) <? q * c)%nat = true) by (apply Nat.ltb_lt; nia).
  rewrite E. lia.
Qed.

Lemma qcut_cells (x : list (option Q)) (q : nat) (labels : list Z) :
  dropna x <> [] ->
  qcut x q labels = bins_to_cuts x (quantile_edges (QSort.sort (dropna x)) q) labels.
Proof.
  intros Hne. unfold qcut.
  destruct (QSort.sort (dropna x)) as [| a0 a] eqn:Ea; [| reflexivity].
  exfalso. apply Hne. apply length_zero_iff_nil.
  rewrite <- sort_length, Ea. reflexivity.
Qed.

(** The scores of a column of ranks, with the labels 1 to 5. *)
Lemma qcut_ranks (rk : list Z) :
  Permutation rk (ranks_upto (length rk)) -> (2 <= length rk)%nat ->
  exists fs,
    qcut (map (fun z => Some (inject_Z z)) rk) 5 [1; 2; 3; 4; 5] = Ok (map Some fs) /\
    length fs = length rk /\
    Forall (fun s => 1 <= s <= 5) fs.
Proof.
  intros Hp Hn.
  set (xs := map inject_Z rk).
  assert (Hx : Permutation xs (rank_column (length rk))).
  { unfold xs, rank_column. apply Permutation_map. exact Hp. }
  set (edges := quantile_edges (QSort.sort xs) 5).
  exists (map (fun z => Z.of_nat (bucket edges (inject_Z z))) rk).
  assert (Hb : forall z, In z rk -> (1 <= bucket edges (inject_Z z) <= 5)%nat).
  { intros z Hz.
    assert (Hin : In (inject_Z z) xs) by (apply in_map; exact Hz).
    destruct (rank_column_In _ _ (Permutation_in _ Hx Hin)) as [m [Em Hm]].
    pose proof (bucket_level xs (inject_Z z) 5 Hin ltac:(lia)) as B. cbv zeta in B.
    fold edges in B. rewrite (ranks_length xs _ Hx) in B.
    rewrite Em in B at 2. rewrite (count_perm _ _ _ Hx), count_below_ranks in B.
    rewrite Nat.min_l in B by lia.
    pose proof (level_le (length rk) 5 (m - 1) ltac:(lia)) as L5.
    destruct (Nat.eq_dec m 1) as [-> | N1].
    - (* the lowest rank is the lowest edge *)
      unfold bucket.
      assert (E : Qeq_bool (inject_Z z) (hd 0%Q edges) = true).
      { apply Qeq_bool_iff. unfold edges. rewrite quantile_edges_hd.
        rewrite (quantile_ranks xs _ Hx 0) by lia. rewrite Em. reflexivity. }
      rewrite E. lia.
    - pose proof (level_pos (length rk) 5 (m - 1) ltac:(lia) ltac:(lia)) as L1.
      destruct B as [-> | [-> _]]; lia. }
  split; [| split].
  - rewrite qcut_cells; rewrite (dropna_Some inject_Z rk); fold xs.
    2:{ intros E. apply (f_equal (@length Q)) in E.
        unfold xs in E. rewrite length_map in E. simpl in E. lia. }
    fold edges.
    rewrite bins_to_cuts_sorted;
      [| apply (edges_ranks_sorted xs _ Hx Hn) | apply quantile_edges_length].
    f_equal. rewrite !map_map. apply map_ext_in. intros z Hz.
    specialize (Hb z Hz). unfold cut1.
    replace (length edges) with 6%nat by (symmetry; apply quantile_edges_length).
    destruct (Nat.eqb_spec (bucket edges (inject_Z z)) 6); [lia |].
    destruct (Nat.eqb_spec (bucket edges (inject_Z z)) 0); [lia |].
    cbn [orb].
    destruct (bucket edges (inject_Z z)) as [| [| [| [| [| [| b]]]]]]; try lia; reflexivity.
  - apply length_map.
  - apply Forall_forall. intros s Hs. apply in_map_iff in Hs.
    destruct Hs as [z [<- Hz]]. specialize (Hb z Hz). lia.
Qed.

(** ** The frequency score *)

(** The quantile edges of the frequency ranks (line 42). *)
Definition f_edges (rfm : list rfm_row) : list Q :=
  quantile_edges (QSort.sort (map inject_Z (rank_first (map frequency rfm)))) 5.

Lemma zip_scores_fs (rfm : list rfm_row) : forall rs fs ms,
  length rs = length rfm -> length fs = length rfm -> length ms = length rfm ->
  map (fun e : scored_row => snd (fst (snd e))) (zip_scores rfm rs fs ms) = fs.
Proof.
  induction rfm as [| y t IH]; intros rs fs ms H1 H2 H3.
  - destruct fs; [reflexivity | discriminate].
  - destruct rs as [| r0 rs]; [discriminate |].
    destruct fs as [| f0 fs]; [discriminate |].
    destruct ms as [| m0 ms]; [discriminate |].
    simpl in *. f_equal. apply IH; lia.
Qed.

(** The frequency scores of the profiles of a successful run are those of
    [f_scores]. *)
Lemma perform_f_scores (df : DataFrame) (ps : list profile) (fs : list (option Z)) :
  perform_rfm_analysis df = Ok ps -> f_scores (aggregate df) = Ok fs ->
  map f_score ps = fs.
Proof.
  intros H Hfs.
  destruct (perform_ok _ _ H) as [rs [fs' [ms [Hr [Hf [Hm [Hz _]]]]]]].
  rewrite Hfs in Hf. injection Hf as <-.
  destruct (qcut_ok_labels _ _ _ _ Hr) as [Lr _].
  destruct (qcut_ok_labels _ _ _ _ Hfs) as [Lf _].
  destruct (qcut_ok_labels _ _ _ _ Hm) as [Lm _].
  rewrite length_map in Lr, Lm.
  rewrite length_map, rank_first_length, length_map in Lf.
  rewrite <- (zip_scores_fs (aggregate df) rs fs ms Lr Lf Lm), <- Hz, map_map.
  reflexivity.
Qed.

(** * The scores in binary64

    pandas computes the quantile edges in float64, and the rounding decides
    which columns have two equal edges: on the recencies 0, 1, 2, 2, 3, 4 the
    fourth of the six edges is 2.0000000000000004 and no edge is dropped,
    where exact interpolation gives 2 twice.  This part embeds the edge
    computation in binary64 ([np.linspace], [Series.quantile], [np.percentile]
    with its [_lerp], as in pandas 2 with numpy 1.22 or later) and the
    analysis run on top of it.

    A binary64 number is the rational it stands for; an operation is the
    exact operation followed by rounding to the nearest number with a
    significand of 53 bits, ties to the even significand.  Overflow and
    subnormal numbers are left out: the exponent is not bounded. *)

Module Binary64.

(** Round half to even of a rational to an integer. *)
Definition rne (y : Q) : Z :=
  let q := Qfloor y in
  match (y - inject_Z q ?= 1 # 2)%Q with
  | Lt => q
  | Gt => q + 1
  | Eq => if Z.even q then q else q + 1
  end.

(** The exponent [e] of a positive rational: [2^e <= x < 2^(e+1)]. *)
Definition ilog2 (x : Q) : Z :=
  if Qle_bool 1 x then Z.log2 (Qfloor x)
  else - Z.log2_up (Qceiling (/ x)).

(** The nearest rational with a significand of 53 bits, for a positive
    rational. *)
Definition round_pos (x : Q) : Q :=
  let e := ilog2 x in
  (inject_Z (rne (x * 2 ^ (52 - e))) * 2 ^ (e - 52))%Q.

Definition rnd (x : Q) : Q :=
  Qred (match Qnum x with
        | Z0 => 0
        | Zpos _ => round_pos x
        | Zneg _ => - round_pos (- x)
        end)%Q.

Definition add (x y : Q) : Q := rnd (x + y).
Definition sub (x y : Q) : Q := rnd (x - y).
Definition mul (x y : Q) : Q := rnd (x * y).
Definition div (x y : Q) : Q := rnd (x / y).

(** A sum of binary64 numbers, added one after the other. *)
Definition sum (l : list Q) : Q := fold_left add l 0%Q.

End Binary64.


Module Numpy.
Import Binary64.

(** [np.linspace(0, 1, num)]: the points [i * step], with [step = 1 / (num - 1)],
    plus the start 0, the last one set to the stop 1. *)
Definition linspace (num : nat) : list Q :=
  let step := div 1 (inject_Z (Z.of_nat (num - 1))) in
  map (fun i => if (i =? num - 1)%nat then 1%Q
                else add (mul (inject_Z (Z.of_nat i)) step) 0)
      (seq 0 num).

(** [_lerp(a, b, t)]: [a + (b - a) * t], and [b - (b - a) * (1 - t)] where
    [t >= 0.5]. *)
Definition lerp (a b t : Q) : Q :=
  let diff_b_a := sub b a in
  if Qle_bool (1 # 2) t then sub b (mul diff_b_a (sub 1 t))
  else add a (mul diff_b_a t).

(** [_quantile(arr, quantiles, method='linear')] on the cells [arr] in
    ascending order, of which there is one at least.  The virtual index is
    [(n - 1) * quantile]; at or above [n - 1] both neighbours are the last
    cell (index -1), otherwise they are the cells at its floor and next to
    it; [gamma] is the virtual index less the previous index. *)
Definition quantile (arr : list Q) (quantile : Q) : Q :=
  let values_count := length arr in
  let virtual_index := mul (inject_Z (Z.of_nat (values_count - 1))) quantile in
  if Qle_bool (inject_Z (Z.of_nat (values_count - 1))) virtual_index then
    let last := nth (values_count - 1) arr 0%Q in
    lerp last last (sub virtual_index (-1))
  else
    let previous_index := Qfloor virtual_index in
    let previous := nth (Z.to_nat previous_index) arr 0%Q in
    let next := nth (Z.to_nat (previous_index + 1)) arr 0%Q in
    lerp previous next (sub virtual_index (inject_Z previous_index)).

(** [np.percentile(arr, q, method='linear')]. *)
Definition percentile (arr : list Q) (q : Q) : Q := quantile arr (div q 100).

End Numpy.

Module Pandas64.
Import Binary64 Pandas.

(** [Series.quantile(qs)] with linear interpolation: [np.percentile] at
    [qs * 100]. *)
Definition quantile (a : list Q) (qs : list Q) : list Q :=
  map (fun q => Numpy.percentile a (mul q 100)) qs.

(** [pd.qcut(x, q, labels=labels, duplicates='drop')] in binary64. *)
Definition qcut (x : list (option Q)) (q : nat) (labels : list Z)
  : result (list (option Z)) :=
  match QSort.sort (dropna x) with
  | [] =>
      let nbins := if (S q =? 2)%nat then 2%nat else 1%nat in
      if negb (length labels =? nbins - 1)%nat then Raise bin_labels_error
      else Ok (map (fun _ => None) x)
  | a => bins_to_cuts x (quantile a (Numpy.linspace (S q))) labels
  end.

End Pandas64.


(** ** The analysis with float64 columns *)

Module Analysis64.
Import Pandas Analysis.

Section Sum.

(** [Series.sum()] of the cells of one group that are not missing, in
    float64.  The order and the compensation of the additions are pandas'
    own; no property below depends on them. *)
Variable sum : list Q -> Q.

(** Lines 28-38. *)
Definition aggregate (df : DataFrame) : list rfm_row :=
  let max_date := series_max (map transaction_date df) in
  map (fun c =>
         let g := group df c in
         {| index := c;
            recency := recency_of max_date (map transaction_date g);
            frequency := series_count (map transaction_id g);
            monetary := sum (dropna (map total_amount g)) |})
      (group_keys (map customer_id df)).

(** Lines 41-43. *)
Definition r_scores (rfm : list rfm_row) : result (list (option Z)) :=
  Pandas64.qcut (map (fun r => to_Q (recency r)) rfm) 5 [5; 4; 3; 2; 1].

Definition f_scores (rfm : list rfm_row) : result (list (option Z)) :=
  Pandas64.qcut (map (fun z => Some (inject_Z z)) (rank_first (map frequency rfm)))
                5 [1; 2; 3; 4; 5].

Definition m_scores (rfm : list rfm_row) : result (list (option Z)) :=
  Pandas64.qcut (map (fun r => Some (monetary r)) rfm) 5 [1; 2; 3; 4; 5].

Definition perform_rfm_analysis (df : DataFrame) : result (list profile) :=
  let rfm := aggregate df in
  rs <- r_scores rfm ;;
  fs <- f_scores rfm ;;
  ms <- m_scores rfm ;;
  let scored := zip_scores rfm rs fs ms in
  segs <- mapM segment_of_row scored ;;
  risks <- mapM churn_of_row scored ;;
  Ok (map build_profile (combine scored (combine segs risks))).

End Sum.

End Analysis64.

(** Runs in binary64.  The first two columns have a pair of equal cells at
    an edge: float64 keeps six edges and the cells are scored. *)

Example linspace_six :
  Forall2 Qeq (Numpy.linspace 6)
    [0; 3602879701896397 # 18014398509481984; 3602879701896397 # 9007199254740992;
     1351079888211149 # 2251799813685248; 3602879701896397 # 4503599627370496; 1]%Q.
Proof. vm_compute. repeat constructor. Qed.

Example quantile_tied_recency :
  Forall2 Qeq (Pandas64.quantile [0; 1; 2; 2; 3; 4]%Q (Numpy.linspace 6))
    [0; 1; 2; 2 + (1 # 2251799813685248); 3; 4]%Q.
Proof. vm_compute. repeat constructor. Qed.

Example qcut_tied_recency :
  Pandas64.qcut (map Some [0; 1; 2; 2; 3; 4]%Q) 5 [5; 4; 3; 2; 1]
  = Ok [Some 5; Some 5; Some 4; Some 4; Some 2; Some 1] /\
  qcut (map Some [0; 1; 2; 2; 3; 4]%Q) 5 [5; 4; 3; 2; 1] = Raise bin_labels_error.
Proof. split; vm_compute; reflexivity. Qed.

Example qcut_tied_monetary :
  Pandas64.qcut (map Some [8; 24; 2; 5; 19; 8]%Q) 5 [1; 2; 3; 4; 5]
  = Ok [Some 2; Some 5; Some 1; Some 1; Some 4; Some 2].
Proof. vm_compute. reflexivity. Qed.

Example qcut_constant_column :
  Pandas64.qcut (map Some [10; 10; 10; 10; 10]%Q) 5 [1; 2; 3; 4; 5]
  = Raise bin_labels_error.
Proof. vm_compute. reflexivity. Qed.

Example sum_of_tenths :
  (Binary64.sum [Binary64.rnd (1 # 10); Binary64.rnd (2 # 10)]
   == 1351079888211149 # 4503599627370496)%Q /\
  ~ (Binary64.sum [Binary64.rnd (1 # 10); Binary64.rnd (2 # 10)]
     == Binary64.rnd (3 # 10))%Q.
Proof. split; vm_compute; [reflexivity | discriminate]. Qed.

(** ** Rounding to the nearest integer *)

Lemma rne_spec (y : Q) :
  (inject_Z (Binary64.rne y) - (1 # 2) <= y <= inject_Z (Binary64.rne y) + (1 # 2))%Q /\
  ((y == inject_Z (Binary64.rne y) + (1 # 2))%Q \/ (y == inject_Z (Binary64.rne y) - (1 # 2))%Q ->
   Z.even (Binary64.rne y) = true).
Proof.
  unfold Binary64.rne. pose proof (Qfloor_le y) as F1. pose proof (Qlt_floor y) as F2.
  rewrite inject_Z_plus in F2. change (inject_Z 1) with 1%Q in F2.
  set (q := Qfloor y) in *.
  destruct (y - inject_Z q ?= 1 # 2)%Q eqn:C.
  - apply Qeq_alt in C. destruct (Z.even q) eqn:E.
    + split; [lra |]. intros _. exact E.
    + rewrite inject_Z_plus. change (inject_Z 1) with 1%Q.
      split; [lra |]. intros _.
      rewrite Z.add_1_r, Z.even_succ, <- Z.negb_even, E. reflexivity.
  - apply Qlt_alt in C. split; [lra |]. intros [H | H]; exfalso; lra.
  - apply Qgt_alt in C. rewrite inject_Z_plus. change (inject_Z 1) with 1%Q.
    split; [lra |]. intros [H | H]; exfalso; lra.
Qed.

Lemma rne_mono (y1 y2 : Q) : (y1 <= y2)%Q -> Binary64.rne y1 <= Binary64.rne y2.
Proof.
  intros H.
  destruct (rne_spec y1) as [[L1 U1] T1]. destruct (rne_spec y2) as [[L2 U2] T2].
  destruct (Z_le_gt_dec (Binary64.rne y1) (Binary64.rne y2)) as [Hle | Hgt]; [exact Hle | exfalso].
  assert (G : (inject_Z (Binary64.rne y2) + 1 <= inject_Z (Binary64.rne y1))%Q).
  { change 1%Q with (inject_Z 1). rewrite <- inject_Z_plus, <- Zle_Qle. lia. }
  assert (E1 : Z.even (Binary64.rne y1) = true) by (apply T1; right; apply Qle_antisym; lra).
  assert (E2 : Z.even (Binary64.rne y2) = true) by (apply T2; left; apply Qle_antisym; lra).
  assert (G' : (inject_Z (Binary64.rne y1) <= inject_Z (Binary64.rne y2) + 1)%Q) by lra.
  change 1%Q with (inject_Z 1) in G'. rewrite <- inject_Z_plus in G'.
  rewrite <- Zle_Qle in G'.
  assert (E : Binary64.rne y1 = Z.succ (Binary64.rne y2)) by lia.
  rewrite E, Z.even_succ, <- Z.negb_even, E2 in E1. discriminate.
Qed.

Lemma rne_inject (y : Q) (z : Z) : (y == inject_Z z)%Q -> Binary64.rne y = z.
Proof.
  intros H. destruct (rne_spec y) as [[L U] _].
  assert (A : (inject_Z (Binary64.rne y) < inject_Z z + 1)%Q) by lra.
  assert (B : (inject_Z z < inject_Z (Binary64.rne y) + 1)%Q) by lra.
  change 1%Q with (inject_Z 1) in A, B. rewrite <- inject_Z_plus in A, B.
  rewrite <- Zlt_Qlt in A, B. lia.
Qed.

(** ** Powers of two and the exponent of a rational *)

Lemma pow2_pos (e : Z) : (0 < 2 ^ e)%Q.
Proof. apply Qpower_0_lt. reflexivity. Qed.

Lemma pow2_inject (k : Z) : 0 <= k -> (inject_Z (2 ^ k) == 2 ^ k)%Q.
Proof. intros H. apply (Zpower_Qpower 2 k H). Qed.

Lemma pow2_add (a b : Z) : (2 ^ (a + b) == 2 ^ a * 2 ^ b)%Q.
Proof. apply Qpower_plus. discriminate. Qed.

Lemma pow2_le (a b : Z) : a <= b -> (2 ^ a <= 2 ^ b)%Q.
Proof. intros H. apply Qpower_le_compat_l; [exact H | discriminate]. Qed.

Lemma pow2_lt_inv (a b : Z) : (2 ^ a < 2 ^ b)%Q -> a < b.
Proof. intros H. apply (Qpower_lt_compat_l_inv 2); [exact H | reflexivity]. Qed.

Lemma ilog2_spec (x : Q) :
  (0 < x)%Q -> (2 ^ Binary64.ilog2 x <= x < 2 ^ (Binary64.ilog2 x + 1))%Q.
Proof.
  intros Hx. unfold Binary64.ilog2. destruct (Qle_bool 1 x) eqn:C.
  - apply Qle_bool_iff in C.
    pose proof (Qfloor_resp_le 1 x C) as F. change (Qfloor 1) with 1 in F.
    pose proof (Z.log2_spec (Qfloor x) ltac:(lia)) as [S1 S2].
    pose proof (Z.log2_nonneg (Qfloor x)) as N.
    pose proof (Qfloor_le x) as F1. pose proof (Qlt_floor x) as F2.
    split.
    + rewrite <- pow2_inject by exact N.
      apply Qle_trans with (inject_Z (Qfloor x)); [| exact F1].
      rewrite <- Zle_Qle. exact S1.
    + rewrite <- pow2_inject by lia.
      apply Qlt_le_trans with (inject_Z (Qfloor x + 1)); [exact F2 |].
      rewrite <- Zle_Qle. lia.
  - assert (Hx1 : (x < 1)%Q).
    { apply Qnot_le_lt. intros H. apply Qle_bool_iff in H. rewrite H in C. discriminate. }
    assert (Hy : (1 < / x)%Q).
    { apply (Qinv_lt_contravar x 1 Hx); [reflexivity | exact Hx1]. }
    assert (Hxy : (x * / x == 1)%Q).
    { apply Qmult_inv_r. intros E. rewrite E in Hx. discriminate. }
    set (y := (/ x)%Q) in *.
    pose proof (Qle_ceiling y) as C1. pose proof (Qceiling_lt y) as C2.
    set (c := Qceiling y) in *.
    assert (Hc : 1 < c).
    { rewrite Zlt_Qlt. apply Qlt_le_trans with y; [exact Hy | exact C1]. }
    pose proof (Z.log2_up_spec c Hc) as [S1 S2].
    pose proof (Z.log2_up_pos c Hc) as N.
    set (u := Z.log2_up c) in *.
    split.
    + rewrite Qpower_opp. apply Qle_shift_inv_r; [apply pow2_pos |].
      rewrite <- pow2_inject by lia.
      rewrite Zle_Qle in S2.
      assert (P : (y <= inject_Z (2 ^ u))%Q) by (apply Qle_trans with (inject_Z c); assumption).
      nra.
    + replace (- u + 1) with (- (u - 1)) by lia.
      rewrite Qpower_opp. apply Qlt_shift_inv_l; [apply pow2_pos |].
      rewrite <- pow2_inject by lia.
      assert (S1' : 2 ^ (u - 1) <= c - 1).
      { replace (u - 1) with (Z.pred u) by lia. lia. }
      rewrite Zle_Qle in S1'.
      assert (P : (inject_Z (2 ^ (u - 1)) < y)%Q)
        by (apply Qle_lt_trans with (inject_Z (c - 1)); assumption).
      nra.
Qed.

Lemma pow2_split (a b c : Z) : a = b + c -> (2 ^ a == 2 ^ b * 2 ^ c)%Q.
Proof. intros ->. apply pow2_add. Qed.

(** ** Rounding to 53 bits *)

Lemma scaled_bracket (x : Q) :
  (0 < x)%Q ->
  (inject_Z (2 ^ 52) <= x * 2 ^ (52 - Binary64.ilog2 x) < inject_Z (2 ^ 53))%Q.
Proof.
  intros Hx. destruct (ilog2_spec x Hx) as [L U].
  pose proof (pow2_pos (52 - Binary64.ilog2 x)) as P.
  rewrite !pow2_inject by lia.
  rewrite (pow2_split 52 (Binary64.ilog2 x) (52 - Binary64.ilog2 x)) by lia.
  rewrite (pow2_split 53 (Binary64.ilog2 x + 1) (52 - Binary64.ilog2 x)) by lia.
  split.
  - apply Qmult_le_compat_r; [exact L | apply Qlt_le_weak; exact P].
  - apply Qmult_lt_r; [exact P | exact U].
Qed.

Lemma rne_scaled (x : Q) :
  (0 < x)%Q -> 2 ^ 52 <= Binary64.rne (x * 2 ^ (52 - Binary64.ilog2 x)) <= 2 ^ 53.
Proof.
  intros Hx. destruct (scaled_bracket x Hx) as [L U].
  pose proof (rne_inject (inject_Z (2 ^ 52)) (2 ^ 52) (Qeq_refl _)) as E52.
  pose proof (rne_inject (inject_Z (2 ^ 53)) (2 ^ 53) (Qeq_refl _)) as E53.
  pose proof (rne_mono _ _ L) as L'.
  pose proof (rne_mono _ _ (Qlt_le_weak _ _ U)) as U'.
  rewrite E52 in L'. rewrite E53 in U'. split; assumption.
Qed.

Lemma round_pos_bracket (x : Q) :
  (0 < x)%Q -> (2 ^ Binary64.ilog2 x <= Binary64.round_pos x <= 2 ^ (Binary64.ilog2 x + 1))%Q.
Proof.
  intros Hx. destruct (rne_scaled x Hx) as [L U]. unfold Binary64.round_pos.
  rewrite Zle_Qle in L, U. rewrite !pow2_inject in L, U by lia.
  pose proof (pow2_pos (Binary64.ilog2 x - 52)) as P.
  rewrite (pow2_split (Binary64.ilog2 x) 52 (Binary64.ilog2 x - 52)) at 1 by lia.
  rewrite (pow2_split (Binary64.ilog2 x + 1) 53 (Binary64.ilog2 x - 52)) by lia.
  split; apply Qmult_le_compat_r; try assumption; apply Qlt_le_weak; exact P.
Qed.

Lemma ilog2_mono (x y : Q) : (0 < x)%Q -> (x <= y)%Q -> Binary64.ilog2 x <= Binary64.ilog2 y.
Proof.
  intros Hx Hxy.
  assert (Hy : (0 < y)%Q) by (apply Qlt_le_trans with x; assumption).
  destruct (ilog2_spec x Hx) as [L _]. destruct (ilog2_spec y Hy) as [_ U].
  assert (H : (2 ^ Binary64.ilog2 x < 2 ^ (Binary64.ilog2 y + 1))%Q).
  { apply Qle_lt_trans with x; [exact L |]. apply Qle_lt_trans with y; assumption. }
  apply pow2_lt_inv in H. lia.
Qed.

Lemma round_pos_mono (x y : Q) :
  (0 < x)%Q -> (x <= y)%Q -> (Binary64.round_pos x <= Binary64.round_pos y)%Q.
Proof.
  intros Hx Hxy.
  assert (Hy : (0 < y)%Q) by (apply Qlt_le_trans with x; assumption).
  pose proof (ilog2_mono x y Hx Hxy) as He.
  destruct (Z.eq_dec (Binary64.ilog2 x) (Binary64.ilog2 y)) as [E | N].
  - unfold Binary64.round_pos. rewrite E.
    apply Qmult_le_compat_r; [| apply Qlt_le_weak; apply pow2_pos].
    rewrite <- Zle_Qle. apply rne_mono.
    apply Qmult_le_compat_r; [exact Hxy | apply Qlt_le_weak; apply pow2_pos].
  - destruct (round_pos_bracket x Hx) as [_ U].
    destruct (round_pos_bracket y Hy) as [L _].
    apply Qle_trans with (2 ^ (Binary64.ilog2 x + 1))%Q; [exact U |].
    apply Qle_trans with (2 ^ Binary64.ilog2 y)%Q; [| exact L].
    apply pow2_le. lia.
Qed.

Lemma round_pos_exact (x : Q) (z s : Z) :
  (0 < x)%Q -> (x == inject_Z z * 2 ^ s)%Q -> z < 2 ^ 53 ->
  (Binary64.round_pos x == x)%Q.
Proof.
  intros Hx E Hz. destruct (ilog2_spec x Hx) as [L _]. unfold Binary64.round_pos.
  remember (Binary64.ilog2 x) as e eqn:Ee. clear Ee.
  assert (He : e < 53 + s).
  { apply pow2_lt_inv. apply Qle_lt_trans with x; [exact L |].
    rewrite E, (pow2_split (53 + s) 53 s) by lia.
    apply Qmult_lt_r; [apply pow2_pos |].
    rewrite <- pow2_inject by lia. rewrite <- Zlt_Qlt. exact Hz. }
  set (k := s + 52 - e).
  assert (R : Binary64.rne (x * 2 ^ (52 - e)) = z * 2 ^ k).
  { apply rne_inject. rewrite inject_Z_mult, pow2_inject by (unfold k; lia).
    rewrite E, (pow2_split k s (52 - e)) by (unfold k; lia). ring. }
  rewrite R, inject_Z_mult, pow2_inject by (unfold k; lia).
  rewrite E, (pow2_split s k (e - 52)) by (unfold k; lia). ring.
Qed.

Lemma rnd_zero (x : Q) : (x == 0)%Q -> (Binary64.rnd x == 0)%Q.
Proof.
  intros H. unfold Binary64.rnd. rewrite Qred_correct.
  destruct x as [n d]. unfold Qeq in H. simpl in H.
  assert (n = 0) by lia. subst n. reflexivity.
Qed.

Lemma rnd_positive (x : Q) : (0 < x)%Q -> (Binary64.rnd x == Binary64.round_pos x)%Q.
Proof.
  intros H. unfold Binary64.rnd. rewrite Qred_correct.
  destruct x as [n d]. unfold Qlt in H. simpl in H.
  destruct n; try lia. reflexivity.
Qed.

Lemma rnd_negative (x : Q) : (x < 0)%Q -> (Binary64.rnd x == - Binary64.round_pos (- x))%Q.
Proof.
  intros H. unfold Binary64.rnd. rewrite Qred_correct.
  destruct x as [n d]. unfold Qlt in H. simpl in H.
  destruct n; try lia. reflexivity.
Qed.

Lemma round_pos_positive (x : Q) : (0 < x)%Q -> (0 < Binary64.round_pos x)%Q.
Proof.
  intros H. destruct (round_pos_bracket x H) as [L _].
  apply Qlt_le_trans with (2 ^ Binary64.ilog2 x)%Q; [apply pow2_pos | exact L].
Qed.

(** Rounding keeps the order. *)
Lemma rnd_mono (x y : Q) : (x <= y)%Q -> (Binary64.rnd x <= Binary64.rnd y)%Q.
Proof.
  intros H.
  destruct (Q_dec 0 x) as [[Px | Nx] | Zx], (Q_dec 0 y) as [[Py | Ny] | Zy].
  - rewrite (rnd_positive x Px), (rnd_positive y Py). apply round_pos_mono; assumption.
  - lra.
  - lra.
  - rewrite (rnd_negative x Nx), (rnd_positive y Py).
    pose proof (round_pos_positive y Py).
    assert (Px' : (0 < - x)%Q) by lra. pose proof (round_pos_positive (- x) Px'). lra.
  - rewrite (rnd_negative x Nx), (rnd_negative y Ny).
    assert (Py' : (0 < - y)%Q) by lra.
    assert (H' : (- y <= - x)%Q) by lra.
    pose proof (round_pos_mono (- y) (- x) Py' H'). lra.
  - rewrite (rnd_negative x Nx), (rnd_zero y (Qeq_sym _ _ Zy)).
    assert (Px' : (0 < - x)%Q) by lra. pose proof (round_pos_positive (- x) Px'). lra.
  - rewrite (rnd_zero x (Qeq_sym _ _ Zx)), (rnd_positive y Py).
    pose proof (round_pos_positive y Py). lra.
  - lra.
  - rewrite (rnd_zero x (Qeq_sym _ _ Zx)), (rnd_zero y (Qeq_sym _ _ Zy)). lra.
Qed.

(** A rational with a significand below [2^53] is a binary64 number. *)
Lemma rnd_exact (x : Q) (z s : Z) :
  (x == inject_Z z * 2 ^ s)%Q -> Z.abs z < 2 ^ 53 -> (Binary64.rnd x == x)%Q.
Proof.
  intros E Hz. pose proof (pow2_pos s) as P.
  destruct (Z.lt_trichotomy z 0) as [N | [Z0 | Pz]].
  - assert (Hx : (x < 0)%Q).
    { rewrite E. rewrite Zlt_Qlt in N. change (inject_Z 0) with 0%Q in N. nra. }
    rewrite (rnd_negative x Hx).
    assert (Hx' : (0 < - x)%Q) by lra.
    rewrite (round_pos_exact (- x) (- z) s Hx'); [ring | | lia].
    rewrite E, inject_Z_opp. ring.
  - subst z.
    assert (Hx : (x == 0)%Q) by (rewrite E; change (inject_Z 0) with 0%Q; ring).
    rewrite (rnd_zero x Hx), Hx. reflexivity.
  - assert (Hx : (0 < x)%Q).
    { rewrite E. rewrite Zlt_Qlt in Pz. change (inject_Z 0) with 0%Q in Pz. nra. }
    rewrite (rnd_positive x Hx). apply (round_pos_exact x z s Hx E). lia.
Qed.

(** [x] is a binary64 number. *)
Definition representable (x : Q) : Prop := (Binary64.rnd x == x)%Q.

Lemma rnd_between (lo hi x : Q) :
  representable lo -> representable hi -> (lo <= x <= hi)%Q ->
  (lo <= Binary64.rnd x <= hi)%Q.
Proof.
  unfold representable. intros Hlo Hhi [L U].
  pose proof (rnd_mono lo x L). pose proof (rnd_mono x hi U). lra.
Qed.

Lemma representable_eighths (z : Z) :
  Z.abs z < 2 ^ 53 -> representable (z # 8).
Proof.
  intros H. apply (rnd_exact (z # 8) z (-3)); [| exact H].
  change (2 ^ (-3))%Q with (1 # 8)%Q. unfold Qeq. simpl. lia.
Qed.

Lemma rnd_proper (x y : Q) : (x == y)%Q -> (Binary64.rnd x == Binary64.rnd y)%Q.
Proof.
  intros H. apply Qle_antisym; apply rnd_mono; rewrite H; apply Qle_refl.
Qed.

#[global] Instance rnd_Proper : Proper (Qeq ==> Qeq) Binary64.rnd.
Proof. intros x y H. apply rnd_proper. exact H. Qed.

Lemma representable_proper (x y : Q) :
  (x == y)%Q -> representable x -> representable y.
Proof.
  unfold representable. intros E H. rewrite <- (rnd_proper x y E), H. exact E.
Qed.

Lemma representable_int (z : Z) : Z.abs z < 2 ^ 53 -> representable (inject_Z z).
Proof.
  intros H. apply (rnd_exact (inject_Z z) z 0); [| exact H].
  change (2 ^ 0)%Q with 1%Q. ring.
Qed.

Lemma over8 (z : Z) : (z # 8 == inject_Z z * (1 # 8))%Q.
Proof. unfold Qeq. simpl. lia. Qed.

Lemma representable_over8 (x : Q) (z : Z) :
  (x == inject_Z z * (1 # 8))%Q -> Z.abs z < 2 ^ 53 -> representable x.
Proof.
  intros E H. apply (representable_proper (z # 8)).
  - rewrite E. apply over8.
  - apply representable_eighths. exact H.
Qed.

(** ** The interpolation between two whole numbers *)

Lemma lerp_bracket (A B g : Q) (zA zB : Z) :
  (A == inject_Z zA)%Q -> (B == inject_Z zB)%Q -> zA <= zB ->
  Z.abs zA <= 2 ^ 48 -> Z.abs zB <= 2 ^ 48 ->
  (0 <= g <= 7 # 8)%Q ->
  (A <= Numpy.lerp A B g)%Q /\
  (zA < zB -> (Numpy.lerp A B g < B)%Q) /\
  (zA = zB -> (Numpy.lerp A B g == A)%Q).
Proof.
  intros EA EB Hle HA HB [G0 G1].
  assert (P48 : 2 ^ 48 = 281474976710656) by reflexivity.
  assert (P53 : 2 ^ 53 = 9007199254740992) by reflexivity.
  rewrite P48 in HA, HB.
  set (a := inject_Z zA) in *. set (b := inject_Z zB) in *.
  assert (Hab : (a <= b)%Q) by (unfold a, b; rewrite <- Zle_Qle; exact Hle).
  assert (Hlt : zA < zB -> (a + 1 <= b)%Q).
  { intros H. unfold a, b. change 1%Q with (inject_Z 1).
    rewrite <- inject_Z_plus, <- Zle_Qle. lia. }
  assert (Heq : zA = zB -> (a == b)%Q) by (intros ->; reflexivity).
  (* the difference is exact *)
  assert (RD : representable (B - A)).
  { apply (representable_proper (inject_Z (zB - zA))).
    - rewrite EA, EB. unfold a, b, Zminus. rewrite inject_Z_plus, inject_Z_opp. ring.
    - apply representable_int. rewrite P53. lia. }
  unfold representable in RD.
  assert (R0 : representable 0) by (apply (representable_int 0); reflexivity).
  assert (Rhalf : representable ((b - a) * (1 # 2))).
  { apply (representable_over8 _ (4 * (zB - zA))); [| rewrite P53; lia].
    unfold a, b, Zminus. rewrite inject_Z_mult, inject_Z_plus, inject_Z_opp.
    change (inject_Z 4) with 4%Q. ring. }
  assert (Rmid : representable ((a + b) * (1 # 2))).
  { apply (representable_over8 _ (4 * (zA + zB))); [| rewrite P53; lia].
    unfold a, b. rewrite inject_Z_mult, inject_Z_plus.
    change (inject_Z 4) with 4%Q. ring. }
  assert (RA : representable a) by (apply representable_int; rewrite P53; lia).
  unfold Numpy.lerp, Binary64.sub, Binary64.add, Binary64.mul.
  set (D := Binary64.rnd (B - A)) in *.
  assert (ED : (D == b - a)%Q) by (rewrite RD, EA, EB; reflexivity).
  destruct (Qle_bool (1 # 2) g) eqn:C.
  - apply Qle_bool_iff in C.
    assert (R8 : representable (1 # 8))
      by (apply (representable_over8 _ 1); [reflexivity | reflexivity]).
    assert (R2 : representable (1 # 2))
      by (apply (representable_over8 _ 4); [reflexivity | reflexivity]).
    pose proof (rnd_between (1 # 8) (1 # 2) (1 - g) R8 R2 ltac:(lra)) as T2.
    set (t2 := Binary64.rnd (1 - g)) in *.
    assert (Reighth : representable ((b - a) * (1 # 8))).
    { apply (representable_over8 _ (zB - zA)); [| rewrite P53; lia].
      unfold a, b, Zminus. rewrite inject_Z_plus, inject_Z_opp. ring. }
    assert (B3 : ((b - a) * (1 # 8) <= D * t2 <= (b - a) * (1 # 2))%Q) by nra.
    pose proof (rnd_between _ _ (D * t2) Reighth Rhalf B3) as T3.
    set (t3 := Binary64.rnd (D * t2)) in *.
    assert (Rhi : representable (b - (b - a) * (1 # 8))).
    { apply (representable_over8 _ (7 * zB + zA)); [| rewrite P53; lia].
      unfold a, b. rewrite inject_Z_plus, inject_Z_mult.
      change (inject_Z 7) with 7%Q. ring. }
    assert (B4 : ((a + b) * (1 # 2) <= B - t3 <= b - (b - a) * (1 # 8))%Q)
      by (rewrite EB; lra).
    pose proof (rnd_between _ _ (B - t3) Rmid Rhi B4) as T4.
    set (E := Binary64.rnd (B - t3)) in *.
    split; [rewrite EA; lra |]. split.
    + intros H. specialize (Hlt H). rewrite EB. lra.
    + intros H. specialize (Heq H). rewrite EA. lra.
  - assert (C' : (g < 1 # 2)%Q).
    { apply Qnot_le_lt. intros H. apply Qle_bool_iff in H. rewrite H in C. discriminate. }
    assert (B1 : (0 <= D * g <= (b - a) * (1 # 2))%Q) by nra.
    pose proof (rnd_between _ _ (D * g) R0 Rhalf B1) as T1.
    set (t1 := Binary64.rnd (D * g)) in *.
    assert (B2 : (a <= A + t1 <= (a + b) * (1 # 2))%Q) by (rewrite EA; lra).
    pose proof (rnd_between _ _ (A + t1) RA Rmid B2) as T2.
    set (E := Binary64.rnd (A + t1)) in *.
    split; [rewrite EA; lra |]. split.
    + intros H. specialize (Hlt H). rewrite EB. lra.
    + intros H. specialize (Heq H). rewrite EA. lra.
Qed.

(** ** The edges of a column of whole numbers *)

(** A cell that holds a whole number of moderate size, as a number of days
    does. *)
Definition int_cell (v : Q) : Prop :=
  exists z : Z, v = inject_Z z /\ Z.abs z <= 2 ^ 48.

(** [E] lies between the cells [j] and [j + 1] of the sorted column [a], on
    the side of the cell [j]: it separates the cells of the column as the
    cell [j] does. *)
Definition bracketed (a : list Q) (j : nat) (E : Q) : Prop :=
  (nth j a 0 <= E)%Q /\
  ((nth j a 0 < nth (S j) a 0)%Q -> (E < nth (S j) a 0)%Q) /\
  ((nth (S j) a 0 <= nth j a 0)%Q -> (E == nth j a 0)%Q).

Lemma Qfloor_between (x : Q) (z : Z) :
  (inject_Z z <= x)%Q -> (x < inject_Z z + 1)%Q -> Qfloor x = z.
Proof.
  intros L U.
  pose proof (Qfloor_le x) as F1. pose proof (Qlt_floor x) as F2.
  rewrite inject_Z_plus in F2. change (inject_Z 1) with 1%Q in F2.
  assert (A : (inject_Z z < inject_Z (Qfloor x) + 1)%Q) by lra.
  assert (B : (inject_Z (Qfloor x) < inject_Z z + 1)%Q) by lra.
  change 1%Q with (inject_Z 1) in A, B. rewrite <- inject_Z_plus in A, B.
  rewrite <- Zlt_Qlt in A, B. lia.
Qed.

Lemma int_cell_nth (a : list Q) (i : nat) :
  Forall int_cell a -> (i < length a)%nat -> int_cell (nth i a 0%Q).
Proof.
  intros H Hi. rewrite Forall_forall in H. apply H. apply nth_In. exact Hi.
Qed.

Lemma quantile_bracket (a : list Q) (k : nat) (qv : Q) :
  StronglySorted Qle a -> Forall int_cell a ->
  (2 <= length a)%nat -> Z.of_nat (length a) <= 2 ^ 40 -> (k <= 4)%nat ->
  (inject_Z (Z.of_nat k) * (1 # 5) <= qv
   <= inject_Z (Z.of_nat k) * (1 # 5) + (1 # 9007199254740992))%Q ->
  bracketed a (k * (length a - 1) / 5) (Numpy.quantile a qv).
Proof.
  intros Hs Hc Hn2 Hn40 Hk [Q1 Q2].
  assert (P40 : 2 ^ 40 = 1099511627776) by reflexivity.
  assert (P53 : 2 ^ 53 = 9007199254740992) by reflexivity.
  rewrite P40 in Hn40.
  set (n := length a) in *.
  set (j := (k * (n - 1) / 5)%nat).
  pose proof (Nat.div_mod_eq (k * (n - 1)) 5) as Hdm. fold j in Hdm.
  pose proof (Nat.mod_upper_bound (k * (n - 1)) 5 ltac:(lia)) as Hf.
  set (f := ((k * (n - 1)) mod 5)%nat) in *.
  assert (Hj : (S j <= n - 1)%nat) by nia.
  set (N1 := inject_Z (Z.of_nat (n - 1))).
  set (K := inject_Z (Z.of_nat k)) in *.
  set (J := inject_Z (Z.of_nat j)).
  set (F := inject_Z (Z.of_nat f)).
  assert (HN1 : (1 <= N1 <= 1099511627776)%Q).
  { unfold N1. change 1%Q with (inject_Z 1).
    change 1099511627776%Q with (inject_Z 1099511627776).
    rewrite <- !Zle_Qle. lia. }
  assert (KN : (K * N1 == 5 * J + F)%Q).
  { unfold K, N1, J, F. change 5%Q with (inject_Z 5).
    rewrite <- !inject_Z_mult, <- inject_Z_plus. apply inject_Z_injective. lia. }
  assert (HF : (0 <= F <= 4)%Q).
  { unfold F. change 0%Q with (inject_Z 0). change 4%Q with (inject_Z 4).
    rewrite <- !Zle_Qle. lia. }
  assert (HJ : (0 <= J)%Q).
  { unfold J. change 0%Q with (inject_Z 0). rewrite <- Zle_Qle. lia. }
  assert (Hp : (J <= N1 * qv <= J + (7 # 8))%Q).
  { assert (X1 : (0 <= N1 * (qv - K * (1 # 5)))%Q)
      by (apply Qmult_le_0_compat; lra).
    assert (X2 : (0 <= N1 * (K * (1 # 5) + (1 # 9007199254740992) - qv))%Q)
      by (apply Qmult_le_0_compat; lra).
    split; nra. }
  assert (RJ : representable J).
  { unfold J. apply representable_int. rewrite P53. lia. }
  assert (RJ7 : representable (J + (7 # 8))).
  { apply (representable_over8 _ (8 * Z.of_nat j + 7)); [| rewrite P53; lia].
    unfold J. rewrite inject_Z_plus, inject_Z_mult.
    change (inject_Z 8) with 8%Q. change (inject_Z 7) with 7%Q. ring. }
  pose proof (rnd_between _ _ (N1 * qv) RJ RJ7 Hp) as Hvi.
  unfold Numpy.quantile, Binary64.mul, Binary64.sub. fold n. fold N1.
  set (vi := Binary64.rnd (N1 * qv)) in *.
  assert (HJN : (J + 1 <= N1)%Q).
  { unfold J, N1. change 1%Q with (inject_Z 1).
    rewrite <- inject_Z_plus, <- Zle_Qle. lia. }
  assert (Above : Qle_bool N1 vi = false).
  { apply not_true_iff_false. rewrite Qle_bool_iff. lra. }
  rewrite Above.
  assert (Hfl : Qfloor vi = Z.of_nat j) by (apply Qfloor_between; fold J; lra).
  rewrite Hfl, Nat2Z.id.
  replace (Z.to_nat (Z.of_nat j + 1)) with (S j) by lia. fold J.
  assert (R0 : representable 0) by (apply (representable_int 0); reflexivity).
  assert (R78 : representable (7 # 8))
    by (apply (representable_over8 _ 7); [reflexivity | reflexivity]).
  pose proof (rnd_between 0 (7 # 8) (vi - J) R0 R78 ltac:(lra)) as Hg.
  set (g := Binary64.rnd (vi - J)) in *.
  destruct (int_cell_nth a j Hc ltac:(unfold n in *; lia)) as [zA [EA HA]].
  destruct (int_cell_nth a (S j) Hc ltac:(unfold n in *; lia)) as [zB [EB HB]].
  pose proof (sorted_nth_le a Hs j (S j) ltac:(lia) ltac:(unfold n in *; lia)) as HAB.
  rewrite EA, EB in HAB. rewrite <- Zle_Qle in HAB.
  destruct (lerp_bracket (nth j a 0%Q) (nth (S j) a 0%Q) g zA zB
              ltac:(rewrite EA; reflexivity) ltac:(rewrite EB; reflexivity)
              HAB HA HB Hg) as [B1 [B2 B3]].
  split; [exact B1 |]. split.
  - intros H. apply B2. rewrite EA, EB in H. rewrite <- Zlt_Qlt in H. exact H.
  - intros H. apply B3. rewrite EA, EB in H. rewrite <- Zle_Qle in H. lia.
Qed.
(** ** The score of a cell in closed form *)

(** The bucket, among five, of a cell with [c] cells strictly below it in a
    column of [n] cells. *)
Definition quintile (n c : nat) : nat := Nat.max 1 (level n 5 c).

(** [quintile n c] is the least [s >= 1] with [5 c <= s (n - 1)]. *)
Lemma quintile_spec (n c : nat) :
  (c <= n - 1)%nat ->
  (1 <= quintile n c <= 5)%nat /\
  (5 * c <= quintile n c * (n - 1))%nat /\
  (2 <= quintile n c -> (quintile n c - 1) * (n - 1) < 5 * c)%nat.
Proof.
  intros Hc. unfold quintile, level. cbn [seq prefix_len].
  repeat match goal with
         | |- context [(?a <? ?b)%nat] => destruct (Nat.ltb_spec a b)
         end; cbn [Nat.max]; lia.
Qed.

Lemma quintile_mono (n c c' : nat) : (c <= c')%nat -> (quintile n c <= quintile n c')%nat.
Proof.
  intros H. unfold quintile. pose proof (level_mono n 5 c' c H). lia.
Qed.

Lemma quantile_first (a : list Q) (q : nat) : (quantile a q 0 == nth 0 a 0)%Q.
Proof.
  unfold quantile. cbn [Nat.mul]. rewrite Nat.Div0.div_0_l, Nat.Div0.mod_0_l.
  cbn [Z.of_nat]. unfold Qdiv. rewrite Qmult_0_l, Qmult_0_l, Qplus_0_r. reflexivity.
Qed.

(** The bucket of a cell of a column, among the five-quantile edges of the
    column. *)
Lemma bucket_closed (xs : list Q) (v : Q) :
  In v xs ->
  bucket (quantile_edges (QSort.sort xs) 5) v
  = quintile (length xs) (count (below v) xs).
Proof.
  intros Hin. unfold quintile.
  pose proof (bucket_level xs v 5 Hin ltac:(lia)) as B. cbv zeta in B.
  destruct B as [B | [B L]]; [| rewrite B, L; reflexivity].
  rewrite B.
  destruct (level (length xs) 5 (count (below v) xs)) as [| l] eqn:El; [| lia].
  (* no cell is below [v]: it is the lowest edge *)
  exfalso.
  assert (C0 : count (below v) xs = 0%nat).
  { destruct (count (below v) xs) as [| c] eqn:Ec; [reflexivity |].
    pose proof (level_pos (length xs) 5 (S c) ltac:(lia) ltac:(lia)). lia. }
  pose proof (nth_count_below xs v Hin) as N. rewrite C0 in N.
  unfold bucket in B.
  assert (E : Qeq_bool v (hd 0%Q (quantile_edges (QSort.sort xs) 5)) = true).
  { apply Qeq_bool_iff. rewrite quantile_edges_hd, quantile_first, N. reflexivity. }
  rewrite E in B. try rewrite El in B. discriminate.
Qed.

Lemma bucket_bounds (xs : list Q) (v : Q) :
  In v xs -> (1 <= quintile (length xs) (count (below v) xs) <= 5)%nat.
Proof.
  intros Hin. apply quintile_spec.
  pose proof (count_below_lt xs v Hin). lia.
Qed.


(** The recency of a row in days (0 for a row without recency). *)
Definition row_days (x : rfm_row) : Z :=
  match recency x with Some d => d | None => 0 end.


Lemma count_map {A : Type} (p : Q -> bool) (f : A -> Q) (l : list A) :
  count p (map f l) = length (filter (fun a => p (f a)) l).
Proof. unfold count. rewrite filter_map_comm, length_map. reflexivity. Qed.

Lemma nth_error_ascending (s : nat) :
  (1 <= s <= 5)%nat -> nth_error [1; 2; 3; 4; 5] (s - 1) = Some (Z.of_nat s).
Proof.
  intros H. destruct s as [| [| [| [| [| [| s]]]]]]; try lia; reflexivity.
Qed.

Lemma nth_error_descending (s : nat) :
  (1 <= s <= 5)%nat -> nth_error [5; 4; 3; 2; 1] (s - 1) = Some (6 - Z.of_nat s).
Proof.
  intros H. destruct s as [| [| [| [| [| [| s]]]]]]; try lia; reflexivity.
Qed.


Lemma filter_length_mono {A : Type} (p p' : A -> bool) (l : list A) :
  (forall a, p' a = true -> p a = true) ->
  (length (filter p' l) <= length (filter p l))%nat.
Proof.
  intros H. induction l as [| a t IH]; cbn [filter]; [lia |].
  destruct (p' a) eqn:E; [rewrite (H a E); cbn [length]; lia |].
  destruct (p a); cbn [length]; lia.
Qed.


Lemma unique_from_distinct (l : list Q) : forall seen,
  length (unique_from seen l) = length l ->
  (forall y s, In y l -> In s seen -> ~ (y == s)%Q) /\
  (forall i j, (i < j)%nat -> (j < length l)%nat -> ~ (nth i l 0 == nth j l 0)%Q).
Proof.
  induction l as [| h t IH]; intros seen H.
  - split; [intros y s [] | intros i j _ Hj; simpl in Hj; lia].
  - simpl in H. destruct (existsb (Qeq_bool h) seen) eqn:E.
    + pose proof (unique_from_length t seen). lia.
    + simpl in H. injection H as H. destruct (IH (h :: seen) H) as [I1 I2].
      split.
      * intros y s [<- | Hy] Hs.
        -- intros C. apply not_true_iff_false in E. apply E.
           apply existsb_exists. exists s. split; [exact Hs | apply Qeq_bool_iff; exact C].
        -- apply I1; [exact Hy | right; exact Hs].
      * intros i j Hij Hj. destruct j as [| j]; [lia |]. simpl in Hj.
        destruct i as [| i]; simpl.
        -- intros C. apply (I1 (nth j t 0%Q) h); [apply nth_In; lia | left; reflexivity |].
           symmetry. exact C.
        -- apply I2; lia.
Qed.

Lemma quantile_last (a : list Q) (q : nat) :
  (0 < q)%nat -> (quantile a q q == nth (length a - 1) a 0)%Q.
Proof.
  intros Hq. unfold quantile. rewrite (Nat.mul_comm q (length a - 1)).
  rewrite Nat.div_mul by lia. rewrite Nat.Div0.mod_mul.
  cbn [Z.of_nat]. unfold Qdiv. rewrite Qmult_0_l, Qmult_0_l, Qplus_0_r. reflexivity.
Qed.

(** The cell with no cell above it is the last one of the sorted column. *)
Lemma sort_last (xs : list Q) (x : Q) :
  In x xs -> (forall y, In y xs -> (y <= x)%Q) ->
  (nth (length xs - 1) (QSort.sort xs) 0 == x)%Q.
Proof.
  intros Hin Hmax.
  assert (Hn : (0 < length xs)%nat) by (destruct xs; [contradiction | simpl; lia]).
  assert (Hl : (length xs - 1 < length (QSort.sort xs))%nat) by (rewrite sort_length; lia).
  assert (H1 : (nth (length xs - 1) (QSort.sort xs) 0 <= x)%Q).
  { apply Hmax. apply (Permutation_in _ (Permutation_sym (sort_perm xs))).
    apply nth_In. exact Hl. }
  destruct (sorted_cell xs x Hin) as [j [Hj Ej]].
  assert (H2 : (x <= nth (length xs - 1) (QSort.sort xs) 0)%Q).
  { rewrite <- Ej. apply sorted_nth_le; [apply sort_sorted | lia | exact Hl]. }
  lra.
Qed.

(** When [qcut] gives its five labels, the highest cell is in the fifth
    bucket. *)

Lemma series_max_Some (l : list (option Z)) (m : Z) :
  series_max l = Some m ->
  In (Some m) l /\ forall d, In (Some d) l -> d <= m.
Proof.
  revert m. induction l as [| [d |] t IH]; simpl; intros m H.
  - discriminate.
  - destruct (series_max t) as [m' |] eqn:E.
    + injection H as <-. destruct (IH m' eq_refl) as [I1 I2]. split.
      * destruct (Z.max_spec d m') as [[_ ->] | [_ ->]]; [right; exact I1 | left; reflexivity].
      * intros x [Hx | Hx]; [injection Hx as <-; lia | specialize (I2 x Hx); lia].
    + injection H as <-. split; [left; reflexivity |].
      intros x [Hx | Hx]; [injection Hx as <-; lia |].
      exfalso. clear IH. induction t as [| [y |] t IHt]; simpl in *.
      * exact Hx.
      * destruct (series_max t); discriminate.
      * destruct Hx as [Hx | Hx]; [discriminate | exact (IHt E Hx)].
  - destruct (IH m H) as [I1 I2]. split; [right; exact I1 |].
    intros x [Hx | Hx]; [discriminate | exact (I2 x Hx)].
Qed.

Lemma series_max_In (l : list (option Z)) (d : Z) :
  In (Some d) l -> exists m, series_max l = Some m.
Proof.
  induction l as [| [y |] t IH]; simpl; intros H.
  - contradiction.
  - destruct (series_max t); eexists; reflexivity.
  - destruct H as [H | H]; [discriminate | exact (IH H)].
Qed.

Lemma series_max_latest_of (l : list (option Z)) (m : Z) :
  In (Some m) l -> (forall d, In (Some d) l -> d <= m) -> series_max l = Some m.
Proof.
  intros Hin Hmax. destruct (series_max_In l m Hin) as [m' E].
  destruct (series_max_Some l m' E) as [I1 I2].
  specialize (Hmax m' I1). specialize (I2 m Hin).
  rewrite E. f_equal. lia.
Qed.


(** The number of profiles whose recency is strictly below that of [p]. *)
Definition more_recent (ps : list profile) (p : profile) : nat :=
  length (filter (fun p' => row_days (row p') <? row_days (row p)) ps).


Lemma zip_scores_rs (gr : rfm_row -> option Z) (rfm : list rfm_row) :
  forall fs ms x r f m,
    In (x, (r, f, m)) (zip_scores rfm (map gr rfm) fs ms) -> r = gr x.
Proof.
  induction rfm as [| y t IH]; intros fs ms x r f m H; [contradiction |].
  destruct fs as [| f0 fs]; [contradiction |].
  destruct ms as [| m0 ms]; [contradiction |].
  simpl in H. destruct H as [H | H].
  - injection H as <- <- <- <-. reflexivity.
  - apply (IH _ _ _ _ _ _ H).
Qed.

Lemma zip_scores_ms (gm : rfm_row -> option Z) (rfm : list rfm_row) :
  forall rs fs x r f m,
    In (x, (r, f, m)) (zip_scores rfm rs fs (map gm rfm)) -> m = gm x.
Proof.
  induction rfm as [| y t IH]; intros rs fs x r f m H; [contradiction |].
  destruct rs as [| r0 rs]; [contradiction |].
  destruct fs as [| f0 fs]; [contradiction |].
  simpl in H. destruct H as [H | H].
  - injection H as <- <- <- <-. reflexivity.
  - apply (IH _ _ _ _ _ _ H).
Qed.


Lemma nodup_length_le (l : list string) :
  (length (nodup string_dec l) <= length l)%nat.
Proof.
  induction l as [| a t IH]; simpl; [lia |].
  destruct (in_dec string_dec a t); simpl; lia.
Qed.

Lemma dropna_length_le {A : Type} (l : list (option A)) :
  (length (dropna l) <= length l)%nat.
Proof. induction l as [| [a |] t IH]; simpl; lia. Qed.


(** ** The six edges in binary64 *)

(** The quantiles that [Series.quantile] hands to numpy for the edges of
    [qcut(x, 5)]: the points of [np.linspace(0, 1, 6)], times 100, over
    100. *)
Definition quantile_points : list Q :=
  map (fun q => Binary64.div (Binary64.mul q 100) 100) (Numpy.linspace 6).

Lemma quantile_points_eq :
  quantile_points
  = [0; 3602879701896397 # 18014398509481984; 3602879701896397 # 9007199254740992;
     1351079888211149 # 2251799813685248; 3602879701896397 # 4503599627370496; 1]%Q.
Proof. vm_compute. reflexivity. Qed.

Lemma edges64_points (a : list Q) :
  Pandas64.quantile a (Numpy.linspace 6) = map (Numpy.quantile a) quantile_points.
Proof.
  unfold Pandas64.quantile, quantile_points. rewrite map_map. reflexivity.
Qed.

Lemma lerp_same (a t : Q) : representable a -> (Numpy.lerp a a t == a)%Q.
Proof.
  unfold representable. intros Ra.
  unfold Numpy.lerp, Binary64.sub, Binary64.add, Binary64.mul.
  assert (D : (Binary64.rnd (a - a) == 0)%Q) by (apply rnd_zero; ring).
  destruct (Qle_bool (1 # 2) t).
  - assert (M : (Binary64.rnd (Binary64.rnd (a - a) * Binary64.rnd (1 - t)) == 0)%Q).
    { apply rnd_zero. rewrite D. ring. }
    rewrite M. setoid_replace (a - 0)%Q with a by ring. exact Ra.
  - assert (M : (Binary64.rnd (Binary64.rnd (a - a) * t) == 0)%Q).
    { apply rnd_zero. rewrite D. ring. }
    rewrite M. setoid_replace (a + 0)%Q with a by ring. exact Ra.
Qed.

(** At or above the last index the edge is the last cell. *)
Lemma quantile_above (a : list Q) (qv : Q) :
  representable (nth (length a - 1) a 0%Q) ->
  (inject_Z (Z.of_nat (length a - 1))
   <= Binary64.rnd (inject_Z (Z.of_nat (length a - 1)) * qv))%Q ->
  (Numpy.quantile a qv == nth (length a - 1) a 0)%Q.
Proof.
  intros R H. unfold Numpy.quantile, Binary64.mul.
  apply Qle_bool_iff in H. rewrite H. apply lerp_same. exact R.
Qed.

(** At quantile 0 the edge is the first cell. *)
Lemma quantile_zero (a : list Q) :
  (2 <= length a)%nat -> representable (nth 0 a 0%Q) ->
  (Numpy.quantile a 0 == nth 0 a 0)%Q.
Proof.
  intros Hn R. unfold representable in R.
  unfold Numpy.quantile, Binary64.mul, Binary64.sub.
  set (N1 := inject_Z (Z.of_nat (length a - 1))).
  assert (HN1 : (1 <= N1)%Q).
  { unfold N1. change 1%Q with (inject_Z 1). rewrite <- Zle_Qle. lia. }
  assert (V : (Binary64.rnd (N1 * 0) == 0)%Q) by (apply rnd_zero; ring).
  set (vi := Binary64.rnd (N1 * 0)) in *.
  assert (Above : Qle_bool N1 vi = false).
  { apply not_true_iff_false. rewrite Qle_bool_iff. lra. }
  rewrite Above.
  assert (Hfl : Qfloor vi = 0) by (apply Qfloor_between; change (inject_Z 0) with 0%Q; lra).
  rewrite Hfl. change (Z.to_nat 0) with 0%nat. change (Z.to_nat (0 + 1)) with 1%nat.
  change (inject_Z 0) with 0%Q.
  assert (G : (Binary64.rnd (vi - 0) == 0)%Q) by (apply rnd_zero; lra).
  set (g := Binary64.rnd (vi - 0)) in *.
  unfold Numpy.lerp, Binary64.sub, Binary64.add, Binary64.mul.
  assert (C : Qle_bool (1 # 2) g = false).
  { apply not_true_iff_false. rewrite Qle_bool_iff. lra. }
  rewrite C.
  assert (M : (Binary64.rnd (Binary64.rnd (nth 1 a 0 - nth 0 a 0) * g) == 0)%Q).
  { apply rnd_zero. rewrite G. ring. }
  rewrite M. setoid_replace (nth 0 a 0 + 0)%Q with (nth 0 a 0%Q) by ring. exact R.
Qed.

(** An edge between the cells [j] and [j + 1] is below a cell of the column
    exactly when the cell [j] is. *)
Lemma bracketed_below (a : list Q) (j : nat) (E v : Q) :
  StronglySorted Qle a -> (S j < length a)%nat -> bracketed a j E -> In v a ->
  ((E < v)%Q <-> (nth j a 0 < v)%Q).
Proof.
  intros Hs Hj [B1 [B2 B3]] Hv. split; [intros H; lra |]. intros H.
  destruct (In_nth a v 0%Q Hv) as [i [Hi Ei]].
  assert (Hij : (S j <= i)%nat).
  { destruct (Nat.le_gt_cases (S j) i) as [L | G]; [exact L | exfalso].
    pose proof (sorted_nth_le a Hs i j ltac:(lia) ltac:(lia)) as L. rewrite Ei in L. lra. }
  pose proof (sorted_nth_le a Hs (S j) i Hij Hi) as L. rewrite Ei in L.
  destruct (Qlt_le_dec (nth j a 0%Q) (nth (S j) a 0%Q)) as [Lt | Le].
  - specialize (B2 Lt). lra.
  - specialize (B3 Le). lra.
Qed.

Lemma exact_bracket (a : list Q) (k : nat) :
  StronglySorted Qle a -> (2 <= length a)%nat -> (k <= 4)%nat ->
  bracketed a (k * (length a - 1) / 5) (quantile a 5 k).
Proof.
  intros Hs Hn Hk. unfold quantile.
  set (n := length a) in *. set (pos := (k * (n - 1))%nat).
  pose proof (Nat.div_mod_eq pos 5) as Hdm.
  pose proof (Nat.mod_upper_bound pos 5 ltac:(lia)) as Hr.
  assert (Hj : (S (pos / 5) <= n - 1)%nat) by (unfold pos in *; nia).
  replace (Nat.min (pos / 5 + 1) (n - 1)) with (S (pos / 5)) by lia.
  destruct (gamma_bounds a 0%Q (pos mod 5) 5 Hr) as [G0 G1].
  set (g := (inject_Z (Z.of_nat (pos mod 5)) / inject_Z (Z.of_nat 5))%Q) in *.
  pose proof (sorted_nth_le a Hs (pos / 5) (S (pos / 5)) ltac:(lia)
                ltac:(unfold n in *; lia)) as L.
  unfold bracketed. split; [nra |]. split; intros H; nra.
Qed.

(** On a column of whole numbers the binary64 edges separate the cells of
    the column as the exact quantiles do. *)
Lemma edges64_cells (xs : list Q) (v : Q) :
  Forall int_cell xs -> Z.of_nat (length xs) <= 2 ^ 40 -> In v xs ->
  Forall2 (fun e q => (e < v)%Q <-> (q < v)%Q)
          (Pandas64.quantile (QSort.sort xs) (Numpy.linspace 6))
          (quantile_edges (QSort.sort xs) 5) /\
  (hd 0%Q (Pandas64.quantile (QSort.sort xs) (Numpy.linspace 6))
   == hd 0%Q (quantile_edges (QSort.sort xs) 5))%Q.
Proof.
  intros Hc Hn Hv.
  set (a := QSort.sort xs).
  assert (Hs : StronglySorted Qle a) by apply sort_sorted.
  assert (Hca : Forall int_cell a).
  { apply (Permutation_Forall (sort_perm xs)). exact Hc. }
  assert (Hva : In v a) by (apply (Permutation_in v (sort_perm xs) Hv)).
  assert (Hlen : length a = length xs) by apply sort_length.
  assert (P48 : 2 ^ 48 = 281474976710656) by reflexivity.
  assert (P53 : 2 ^ 53 = 9007199254740992) by reflexivity.
  assert (P40 : 2 ^ 40 = 1099511627776) by reflexivity.
  assert (Rcell : forall i, (i < length a)%nat -> representable (nth i a 0%Q)).
  { intros i Hi. destruct (int_cell_nth a i Hca Hi) as [z [-> Hz]].
    apply representable_int. lia. }
  assert (Hpos : (0 < length a)%nat).
  { destruct a; [contradiction | simpl; lia]. }
  rewrite edges64_points, quantile_points_eq. unfold quantile_edges.
  cbn [map seq hd].
  destruct (Nat.le_gt_cases 2 (length a)) as [H2 | H1].
  - (* two cells or more *)
    assert (Hlast : (Numpy.quantile a 1 == quantile a 5 5)%Q).
    { rewrite quantile_last by lia. apply quantile_above; [apply Rcell; lia |].
      apply Qle_lteq. right. symmetry.
      assert (RN : representable (inject_Z (Z.of_nat (length a - 1)))).
      { apply representable_int. lia. }
      unfold representable in RN.
      setoid_replace (inject_Z (Z.of_nat (length a - 1)) * 1)%Q
        with (inject_Z (Z.of_nat (length a - 1))) by ring.
      exact RN. }
    assert (Hfirst : (Numpy.quantile a 0 == quantile a 5 0)%Q).
    { rewrite quantile_first. apply quantile_zero; [exact H2 | apply Rcell; lia]. }
    assert (Hmid : forall k qv,
      (1 <= k <= 4)%nat ->
      (inject_Z (Z.of_nat k) * (1 # 5) <= qv
       <= inject_Z (Z.of_nat k) * (1 # 5) + (1 # 9007199254740992))%Q ->
      ((Numpy.quantile a qv < v)%Q <-> (quantile a 5 k < v)%Q)).
    { intros k qv Hk Hq.
      assert (Hj : (S (k * (length a - 1) / 5) < length a)%nat).
      { pose proof (Nat.div_mod_eq (k * (length a - 1)) 5). nia. }
      rewrite (bracketed_below a _ _ v Hs Hj
                 (quantile_bracket a k qv Hs Hca H2 ltac:(lia) ltac:(lia) Hq) Hva).
      rewrite (bracketed_below a _ _ v Hs Hj
                 (exact_bracket a k Hs H2 ltac:(lia)) Hva).
      reflexivity. }
    split; [| exact Hfirst].
    apply Forall2_cons; [rewrite Hfirst; reflexivity |].
    apply Forall2_cons;
      [apply (Hmid 1%nat); [lia |]; split; vm_compute; discriminate |].
    apply Forall2_cons;
      [apply (Hmid 2%nat); [lia |]; split; vm_compute; discriminate |].
    apply Forall2_cons;
      [apply (Hmid 3%nat); [lia |]; split; vm_compute; discriminate |].
    apply Forall2_cons;
      [apply (Hmid 4%nat); [lia |]; split; vm_compute; discriminate |].
    apply Forall2_cons; [rewrite Hlast; reflexivity | apply Forall2_nil].
  - (* one cell *)
    assert (E1 : length a = 1%nat) by lia.
    assert (Hall : forall qv k, (Numpy.quantile a qv == quantile a 5 k)%Q).
    { intros qv k.
      assert (Ex : (quantile a 5 k == nth 0 a 0)%Q).
      { unfold quantile. rewrite E1. cbn [Nat.sub]. rewrite Nat.mul_0_r.
        cbn. unfold Qdiv. ring. }
      rewrite Ex.
      pose proof (quantile_above a qv) as Qa. rewrite E1 in Qa.
      cbn [Nat.sub Z.of_nat] in Qa. change (inject_Z 0) with 0%Q in Qa.
      apply Qa; [apply (Rcell 0%nat); lia |].
      rewrite (rnd_zero (0 * qv)) by ring. apply Qle_refl. }
    split; [| apply Hall].
    apply Forall2_cons; [rewrite (Hall _ 0%nat); reflexivity |].
    apply Forall2_cons; [rewrite (Hall _ 1%nat); reflexivity |].
    apply Forall2_cons; [rewrite (Hall _ 2%nat); reflexivity |].
    apply Forall2_cons; [rewrite (Hall _ 3%nat); reflexivity |].
    apply Forall2_cons; [rewrite (Hall _ 4%nat); reflexivity |].
    apply Forall2_cons; [rewrite (Hall _ 5%nat); reflexivity | apply Forall2_nil].
Qed.

(** ** [qcut] in binary64 *)

Lemma searchsorted_Forall2 (v : Q) (bins bins' : list Q) :
  Forall2 (fun e q => (e < v)%Q <-> (q < v)%Q) bins bins' ->
  searchsorted_left bins v = searchsorted_left bins' v.
Proof.
  induction 1 as [| e q bins bins' H _ IH]; [reflexivity |].
  cbn [searchsorted_left].
  assert (E : Qle_bool v e = Qle_bool v q).
  { apply eq_true_iff_eq. rewrite !Qle_bool_iff. split; intros L.
    - apply Qnot_lt_le. intros C. apply H in C. lra.
    - apply Qnot_lt_le. intros C. apply H in C. lra. }
  rewrite E, IH. reflexivity.
Qed.

(** The bucket of a cell of a column of whole numbers, among the binary64
    edges of the column. *)
Lemma bucket64_closed (xs : list Q) (v : Q) :
  Forall int_cell xs -> Z.of_nat (length xs) <= 2 ^ 40 -> In v xs ->
  bucket (Pandas64.quantile (QSort.sort xs) (Numpy.linspace 6)) v
  = quintile (length xs) (count (below v) xs).
Proof.
  intros Hc Hn Hv. rewrite <- (bucket_closed xs v Hv).
  destruct (edges64_cells xs v Hc Hn Hv) as [F H0].
  unfold bucket. rewrite (searchsorted_Forall2 v _ _ F).
  assert (E : Qeq_bool v (hd 0%Q (Pandas64.quantile (QSort.sort xs) (Numpy.linspace 6)))
              = Qeq_bool v (hd 0%Q (quantile_edges (QSort.sort xs) 5))).
  { apply eq_true_iff_eq. rewrite !Qeq_bool_iff, H0. reflexivity. }
  rewrite E. reflexivity.
Qed.

Lemma edges64_length (a : list Q) :
  length (Pandas64.quantile a (Numpy.linspace 6)) = 6%nat.
Proof. unfold Pandas64.quantile. rewrite length_map. reflexivity. Qed.

Lemma qcut64_ok_labels x labels res :
  Pandas64.qcut x 5 labels = Ok res ->
  length res = length x /\
  Forall (fun v => forall z, v = Some z -> In z labels) res.
Proof.
  unfold Pandas64.qcut. destruct (QSort.sort (dropna x)) as [| a0 a].
  - destruct (negb _); [discriminate |]. intros H. injection H as <-.
    split; [apply length_map |].
    apply Forall_forall. intros v Hv. apply in_map_iff in Hv.
    destruct Hv as [? [<- _]]. discriminate.
  - intros H. apply bins_to_cuts_ok in H. destruct H as [b [_ ->]].
    split; [apply length_map |].
    apply Forall_forall. intros v Hv z ->. apply in_map_iff in Hv.
    destruct Hv as [w [Hw _]]. exact (cut1_label _ _ _ _ Hw).
Qed.

Lemma qcut64_nan (x : list (option Q)) (labels : list Z)
      (res : list (option Z)) (i : nat) :
  Pandas64.qcut x 5 labels = Ok res -> nth_error x i = Some None ->
  nth_error res i = Some None.
Proof.
  unfold Pandas64.qcut. destruct (QSort.sort (dropna x)) as [| a0 a].
  - destruct (negb _); [discriminate |]. intros H Hi. injection H as <-.
    apply (map_nth_error (fun _ => @None Z)) in Hi. exact Hi.
  - intros H Hi. apply bins_to_cuts_ok in H. destruct H as [b [_ ->]].
    apply (map_nth_error (cut1 b labels)) in Hi. exact Hi.
Qed.

(** A result of [qcut] on a column without missing cell: the cells were cut
    at the six edges of the column, none of which was dropped. *)
Lemma qcut64_full (xs : list Q) (labels : list Z) (res : list (option Z)) :
  length labels = 5%nat ->
  Pandas64.qcut (map Some xs) 5 labels = Ok res ->
  xs <> [] /\
  res = map (cut1 (Pandas64.quantile (QSort.sort xs) (Numpy.linspace 6)) labels)
            (map Some xs) /\
  length (unique (Pandas64.quantile (QSort.sort xs) (Numpy.linspace 6))) = 6%nat.
Proof.
  intros Hl. unfold Pandas64.qcut. rewrite dropna_map_Some.
  destruct (QSort.sort xs) as [| a0 a] eqn:Ea.
  - cbn. rewrite Hl. discriminate.
  - intros H.
    destruct (bins_to_cuts_full _ _ labels res ltac:(lia)
                ltac:(rewrite edges64_length, Hl; reflexivity) H) as [E1 E2].
    split; [| split; [exact E1 | rewrite E2; apply edges64_length]].
    intros E. subst xs. discriminate Ea.
Qed.

(** The labels of a column of whole numbers, when [qcut] returns: the label
    of a cell is decided by the number of cells strictly below it. *)
Lemma qcut64_closed (xs : list Q) (labels : list Z) (res : list (option Z)) :
  Forall int_cell xs -> Z.of_nat (length xs) <= 2 ^ 40 ->
  length labels = 5%nat ->
  Pandas64.qcut (map Some xs) 5 labels = Ok res ->
  res = map (fun v => nth_error labels
                        (quintile (length xs) (count (below v) xs) - 1)) xs.
Proof.
  intros Hc Hn Hl H.
  destruct (qcut64_full xs labels res Hl H) as [_ [-> _]].
  rewrite map_map. apply map_ext_in. intros v Hv. unfold cut1.
  rewrite edges64_length, (bucket64_closed xs v Hc Hn Hv).
  pose proof (bucket_bounds xs v Hv) as Bd.
  destruct (Nat.eqb_spec (quintile (length xs) (count (below v) xs)) 6); [lia |].
  destruct (Nat.eqb_spec (quintile (length xs) (count (below v) xs)) 0); [lia |].
  reflexivity.
Qed.

(** ** What a run in binary64 is made of *)

Section Runs.

Variable sum : list Q -> Q.

Lemma aggregate64_index (df : DataFrame) :
  map index (Analysis64.aggregate sum df) = map index (aggregate df).
Proof. unfold Analysis64.aggregate, aggregate. rewrite !map_map. reflexivity. Qed.

Lemma aggregate64_recency (df : DataFrame) :
  map recency (Analysis64.aggregate sum df) = map recency (aggregate df).
Proof. unfold Analysis64.aggregate, aggregate. rewrite !map_map. reflexivity. Qed.

Lemma aggregate64_frequency (df : DataFrame) :
  map frequency (Analysis64.aggregate sum df) = map frequency (aggregate df).
Proof. unfold Analysis64.aggregate, aggregate. rewrite !map_map. reflexivity. Qed.

Lemma aggregate64_length (df : DataFrame) :
  length (Analysis64.aggregate sum df) = length (distinct_customers df).
Proof.
  rewrite <- (length_map index), aggregate64_index, length_map.
  apply aggregate_length.
Qed.

Lemma perform64_ok (df : DataFrame) (ps : list profile) :
  Analysis64.perform_rfm_analysis sum df = Ok ps ->
  exists rs fs ms,
    Analysis64.r_scores (Analysis64.aggregate sum df) = Ok rs /\
    Analysis64.f_scores (Analysis64.aggregate sum df) = Ok fs /\
    Analysis64.m_scores (Analysis64.aggregate sum df) = Ok ms /\
    map scores_of ps = zip_scores (Analysis64.aggregate sum df) rs fs ms /\
    Forall labelled ps.
Proof.
  unfold Analysis64.perform_rfm_analysis. intros H.
  apply bind_ok in H. destruct H as [rs [Hr H]].
  apply bind_ok in H. destruct H as [fs [Hf H]].
  apply bind_ok in H. destruct H as [ms [Hm H]].
  apply bind_ok in H. destruct H as [segs [Hs H]].
  apply bind_ok in H. destruct H as [risks [Hc H]].
  injection H as <-.
  apply mapM_Forall2 in Hs. apply mapM_Forall2 in Hc.
  exists rs, fs, ms. repeat split; try assumption;
    apply (build_profiles _ _ _ Hs Hc).
Qed.

Lemma perform64_rows (df : DataFrame) (ps : list profile) :
  Analysis64.perform_rfm_analysis sum df = Ok ps ->
  map row ps = Analysis64.aggregate sum df.
Proof.
  intros H.
  destruct (perform64_ok _ _ H) as [rs [fs [ms [Hr [Hf [Hm [Hz _]]]]]]].
  destruct (qcut64_ok_labels _ _ _ Hr) as [Lr _].
  destruct (qcut64_ok_labels _ _ _ Hf) as [Lf _].
  destruct (qcut64_ok_labels _ _ _ Hm) as [Lm _].
  rewrite length_map in Lr, Lm.
  rewrite length_map, rank_first_length, length_map in Lf.
  rewrite <- (zip_scores_full (Analysis64.aggregate sum df) rs fs ms Lr Lf Lm), <- Hz, map_map.
  reflexivity.
Qed.

Lemma perform64_nth (df : DataFrame) (ps : list profile) (i : nat) (p : profile) :
  Analysis64.perform_rfm_analysis sum df = Ok ps -> nth_error ps i = Some p ->
  exists rs,
    Analysis64.r_scores (Analysis64.aggregate sum df) = Ok rs /\
    nth_error (Analysis64.aggregate sum df) i = Some (row p) /\
    nth_error rs i = Some (r_score p).
Proof.
  intros H Hp.
  destruct (perform64_ok _ _ H) as [rs [fs [ms [Hr [_ [_ [Hz _]]]]]]].
  exists rs. split; [exact Hr |].
  apply (map_nth_error scores_of) in Hp. rewrite Hz in Hp.
  apply zip_scores_nth in Hp. tauto.
Qed.

Lemma profile64_scores (df : DataFrame) (ps : list profile) (p : profile) :
  Analysis64.perform_rfm_analysis sum df = Ok ps -> In p ps ->
  exists r f m,
    r_score p = Some r /\ f_score p = Some f /\ m_score p = Some m /\
    In r [5; 4; 3; 2; 1] /\ In f [1; 2; 3; 4; 5] /\ In m [1; 2; 3; 4; 5].
Proof.
  intros H Hp.
  destruct (perform64_ok _ _ H) as [rs [fs [ms [Hr [Hf [Hm [Hz Hl]]]]]]].
  assert (Hin : In (scores_of p) (zip_scores (Analysis64.aggregate sum df) rs fs ms)).
  { rewrite <- Hz. apply in_map. exact Hp. }
  apply zip_scores_In in Hin. destruct Hin as [_ [Ir [If Im]]].
  rewrite Forall_forall in Hl. destruct (Hl p Hp) as [Hs _].
  destruct (qcut64_ok_labels _ _ _ Hr) as [_ Lr].
  destruct (qcut64_ok_labels _ _ _ Hf) as [_ Lf].
  destruct (qcut64_ok_labels _ _ _ Hm) as [_ Lm].
  rewrite Forall_forall in Lr, Lf, Lm.
  unfold segment_customers in Hs.
  destruct (r_score p) as [r |]; [| discriminate].
  destruct (f_score p) as [f |]; [| discriminate].
  destruct (m_score p) as [m |]; [| discriminate].
  exists r, f, m. repeat split; eauto.
Qed.

(** A run that returns has no row without recency. *)
Lemma perform64_recency (df : DataFrame) (ps : list profile) (x : rfm_row) :
  Analysis64.perform_rfm_analysis sum df = Ok ps ->
  In x (Analysis64.aggregate sum df) ->
  recency x = Some (row_days x).
Proof.
  intros H Hx. unfold row_days. destruct (recency x) as [d |] eqn:E; [reflexivity |].
  exfalso.
  destruct (perform64_ok _ _ H) as [rs [fs [ms [Hr [_ [_ [Hz _]]]]]]].
  pose proof (perform64_rows df ps H) as Hrows.
  rewrite <- Hrows in Hx. apply in_map_iff in Hx. destruct Hx as [p [Ep Hp]].
  destruct (profile64_scores df ps p H Hp) as [r [_ [_ [Er _]]]].
  destruct (In_nth_error _ _ Hp) as [i Hi].
  destruct (perform64_nth df ps i p H Hi) as [rs' [Hr' [Hx Hs]]].
  rewrite Hr in Hr'. injection Hr' as <-.
  apply (map_nth_error (fun r => to_Q (recency r))) in Hx.
  rewrite Ep, E in Hx.
  rewrite (qcut64_nan _ _ _ _ Hr Hx) in Hs. rewrite Er in Hs. discriminate.
Qed.

End Runs.

(** ** The recency column *)

(** The dates of the table fit the 64 bits of a Timestamp, which counts
    nanoseconds. *)
Definition int64_dates (df : DataFrame) : Prop :=
  forall t d, In t df -> transaction_date t = Some d -> - 2 ^ 63 <= d < 2 ^ 63.

Lemma recency_bounds (df : DataFrame) (x : rfm_row) (d : Z) :
  int64_dates df -> In x (aggregate df) -> recency x = Some d -> 0 <= d <= 2 ^ 48.
Proof.
  unfold aggregate. intros Hb H Hd. apply in_map_iff in H. destruct H as [c [<- _]].
  cbn [recency] in Hd. unfold recency_of in Hd.
  destruct (series_max (map transaction_date df)) as [M |] eqn:E; [| discriminate].
  destruct (series_max (map transaction_date (group df c))) as [m |] eqn:Eg;
    [| discriminate].
  injection Hd as <-.
  destruct (series_max_Some _ _ E) as [IM B].
  destruct (series_max_Some _ _ Eg) as [I _].
  apply in_map_iff in I. destruct I as [t [Et Ht]]. apply group_In in Ht.
  assert (Hin : In (Some m) (map transaction_date df)).
  { rewrite <- Et. apply in_map. tauto. }
  specialize (B m Hin).
  apply in_map_iff in IM. destruct IM as [tM [EM HM]].
  pose proof (Hb tM M HM EM) as BM. pose proof (Hb t m (proj1 Ht) Et) as Bm.
  assert (P63 : 2 ^ 63 = 9223372036854775808) by reflexivity.
  assert (P48 : 2 ^ 48 = 281474976710656) by reflexivity.
  rewrite P63 in BM, Bm. rewrite P48.
  split; [apply days_nonneg; lia |].
  unfold days, ns_per_day. apply Z.div_le_upper_bound; lia.
Qed.

Section RecencyScores.

Variable sum : list Q -> Q.

Lemma aggregate64_rows (df : DataFrame) (x : rfm_row) :
  In x (Analysis64.aggregate sum df) ->
  exists y, In y (aggregate df) /\ index y = index x /\ recency y = recency x /\
            frequency y = frequency x.
Proof.
  unfold Analysis64.aggregate, aggregate. intros H.
  apply in_map_iff in H. destruct H as [c [<- Hc]].
  eexists. split; [apply in_map_iff; exists c; split; [reflexivity | exact Hc] |].
  cbn. repeat split.
Qed.

Lemma aggregate64_bound (df : DataFrame) :
  Z.of_nat (length df) <= 2 ^ 40 ->
  Z.of_nat (length (Analysis64.aggregate sum df)) <= 2 ^ 40.
Proof.
  intros H. rewrite aggregate64_length. unfold distinct_customers.
  pose proof (nodup_length_le (dropna (map customer_id df))).
  pose proof (dropna_length_le (map customer_id df)).
  rewrite length_map in *. lia.
Qed.

(** The recency column of a run that returns holds whole numbers of days,
    none missing. *)
Lemma recency_column (df : DataFrame) (ps : list profile) :
  int64_dates df ->
  Analysis64.perform_rfm_analysis sum df = Ok ps ->
  map (fun r => to_Q (recency r)) (Analysis64.aggregate sum df)
  = map Some (map (fun x => inject_Z (row_days x)) (Analysis64.aggregate sum df)) /\
  Forall int_cell (map (fun x => inject_Z (row_days x)) (Analysis64.aggregate sum df)).
Proof.
  intros Hb H. split.
  - rewrite map_map. apply map_ext_in. intros x Hx.
    rewrite (perform64_recency sum df ps x H Hx) at 1. reflexivity.
  - apply Forall_forall. intros v Hv. apply in_map_iff in Hv.
    destruct Hv as [x [<- Hx]].
    pose proof (perform64_recency sum df ps x H Hx) as Er.
    destruct (aggregate64_rows df x Hx) as [y [Hy [_ [Ry _]]]].
    rewrite Er in Ry.
    pose proof (recency_bounds df y (row_days x) Hb Hy Ry) as B.
    exists (row_days x). split; [reflexivity | lia].
Qed.

(** The recency score of a profile of a run that returns. *)
Lemma perform64_r_score (df : DataFrame) (ps : list profile) (p : profile) :
  int64_dates df -> Z.of_nat (length df) <= 2 ^ 40 ->
  Analysis64.perform_rfm_analysis sum df = Ok ps -> In p ps ->
  (more_recent ps p <= length ps - 1)%nat /\
  recency (row p) = Some (row_days (row p)) /\
  r_score p = Some (6 - Z.of_nat (quintile (length ps) (more_recent ps p))).
Proof.
  intros Hb Hn H Hp.
  destruct (perform64_ok sum _ _ H) as [rs [fs [ms [Hr [_ [_ [Hz _]]]]]]].
  pose proof (perform64_rows sum df ps H) as Hrows.
  destruct (recency_column df ps Hb H) as [Hcol Hint].
  unfold Analysis64.r_scores in Hr. rewrite Hcol in Hr.
  apply qcut64_closed in Hr;
    [| exact Hint | rewrite length_map; apply aggregate64_bound; exact Hn | reflexivity].
  rewrite map_map in Hr.
  assert (Hin : In (scores_of p) (zip_scores (Analysis64.aggregate sum df) rs fs ms)).
  { rewrite <- Hz. apply in_map. exact Hp. }
  rewrite Hr in Hin. unfold scores_of in Hin. apply zip_scores_rs in Hin.
  rewrite <- Hrows in Hin. rewrite !length_map, map_map, count_map in Hin.
  assert (Hx : In (row p) (Analysis64.aggregate sum df)).
  { rewrite <- Hrows. apply in_map. exact Hp. }
  assert (Hv : In (inject_Z (row_days (row p)))
                  (map (fun x => inject_Z (row_days x)) (map row ps))).
  { apply (in_map (fun x => inject_Z (row_days x))). apply in_map. exact Hp. }
  pose proof (bucket_bounds _ _ Hv) as Bd.
  pose proof (count_below_lt _ _ Hv) as Cl.
  rewrite !length_map, map_map, count_map in Bd, Cl.
  assert (Ec : length (filter (fun a => below (inject_Z (row_days (row p)))
                                          (inject_Z (row_days (row a)))) ps)
               = more_recent ps p).
  { unfold more_recent. f_equal. apply filter_ext. intros a.
    apply eq_true_iff_eq. rewrite below_iff, Z.ltb_lt, <- Zlt_Qlt. reflexivity. }
  rewrite Ec in Hin, Bd, Cl.
  split; [lia |]. split; [apply (perform64_recency sum df ps _ H Hx) |].
  rewrite Hin. apply nth_error_descending. exact Bd.
Qed.

End RecencyScores.

(** ** The lowest and the highest cell *)

Lemma representable_zero : representable 0.
Proof. apply (representable_int 0). reflexivity. Qed.

Lemma representable_one : representable 1.
Proof. apply (representable_int 1). reflexivity. Qed.

Lemma representable_pow2 (e : Z) : representable (2 ^ e).
Proof.
  apply (rnd_exact (2 ^ e) 1 e); [| reflexivity].
  change (inject_Z 1) with 1%Q. ring.
Qed.

(** The result of a rounding is a binary64 number. *)
Lemma rnd_idem (x : Q) : representable (Binary64.rnd x).
Proof.
  assert (P : forall y, (0 < y)%Q -> representable (Binary64.round_pos y)).
  { intros y Hy. destruct (rne_scaled y Hy) as [L U]. unfold Binary64.round_pos.
    set (r := Binary64.rne (y * 2 ^ (52 - Binary64.ilog2 y))) in *.
    destruct (Z.eq_dec r (2 ^ 53)) as [E | N].
    - apply (representable_proper (2 ^ (Binary64.ilog2 y + 1))%Q);
        [| apply representable_pow2].
      rewrite E, pow2_inject by lia.
      rewrite (pow2_split (Binary64.ilog2 y + 1) 53 (Binary64.ilog2 y - 52)) by lia.
      reflexivity.
    - apply (rnd_exact _ r (Binary64.ilog2 y - 52)); [reflexivity | lia]. }
  assert (N : forall y, representable y -> representable (- y)).
  { unfold representable. intros y Hy.
    destruct (Q_dec 0 y) as [[Py | Ny] | Zy].
    - rewrite (rnd_negative (- y)) by lra.
      rewrite <- (rnd_positive (- - y)) by lra.
      setoid_replace (- - y)%Q with y by ring. rewrite Hy. reflexivity.
    - rewrite (rnd_positive (- y)) by lra.
      rewrite (rnd_negative y Ny) in Hy. lra.
    - rewrite (rnd_zero (- y)) by lra. lra. }
  destruct (Q_dec 0 x) as [[Px | Nx] | Zx].
  - apply (representable_proper (Binary64.round_pos x));
      [symmetry; apply rnd_positive; exact Px | apply P; exact Px].
  - apply (representable_proper (- Binary64.round_pos (- x))%Q);
      [symmetry; apply rnd_negative; exact Nx | apply N, P; lra].
  - apply (representable_proper 0);
      [symmetry; apply rnd_zero; lra | apply representable_zero].
Qed.

Lemma sum_representable (l : list Q) : representable (Binary64.sum l).
Proof.
  unfold Binary64.sum.
  assert (G : forall acc, representable acc -> representable (fold_left Binary64.add l acc)).
  { induction l as [| a l IH]; intros acc H; [exact H |].
    cbn [fold_left]. apply IH. apply rnd_idem. }
  apply G. apply representable_zero.
Qed.

Lemma rnd_nonneg (x : Q) : (0 <= x)%Q -> (0 <= Binary64.rnd x)%Q.
Proof.
  intros H. pose proof (rnd_mono 0 x H) as M.
  rewrite (rnd_zero 0) in M by reflexivity. exact M.
Qed.

(** The interpolation does not pass the higher of its two cells. *)
Lemma lerp_le (A B g : Q) :
  representable A -> representable B -> (A <= B)%Q -> (0 <= g <= 1)%Q ->
  (Numpy.lerp A B g <= B)%Q.
Proof.
  unfold representable. intros RA RB Hab [G0 G1].
  unfold Numpy.lerp, Binary64.sub, Binary64.add, Binary64.mul.
  pose proof (rnd_nonneg (B - A) ltac:(lra)) as HD.
  set (D := Binary64.rnd (B - A)) in *.
  destruct (Qle_bool (1 # 2) g) eqn:C.
  - pose proof (rnd_nonneg (1 - g) ltac:(lra)) as Ht.
    pose proof (rnd_nonneg (D * Binary64.rnd (1 - g))
                  ltac:(apply Qmult_le_0_compat; assumption)) as Hm.
    apply Qle_trans with (Binary64.rnd B); [apply rnd_mono; lra | rewrite RB; apply Qle_refl].
  - assert (C' : (g < 1 # 2)%Q).
    { apply Qnot_le_lt. intros H. apply Qle_bool_iff in H. rewrite H in C. discriminate. }
    assert (Hm : (Binary64.rnd (D * g) <= B - A)%Q).
    { destruct (Qlt_le_dec 0 (B - A)) as [P | Z0].
      - destruct (ilog2_spec (B - A) P) as [L _].
        destruct (round_pos_bracket (B - A) P) as [_ U].
        rewrite <- (rnd_positive (B - A) P) in U. fold D in U.
        rewrite (pow2_split (Binary64.ilog2 (B - A) + 1) (Binary64.ilog2 (B - A)) 1) in U
          by lia.
        change (2 ^ 1)%Q with 2%Q in U.
        pose proof (pow2_pos (Binary64.ilog2 (B - A))) as Pp.
        apply Qle_trans with (2 ^ Binary64.ilog2 (B - A))%Q; [| exact L].
        pose proof (representable_pow2 (Binary64.ilog2 (B - A))) as Rp.
        unfold representable in Rp. rewrite <- Rp. apply rnd_mono. nra.
      - assert (E0 : (D == 0)%Q) by (apply rnd_zero; lra).
        rewrite (rnd_zero (D * g)) by (rewrite E0; ring). lra. }
    apply Qle_trans with (Binary64.rnd B); [apply rnd_mono; lra | rewrite RB; apply Qle_refl].
Qed.

(** No edge is above the last cell. *)
Lemma quantile64_le_last (a : list Q) (qv : Q) :
  StronglySorted Qle a -> Forall representable a -> (1 <= length a)%nat ->
  (0 <= qv)%Q ->
  (Numpy.quantile a qv <= nth (length a - 1) a 0)%Q.
Proof.
  intros Hs Hr Hn Hq.
  assert (Rcell : forall i, (i < length a)%nat -> representable (nth i a 0%Q)).
  { intros i Hi. rewrite Forall_forall in Hr. apply Hr, nth_In, Hi. }
  unfold Numpy.quantile, Binary64.mul, Binary64.sub.
  set (N1 := inject_Z (Z.of_nat (length a - 1))).
  assert (HN1 : (0 <= N1)%Q).
  { unfold N1. change 0%Q with (inject_Z 0). rewrite <- Zle_Qle. lia. }
  pose proof (rnd_nonneg (N1 * qv) ltac:(apply Qmult_le_0_compat; assumption)) as Hv.
  set (vi := Binary64.rnd (N1 * qv)) in *.
  destruct (Qle_bool N1 vi) eqn:Above.
  - rewrite lerp_same by (apply Rcell; lia). apply Qle_refl.
  - assert (Hlt : (vi < N1)%Q).
    { apply Qnot_le_lt. intros H. apply Qle_bool_iff in H. rewrite H in Above. discriminate. }
    pose proof (Qfloor_le vi) as F1. pose proof (Qlt_floor vi) as F2.
    rewrite inject_Z_plus in F2. change (inject_Z 1) with 1%Q in F2.
    set (fl := Qfloor vi) in *.
    assert (Hfl : 0 <= fl < Z.of_nat (length a - 1)).
    { split.
      - assert (X : (inject_Z (-1) < inject_Z fl)%Q)
          by (change (inject_Z (-1)) with (-1)%Q; lra).
        rewrite <- Zlt_Qlt in X. lia.
      - rewrite Zlt_Qlt. fold N1. lra. }
    pose proof (rnd_between 0 1 (vi - inject_Z fl) representable_zero representable_one
                  ltac:(lra)) as Hg.
    apply Qle_trans with (nth (Z.to_nat (fl + 1)) a 0%Q).
    + apply lerp_le; [apply Rcell; lia | apply Rcell; lia | | exact Hg].
      apply sorted_nth_le; [exact Hs | lia | lia].
    + apply sorted_nth_le; [exact Hs | lia | lia].
Qed.

(** The six edges of a column in binary64. *)
Lemma edges64_list (a : list Q) :
  Pandas64.quantile a (Numpy.linspace 6)
  = [Numpy.quantile a 0;
     Numpy.quantile a (3602879701896397 # 18014398509481984);
     Numpy.quantile a (3602879701896397 # 9007199254740992);
     Numpy.quantile a (1351079888211149 # 2251799813685248);
     Numpy.quantile a (3602879701896397 # 4503599627370496);
     Numpy.quantile a 1].
Proof. rewrite edges64_points, quantile_points_eq. reflexivity. Qed.

Lemma sort_first (xs : list Q) (x : Q) :
  In x xs -> (forall y, In y xs -> (x <= y)%Q) ->
  (nth 0 (QSort.sort xs) 0 == x)%Q.
Proof.
  intros Hin Hmin.
  assert (Hn : (0 < length (QSort.sort xs))%nat).
  { rewrite sort_length. destruct xs; [contradiction | simpl; lia]. }
  assert (H1 : (x <= nth 0 (QSort.sort xs) 0)%Q).
  { apply Hmin. apply (Permutation_in _ (Permutation_sym (sort_perm xs))).
    apply nth_In. exact Hn. }
  assert (H2 : (nth 0 (QSort.sort xs) 0 <= x)%Q).
  { pose proof (Permutation_in x (sort_perm xs) Hin) as Hx.
    destruct (In_nth _ x 0%Q Hx) as [i [Hi Ei]]. rewrite <- Ei.
    apply sorted_nth_le; [apply sort_sorted | lia | exact Hi]. }
  lra.
Qed.

(** When [qcut] returns on a column of binary64 numbers without missing
    cell, a lowest cell has the first label and a highest cell the last. *)
Lemma qcut64_extremes (xs : list Q) (labels : list Z) (res : list (option Z))
      (i : nat) (v : Q) :
  Forall representable xs -> Z.of_nat (length xs) <= 2 ^ 53 ->
  length labels = 5%nat ->
  Pandas64.qcut (map Some xs) 5 labels = Ok res ->
  nth_error xs i = Some v ->
  ((forall y, In y xs -> (v <= y)%Q) -> nth_error res i = Some (nth_error labels 0)) /\
  ((forall y, In y xs -> (y <= v)%Q) -> nth_error res i = Some (nth_error labels 4)).
Proof.
  intros Hr Hn Hl H Hi.
  destruct (qcut64_full xs labels res Hl H) as [Hne [-> Hu]].
  assert (Hv : In v xs) by (exact (nth_error_In _ _ Hi)).
  set (a := QSort.sort xs) in *.
  assert (Hs : StronglySorted Qle a) by apply sort_sorted.
  assert (Hra : Forall representable a).
  { apply (Permutation_Forall (sort_perm xs)). exact Hr. }
  assert (Hlen : length a = length xs) by apply sort_length.
  assert (Hpos : (1 <= length a)%nat).
  { rewrite Hlen. destruct xs; [contradiction | simpl; lia]. }
  assert (Rcell : forall j, (j < length a)%nat -> representable (nth j a 0%Q)).
  { intros j Hj. rewrite Forall_forall in Hra. apply Hra, nth_In, Hj. }
  assert (P53 : 2 ^ 53 = 9007199254740992) by reflexivity.
  (* the six edges are pairwise different *)
  assert (Hd : forall j k, (j < k)%nat -> (k < 6)%nat ->
               ~ (nth j (Pandas64.quantile a (Numpy.linspace 6)) 0
                  == nth k (Pandas64.quantile a (Numpy.linspace 6)) 0)%Q).
  { assert (Hlen6 : length (unique_from [] (Pandas64.quantile a (Numpy.linspace 6)))
                    = length (Pandas64.quantile a (Numpy.linspace 6))).
    { rewrite edges64_length. exact Hu. }
    destruct (unique_from_distinct _ _ Hlen6) as [_ D].
    intros j k Hjk Hk. apply D; [exact Hjk | rewrite edges64_length; exact Hk]. }
  (* the last edge is the last cell *)
  assert (H5 : (Numpy.quantile a 1 == nth (length a - 1) a 0)%Q).
  { apply quantile_above; [apply Rcell; lia |].
    assert (RN : representable (inject_Z (Z.of_nat (length a - 1)))).
    { apply representable_int. lia. }
    unfold representable in RN.
    setoid_replace (inject_Z (Z.of_nat (length a - 1)) * 1)%Q
      with (inject_Z (Z.of_nat (length a - 1))) by ring.
    rewrite RN. apply Qle_refl. }
  (* there are two cells at least *)
  assert (H2 : (2 <= length a)%nat).
  { destruct (Nat.le_gt_cases 2 (length a)) as [L | G]; [exact L | exfalso].
    assert (E1 : length a = 1%nat) by lia.
    apply (Hd 0%nat 5%nat); [lia | lia |].
    rewrite edges64_list. cbn [nth]. rewrite H5.
    pose proof (quantile_above a 0) as Qa. rewrite E1 in Qa |- *.
    cbn [Nat.sub Z.of_nat] in Qa |- *. change (inject_Z 0) with 0%Q in Qa.
    apply Qa; [apply (Rcell 0%nat); lia |].
    rewrite (rnd_zero (0 * 0)) by ring. apply Qle_refl. }
  assert (H0 : (Numpy.quantile a 0 == nth 0 a 0)%Q).
  { apply quantile_zero; [exact H2 | apply Rcell; lia]. }
  rewrite nth_error_map, nth_error_map, Hi. cbn [option_map].
  unfold cut1, bucket. rewrite edges64_length.
  split; intros Hext.
  - (* a lowest cell *)
    assert (E : (v == nth 0 a 0)%Q) by (symmetry; apply sort_first; assumption).
    assert (Q0 : Qeq_bool v (hd 0%Q (Pandas64.quantile a (Numpy.linspace 6))) = true).
    { apply Qeq_bool_iff. rewrite edges64_list. cbn [hd]. rewrite H0, E. reflexivity. }
    rewrite Q0. reflexivity.
  - (* a highest cell *)
    assert (E : (nth (length a - 1) a 0 == v)%Q).
    { rewrite Hlen. apply sort_last; assumption. }
    assert (Hbelow : forall k qv, (k < 5)%nat -> (0 <= qv)%Q ->
              nth k (Pandas64.quantile a (Numpy.linspace 6)) 0%Q = Numpy.quantile a qv ->
              (Numpy.quantile a qv < v)%Q).
    { intros k qv Hk Hq Ek.
      pose proof (quantile64_le_last a qv Hs Hra Hpos Hq) as Le.
      destruct (Qlt_le_dec (Numpy.quantile a qv) v) as [L | G]; [exact L | exfalso].
      apply (Hd k 5%nat Hk ltac:(lia)). rewrite Ek.
      rewrite edges64_list. cbn [nth]. rewrite H5. lra. }
    assert (B0 := Hbelow 0%nat 0%Q ltac:(lia) ltac:(lra)
                    ltac:(rewrite edges64_list; reflexivity)).
    assert (B1 := Hbelow 1%nat (3602879701896397 # 18014398509481984) ltac:(lia) ltac:(discriminate)
                    ltac:(rewrite edges64_list; reflexivity)).
    assert (B2 := Hbelow 2%nat (3602879701896397 # 9007199254740992) ltac:(lia) ltac:(discriminate)
                    ltac:(rewrite edges64_list; reflexivity)).
    assert (B3 := Hbelow 3%nat (1351079888211149 # 2251799813685248) ltac:(lia) ltac:(discriminate)
                    ltac:(rewrite edges64_list; reflexivity)).
    assert (B4 := Hbelow 4%nat (3602879701896397 # 4503599627370496) ltac:(lia) ltac:(discriminate)
                    ltac:(rewrite edges64_list; reflexivity)).
    rewrite edges64_list. cbn [hd searchsorted_left].
    assert (F : forall e, (e < v)%Q -> Qle_bool v e = false).
    { intros e He. apply not_true_iff_false. rewrite Qle_bool_iff. lra. }
    assert (Q0 : Qeq_bool v (Numpy.quantile a 0) = false).
    { apply not_true_iff_false. rewrite Qeq_bool_iff. lra. }
    rewrite Q0, (F _ B0), (F _ B1), (F _ B2), (F _ B3), (F _ B4).
    assert (T : Qle_bool v (Numpy.quantile a 1) = true).
    { apply Qle_bool_iff. rewrite H5, E. apply Qle_refl. }
    rewrite T. reflexivity.
Qed.

(** ** The scores of a run in binary64 *)

Lemma int_cell_representable (v : Q) : int_cell v -> representable v.
Proof.
  intros [z [-> Hz]]. apply representable_int.
  assert (P48 : 2 ^ 48 = 281474976710656) by reflexivity.
  assert (P53 : 2 ^ 53 = 9007199254740992) by reflexivity.
  lia.
Qed.

(** A whole number of at most [2 ^ 48] in absolute value, as a test. *)
Definition whole (v : Q) : bool :=
  (Qden v =? 1)%positive && (Z.abs (Qnum v) <=? 2 ^ 48).

Lemma whole_int_cell (l : list Q) : forallb whole l = true -> Forall int_cell l.
Proof.
  intros H. apply Forall_forall. intros v Hv.
  rewrite forallb_forall in H. specialize (H v Hv).
  unfold whole in H. apply andb_true_iff in H. destruct H as [Hd Hz].
  apply Pos.eqb_eq in Hd. apply Z.leb_le in Hz.
  destruct v as [a b]. cbn in Hd, Hz. subst b.
  exists a. split; [reflexivity | exact Hz].
Qed.

Lemma int64_dates_check (df : DataFrame) :
  forallb (fun t => match transaction_date t with
                    | Some d => (- 2 ^ 63 <=? d) && (d <? 2 ^ 63)
                    | None => true
                    end) df = true ->
  int64_dates df.
Proof.
  intros H t d Ht E. rewrite forallb_forall in H. specialize (H t Ht).
  rewrite E in H. apply andb_true_iff in H. destruct H as [H1 H2].
  apply Z.leb_le in H1. apply Z.ltb_lt in H2. split; assumption.
Qed.

(** The number of profiles whose monetary value is strictly below that of
    [p]. *)
Definition poorer (ps : list profile) (p : profile) : nat :=
  length (filter (fun p' => below (monetary (row p)) (monetary (row p'))) ps).

Section Scores64.

Variable sum : list Q -> Q.

Lemma aggregate64_size (df : DataFrame) :
  (length (Analysis64.aggregate sum df) <= length df)%nat.
Proof.
  rewrite aggregate64_length. unfold distinct_customers.
  pose proof (nodup_length_le (dropna (map customer_id df))).
  pose proof (dropna_length_le (map customer_id df)).
  rewrite length_map in *. lia.
Qed.

Lemma perform64_nth_m (df : DataFrame) (ps : list profile) (i : nat) (p : profile) :
  Analysis64.perform_rfm_analysis sum df = Ok ps -> nth_error ps i = Some p ->
  exists ms,
    Analysis64.m_scores (Analysis64.aggregate sum df) = Ok ms /\
    nth_error (Analysis64.aggregate sum df) i = Some (row p) /\
    nth_error ms i = Some (m_score p).
Proof.
  intros H Hp.
  destruct (perform64_ok sum _ _ H) as [rs [fs [ms [_ [_ [Hm [Hz _]]]]]]].
  exists ms. split; [exact Hm |].
  apply (map_nth_error scores_of) in Hp. rewrite Hz in Hp.
  apply zip_scores_nth in Hp. tauto.
Qed.

(** The monetary score of a profile of a run that returns, when the monetary
    values are whole numbers. *)
Lemma perform64_m_score (df : DataFrame) (ps : list profile) (p : profile) :
  Forall int_cell (map monetary (Analysis64.aggregate sum df)) ->
  Z.of_nat (length df) <= 2 ^ 40 ->
  Analysis64.perform_rfm_analysis sum df = Ok ps -> In p ps ->
  (poorer ps p <= length ps - 1)%nat /\
  m_score p = Some (Z.of_nat (quintile (length ps) (poorer ps p))).
Proof.
  intros Hint Hn H Hp.
  destruct (perform64_ok sum _ _ H) as [rs [fs [ms [_ [_ [Hm [Hz _]]]]]]].
  pose proof (perform64_rows sum df ps H) as Hrows.
  unfold Analysis64.m_scores in Hm. rewrite <- (map_map monetary Some) in Hm.
  apply qcut64_closed in Hm;
    [| exact Hint | rewrite length_map; apply aggregate64_bound; exact Hn | reflexivity].
  rewrite map_map in Hm.
  assert (Hin : In (scores_of p) (zip_scores (Analysis64.aggregate sum df) rs fs ms)).
  { rewrite <- Hz. apply in_map. exact Hp. }
  rewrite Hm in Hin. unfold scores_of in Hin. apply zip_scores_ms in Hin.
  rewrite <- Hrows in Hin. rewrite !length_map, map_map, count_map in Hin.
  fold (poorer ps p) in Hin.
  assert (Hv : In (monetary (row p)) (map monetary (map row ps))).
  { apply in_map. apply in_map. exact Hp. }
  pose proof (bucket_bounds _ _ Hv) as Bd.
  pose proof (count_below_lt _ _ Hv) as Cl.
  rewrite !length_map, map_map, count_map in Bd, Cl. fold (poorer ps p) in Bd, Cl.
  split; [lia |]. rewrite Hin. apply nth_error_ascending. exact Bd.
Qed.

(** The two ends of the monetary column. *)
Lemma monetary_ends (df : DataFrame) (ps : list profile) (p : profile) :
  (forall l, representable (sum l)) ->
  Z.of_nat (length df) <= 2 ^ 53 ->
  Analysis64.perform_rfm_analysis sum df = Ok ps -> In p ps ->
  ((forall p', In p' ps -> (monetary (row p) <= monetary (row p'))%Q) ->
   m_score p = Some 1) /\
  ((forall p', In p' ps -> (monetary (row p') <= monetary (row p))%Q) ->
   m_score p = Some 5).
Proof.
  intros Hsum Hn H Hp.
  pose proof (perform64_rows sum df ps H) as Hrows.
  destruct (In_nth_error _ _ Hp) as [i Hi].
  destruct (perform64_nth_m df ps i p H Hi) as [ms [Hm [Hx Hs]]].
  unfold Analysis64.m_scores in Hm. rewrite <- (map_map monetary Some) in Hm.
  assert (Hr : Forall representable (map monetary (Analysis64.aggregate sum df))).
  { apply Forall_forall. intros v Hv. apply in_map_iff in Hv.
    destruct Hv as [x [<- Hin]]. unfold Analysis64.aggregate in Hin.
    apply in_map_iff in Hin. destruct Hin as [c [<- _]]. cbn [monetary]. apply Hsum. }
  assert (Hlen : Z.of_nat (length (map monetary (Analysis64.aggregate sum df))) <= 2 ^ 53).
  { rewrite length_map. pose proof (aggregate64_size df). lia. }
  destruct (qcut64_extremes _ [1; 2; 3; 4; 5] ms i (monetary (row p)) Hr Hlen eq_refl Hm
              (map_nth_error monetary i _ Hx)) as [Lo Hi'].
  assert (Hall : forall y, In y (map monetary (Analysis64.aggregate sum df)) ->
                 exists p', In p' ps /\ y = monetary (row p')).
  { intros y Hy. rewrite <- Hrows, map_map in Hy. apply in_map_iff in Hy.
    destruct Hy as [p' [<- Hp']]. exists p'. split; [exact Hp' | reflexivity]. }
  split; intros Hb.
  - assert (E : nth_error ms i = Some (nth_error [1; 2; 3; 4; 5] 0)).
    { apply Lo. intros y Hy. destruct (Hall y Hy) as [p' [Hp' ->]]. apply Hb, Hp'. }
    rewrite Hs in E. injection E as E. exact E.
  - assert (E : nth_error ms i = Some (nth_error [1; 2; 3; 4; 5] 4)).
    { apply Hi'. intros y Hy. destruct (Hall y Hy) as [p' [Hp' ->]]. apply Hb, Hp'. }
    rewrite Hs in E. injection E as E. exact E.
Qed.

(** The two ends of the recency column. *)
Lemma recency_ends (df : DataFrame) (ps : list profile) (p : profile) :
  int64_dates df -> Z.of_nat (length df) <= 2 ^ 53 ->
  Analysis64.perform_rfm_analysis sum df = Ok ps -> In p ps ->
  ((forall p', In p' ps -> row_days (row p) <= row_days (row p')) ->
   r_score p = Some 5 /\ churn_risk p = "Low"%string) /\
  ((forall p', In p' ps -> row_days (row p') <= row_days (row p)) ->
   r_score p = Some 1 /\ churn_risk p = "High"%string).
Proof.
  intros Hb Hn H Hp.
  pose proof (perform64_rows sum df ps H) as Hrows.
  destruct (In_nth_error _ _ Hp) as [i Hi].
  destruct (perform64_nth sum df ps i p H Hi) as [rs [Hr [Hx Hs]]].
  destruct (recency_column sum df ps Hb H) as [Hcol Hint].
  unfold Analysis64.r_scores in Hr. rewrite Hcol in Hr.
  set (days_of := fun x : rfm_row => inject_Z (row_days x)) in *.
  assert (Hrep : Forall representable (map days_of (Analysis64.aggregate sum df))).
  { apply Forall_forall. intros v Hv. apply int_cell_representable.
    rewrite Forall_forall in Hint. apply Hint, Hv. }
  assert (Hlen : Z.of_nat (length (map days_of (Analysis64.aggregate sum df))) <= 2 ^ 53).
  { rewrite length_map. pose proof (aggregate64_size df). lia. }
  destruct (qcut64_extremes _ [5; 4; 3; 2; 1] rs i (days_of (row p)) Hrep Hlen eq_refl Hr
              (map_nth_error days_of i _ Hx)) as [Lo Hi'].
  assert (Hall : forall y, In y (map days_of (Analysis64.aggregate sum df)) ->
                 exists p', In p' ps /\ y = days_of (row p')).
  { intros y Hy. rewrite <- Hrows, map_map in Hy. apply in_map_iff in Hy.
    destruct Hy as [p' [<- Hp']]. exists p'. split; [exact Hp' | reflexivity]. }
  destruct (perform64_ok sum _ _ H) as [_ [_ [_ [_ [_ [_ [_ Hl]]]]]]].
  rewrite Forall_forall in Hl. destruct (Hl p Hp) as [_ C].
  split; intros Hbd.
  - assert (E : nth_error rs i = Some (nth_error [5; 4; 3; 2; 1] 0)).
    { apply Lo. intros y Hy. destruct (Hall y Hy) as [p' [Hp' ->]].
      unfold days_of. rewrite <- Zle_Qle. apply Hbd, Hp'. }
    rewrite Hs in E. injection E as E. cbn in E.
    rewrite E in C. injection C as C. split; [exact E | symmetry; exact C].
  - assert (E : nth_error rs i = Some (nth_error [5; 4; 3; 2; 1] 4)).
    { apply Hi'. intros y Hy. destruct (Hall y Hy) as [p' [Hp' ->]].
      unfold days_of. rewrite <- Zle_Qle. apply Hbd, Hp'. }
    rewrite Hs in E. injection E as E. cbn in E.
    rewrite E in C. injection C as C. split; [exact E | symmetry; exact C].
Qed.

(** No recency is negative. *)
Lemma aggregate64_recency_nonneg (df : DataFrame) (x : rfm_row) :
  In x (Analysis64.aggregate sum df) -> 0 <= row_days x.
Proof.
  unfold Analysis64.aggregate. intros H. apply in_map_iff in H. destruct H as [c [<- _]].
  unfold row_days. cbn [recency]. unfold recency_of.
  destruct (series_max (map transaction_date df)) as [m |] eqn:E; [| lia].
  destruct (series_max (map transaction_date (group df c))) as [d |] eqn:Eg; [| lia].
  apply days_nonneg.
  destruct (series_max_Some _ _ E) as [_ B].
  destruct (series_max_Some _ _ Eg) as [I _].
  apply in_map_iff in I. destruct I as [t [Et Ht]]. apply group_In in Ht.
  assert (In (Some d) (map transaction_date df)).
  { rewrite <- Et. apply in_map. tauto. }
  specialize (B d ltac:(assumption)). lia.
Qed.

End Scores64.

(** ** Columns without spread, in binary64 *)

Lemma lerp_constant (A B v g : Q) :
  (A == v)%Q -> (B == v)%Q -> (Numpy.lerp A B g == Binary64.rnd v)%Q.
Proof.
  intros EA EB. unfold Numpy.lerp, Binary64.sub, Binary64.add, Binary64.mul.
  assert (D : (Binary64.rnd (B - A) == 0)%Q) by (apply rnd_zero; lra).
  destruct (Qle_bool (1 # 2) g).
  - assert (M : (Binary64.rnd (Binary64.rnd (B - A) * Binary64.rnd (1 - g)) == 0)%Q).
    { apply rnd_zero. rewrite D. ring. }
    apply rnd_proper. lra.
  - assert (M : (Binary64.rnd (Binary64.rnd (B - A) * g) == 0)%Q).
    { apply rnd_zero. rewrite D. ring. }
    apply rnd_proper. lra.
Qed.

(** Every quantile of a column of one value is that value, rounded. *)
Lemma quantile64_constant (a : list Q) (v qv : Q) :
  a <> [] -> (forall y, In y a -> (y == v)%Q) ->
  (Numpy.quantile a qv == Binary64.rnd v)%Q.
Proof.
  intros Hne H.
  assert (Hn : (0 < length a)%nat) by (destruct a; [contradiction | simpl; lia]).
  assert (C : forall i, (i < length a)%nat -> (nth i a 0 == v)%Q).
  { intros i Hi. apply H, nth_In, Hi. }
  unfold Numpy.quantile, Binary64.mul.
  set (N1 := inject_Z (Z.of_nat (length a - 1))).
  set (vi := Binary64.rnd (N1 * qv)).
  destruct (Qle_bool N1 vi) eqn:Above.
  - apply lerp_constant; apply C; lia.
  - assert (Hlt : (vi < N1)%Q).
    { apply Qnot_le_lt. intros L. apply Qle_bool_iff in L. rewrite L in Above.
      discriminate. }
    pose proof (Qfloor_le vi) as F.
    assert (Hfl : Qfloor vi < Z.of_nat (length a - 1)).
    { rewrite Zlt_Qlt. fold N1. lra. }
    apply lerp_constant; apply C; lia.
Qed.

Lemma qcut64_constant_raises (xs : list Q) (labels : list Z) :
  length labels = 5%nat ->
  (forall u v, In u xs -> In v xs -> (u == v)%Q) ->
  Pandas64.qcut (map Some xs) 5 labels = Raise bin_labels_error.
Proof.
  intros Hl H. unfold Pandas64.qcut.
  rewrite dropna_map_Some.
  destruct (QSort.sort xs) as [| a0 a] eqn:Ea.
  - rewrite Hl. reflexivity.
  - assert (Ha : forall y, In y (a0 :: a) -> (y == a0)%Q).
    { intros y Hy. rewrite <- Ea in Hy.
      apply (Permutation_in y (Permutation_sym (sort_perm xs))) in Hy.
      apply H; [exact Hy |].
      apply (Permutation_in a0 (Permutation_sym (sort_perm xs))).
      rewrite Ea. left. reflexivity. }
    unfold bins_to_cuts.
    assert (Hu : unique (Pandas64.quantile (a0 :: a) (Numpy.linspace 6))
                 = [Numpy.quantile (a0 :: a) 0]).
    { rewrite edges64_list. apply unique_constant.
      intros y Hy. apply (Qeq_trans _ (Binary64.rnd a0)).
      - simpl in Hy.
        destruct Hy as [<- | [<- | [<- | [<- | [<- | []]]]]];
          apply quantile64_constant; try discriminate; exact Ha.
      - apply Qeq_sym. apply quantile64_constant; [discriminate | exact Ha]. }
    rewrite Hu, edges64_length, Hl. reflexivity.
Qed.

Lemma qcut64_raise (x : list (option Q)) (q : nat) (labels : list Z) (e : exn) :
  Pandas64.qcut x q labels = Raise e -> e = bin_labels_error.
Proof.
  unfold Pandas64.qcut, bins_to_cuts.
  destruct (QSort.sort (dropna x)) as [| a0 a];
    match goal with |- context [negb ?c] => destruct c end; simpl; intros H;
    try discriminate; injection H as <-; reflexivity.
Qed.

Lemma dropna_none {A B : Type} (l : list A) :
  dropna (map (fun _ => @None B) l) = [].
Proof. induction l as [| a l IH]; [reflexivity | exact IH]. Qed.

(** A column of one recency, missing or not, is refused. *)
Lemma r_scores64_constant_raises (rfm : list rfm_row) :
  (forall x y, In x rfm -> In y rfm -> recency x = recency y) ->
  Analysis64.r_scores rfm = Raise bin_labels_error.
Proof.
  intros H. unfold Analysis64.r_scores.
  destruct rfm as [| x0 rfm'] eqn:E; [reflexivity |]. rewrite <- E in *.
  assert (H0 : forall x, In x rfm -> recency x = recency x0).
  { intros x Hx. apply H; [exact Hx | rewrite E; left; reflexivity]. }
  destruct (recency x0) as [d |] eqn:Ed.
  - assert (Ec : map (fun r => to_Q (recency r)) rfm
                 = map Some (map (fun _ => inject_Z d) rfm)).
    { rewrite map_map. apply map_ext_in. intros x Hx. rewrite (H0 x Hx). reflexivity. }
    rewrite Ec. apply qcut64_constant_raises; [reflexivity |].
    intros u v Hu Hv. apply in_map_iff in Hu, Hv.
    destruct Hu as [? [<- _]]. destruct Hv as [? [<- _]]. reflexivity.
  - assert (Ec : map (fun r => to_Q (recency r)) rfm = map (fun _ => None) rfm).
    { apply map_ext_in. intros x Hx. rewrite (H0 x Hx). reflexivity. }
    rewrite Ec. unfold Pandas64.qcut. rewrite dropna_none. reflexivity.
Qed.

(** ** The ranks in binary64 *)

Section RankEdges64.
(** A column [xs] that holds the ranks 1..n in some order. *)
Variable xs : list Q.
Variable n : nat.
Hypothesis xs_ranks : Permutation xs (rank_column n).

Lemma sort_ranks_eq : QSort.sort xs = rank_column n.
Proof.
  apply (nth_ext _ _ 0%Q 0%Q).
  - rewrite sort_length, (ranks_length xs n xs_ranks), rank_column_length. reflexivity.
  - intros j Hj. rewrite sort_length, (ranks_length xs n xs_ranks) in Hj.
    rewrite (sort_ranks xs n xs_ranks j Hj).
    unfold rank_column, ranks_upto. rewrite map_map.
    rewrite (nth_indep _ 0%Q (inject_Z (Z.of_nat 0)))
      by (rewrite length_map, length_seq; exact Hj).
    rewrite (map_nth (fun i => inject_Z (Z.of_nat i))), seq_nth by exact Hj.
    reflexivity.
Qed.

Lemma ranks_int_cell : Z.of_nat n <= 2 ^ 40 -> Forall int_cell (QSort.sort xs).
Proof.
  intros Hn. rewrite sort_ranks_eq. apply Forall_forall. intros y Hy.
  destruct (rank_column_In n y Hy) as [m [-> Hm]].
  exists (Z.of_nat m). split; [reflexivity |].
  assert (P48 : 2 ^ 48 = 281474976710656) by reflexivity.
  assert (P40 : 2 ^ 40 = 1099511627776) by reflexivity.
  lia.
Qed.

(** With two cells or more the edges increase strictly, in binary64 too. *)
Lemma edges64_ranks_sorted :
  (2 <= n)%nat -> Z.of_nat n <= 2 ^ 40 ->
  StronglySorted Qlt (Pandas64.quantile (QSort.sort xs) (Numpy.linspace 6)).
Proof.
  intros Hn Hb.
  destruct (Nat.le_gt_cases 6 n) as [H6 | H5].
  - set (a := QSort.sort xs).
    assert (Hs : StronglySorted Qle a) by apply sort_sorted.
    assert (Hc : Forall int_cell a) by (apply ranks_int_cell; exact Hb).
    assert (Hlen : length a = n).
    { unfold a. rewrite sort_length. apply (ranks_length xs n xs_ranks). }
    assert (Hcell : forall j, (j < n)%nat -> nth j a 0%Q = inject_Z (Z.of_nat (S j))).
    { intros j Hj. apply (sort_ranks xs n xs_ranks j Hj). }
    assert (P53 : 2 ^ 53 = 9007199254740992) by reflexivity.
    assert (P40 : 2 ^ 40 = 1099511627776) by reflexivity.
    assert (Rcell : forall i, (i < n)%nat -> representable (nth i a 0%Q)).
    { intros i Hi. rewrite (Hcell i Hi). apply representable_int. lia. }
    (* where the middle edges lie *)
    assert (Hmid : forall k qv,
      (1 <= k <= 4)%nat ->
      (inject_Z (Z.of_nat k) * (1 # 5) <= qv
       <= inject_Z (Z.of_nat k) * (1 # 5) + (1 # 9007199254740992))%Q ->
      (inject_Z (Z.of_nat (k * (n - 1) / 5)) + 1 <= Numpy.quantile a qv
       < inject_Z (Z.of_nat (k * (n - 1) / 5)) + 2)%Q).
    { intros k qv Hk Hq.
      pose proof (quantile_bracket a k qv Hs Hc ltac:(lia) ltac:(lia) ltac:(lia) Hq)
        as [B1 [B2 _]].
      rewrite Hlen in B1, B2.
      assert (Hj : (S (k * (n - 1) / 5) < n)%nat).
      { pose proof (Nat.div_mod_eq (k * (n - 1)) 5). nia. }
      set (j := (k * (n - 1) / 5)%nat) in *.
      rewrite (Hcell j) in B1, B2 by lia. rewrite (Hcell (S j)) in B2 by lia.
      assert (E1 : (inject_Z (Z.of_nat (S j)) == inject_Z (Z.of_nat j) + 1)%Q).
      { rewrite Nat2Z.inj_succ. unfold Z.succ. rewrite inject_Z_plus. reflexivity. }
      assert (E2 : (inject_Z (Z.of_nat (S (S j))) == inject_Z (Z.of_nat j) + 2)%Q).
      { rewrite !Nat2Z.inj_succ. unfold Z.succ. rewrite !inject_Z_plus.
        change (inject_Z 1) with 1%Q. ring. }
      rewrite E1 in B1. rewrite E1, E2 in B2.
      split; [exact B1 | apply B2; lra]. }
    assert (H0 : (Numpy.quantile a 0 == 1)%Q).
    { rewrite quantile_zero; [| lia | apply Rcell; lia].
      rewrite (Hcell 0%nat) by lia. reflexivity. }
    assert (H5 : (Numpy.quantile a 1 == inject_Z (Z.of_nat n))%Q).
    { rewrite quantile_above.
      - rewrite Hlen, (Hcell (n - 1)%nat) by lia.
        replace (S (n - 1)) with n by lia. reflexivity.
      - rewrite Hlen. apply Rcell. lia.
      - assert (RN : representable (inject_Z (Z.of_nat (length a - 1)))).
        { apply representable_int. lia. }
        unfold representable in RN.
        setoid_replace (inject_Z (Z.of_nat (length a - 1)) * 1)%Q
          with (inject_Z (Z.of_nat (length a - 1))) by ring.
        rewrite RN. apply Qle_refl. }
    pose proof (Hmid 1%nat (3602879701896397 # 18014398509481984) ltac:(lia)
                  ltac:(split; vm_compute; discriminate)) as [L1 U1].
    pose proof (Hmid 2%nat (3602879701896397 # 9007199254740992) ltac:(lia)
                  ltac:(split; vm_compute; discriminate)) as [L2 U2].
    pose proof (Hmid 3%nat (1351079888211149 # 2251799813685248) ltac:(lia)
                  ltac:(split; vm_compute; discriminate)) as [L3 U3].
    pose proof (Hmid 4%nat (3602879701896397 # 4503599627370496) ltac:(lia)
                  ltac:(split; vm_compute; discriminate)) as [L4 U4].
    pose proof (Nat.div_mod_eq (1 * (n - 1)) 5) as D1.
    pose proof (Nat.mod_upper_bound (1 * (n - 1)) 5 ltac:(lia)) as M1.
    pose proof (Nat.div_mod_eq (2 * (n - 1)) 5) as D2.
    pose proof (Nat.mod_upper_bound (2 * (n - 1)) 5 ltac:(lia)) as M2.
    pose proof (Nat.div_mod_eq (3 * (n - 1)) 5) as D3.
    pose proof (Nat.mod_upper_bound (3 * (n - 1)) 5 ltac:(lia)) as M3.
    pose proof (Nat.div_mod_eq (4 * (n - 1)) 5) as D4.
    pose proof (Nat.mod_upper_bound (4 * (n - 1)) 5 ltac:(lia)) as M4.
    set (j1 := (1 * (n - 1) / 5)%nat) in *. set (j2 := (2 * (n - 1) / 5)%nat) in *.
    set (j3 := (3 * (n - 1) / 5)%nat) in *. set (j4 := (4 * (n - 1) / 5)%nat) in *.
    assert (J1 : (1 <= j1)%nat) by lia.
    assert (J2 : (j1 + 1 <= j2)%nat) by lia.
    assert (J3 : (j2 + 1 <= j3)%nat) by lia.
    assert (J4 : (j3 + 1 <= j4)%nat) by lia.
    assert (J5 : (j4 + 2 <= n)%nat) by lia.
    assert (Q1 : (1 <= inject_Z (Z.of_nat j1))%Q)
      by (change 1%Q with (inject_Z 1); rewrite <- Zle_Qle; lia).
    assert (Q2 : (inject_Z (Z.of_nat j1) + 1 <= inject_Z (Z.of_nat j2))%Q).
    { change 1%Q with (inject_Z 1). rewrite <- inject_Z_plus, <- Zle_Qle. lia. }
    assert (Q3 : (inject_Z (Z.of_nat j2) + 1 <= inject_Z (Z.of_nat j3))%Q).
    { change 1%Q with (inject_Z 1). rewrite <- inject_Z_plus, <- Zle_Qle. lia. }
    assert (Q4 : (inject_Z (Z.of_nat j3) + 1 <= inject_Z (Z.of_nat j4))%Q).
    { change 1%Q with (inject_Z 1). rewrite <- inject_Z_plus, <- Zle_Qle. lia. }
    assert (Q5 : (inject_Z (Z.of_nat j4) + 2 <= inject_Z (Z.of_nat n))%Q).
    { change 2%Q with (inject_Z 2). rewrite <- inject_Z_plus, <- Zle_Qle. lia. }
    rewrite edges64_list.
    repeat (constructor; [| repeat (constructor; [lra |]); constructor]).
    constructor.
  - rewrite sort_ranks_eq.
    assert (C : n = 2%nat \/ n = 3%nat \/ n = 4%nat \/ n = 5%nat) by lia.
    destruct C as [-> | [-> | [-> | ->]]];
      vm_compute;
      repeat (constructor; [| repeat (constructor; [reflexivity |]); constructor]);
      constructor.
Qed.

End RankEdges64.

(** The ranks 1..n are cut into five buckets, in binary64 too. *)
Lemma qcut64_ranks (rk : list Z) :
  Permutation rk (ranks_upto (length rk)) -> (2 <= length rk)%nat ->
  Z.of_nat (length rk) <= 2 ^ 40 ->
  exists fs,
    Pandas64.qcut (map (fun z => Some (inject_Z z)) rk) 5 [1; 2; 3; 4; 5]
    = Ok (map Some fs) /\
    length fs = length rk /\
    Forall (fun s => 1 <= s <= 5) fs.
Proof.
  intros Hp Hn Hb.
  set (xs := map inject_Z rk).
  assert (Hx : Permutation xs (rank_column (length rk))).
  { unfold xs, rank_column. apply Permutation_map. exact Hp. }
  assert (Hlen : length xs = length rk) by (unfold xs; apply length_map).
  pose proof (edges64_ranks_sorted xs (length rk) Hx Hn Hb) as Hs.
  assert (Hq : Pandas64.qcut (map Some xs) 5 [1; 2; 3; 4; 5]
               = Ok (map (cut1 (Pandas64.quantile (QSort.sort xs) (Numpy.linspace 6))
                               [1; 2; 3; 4; 5]) (map Some xs))).
  { unfold Pandas64.qcut. rewrite dropna_map_Some.
    destruct (QSort.sort xs) as [| a0 a] eqn:Ea.
    - exfalso. apply (f_equal (@length Q)) in Ea. rewrite sort_length, Hlen in Ea.
      simpl in Ea. lia.
    - apply bins_to_cuts_sorted; [exact Hs | apply edges64_length]. }
  assert (Hcl := qcut64_closed xs [1; 2; 3; 4; 5] _
                   (Permutation_Forall (Permutation_sym (sort_perm xs))
                      (ranks_int_cell xs (length rk) Hx Hb))
                   ltac:(rewrite Hlen; exact Hb) eq_refl Hq).
  exists (map (fun v => Z.of_nat (quintile (length xs) (count (below v) xs))) xs).
  split; [| split].
  - rewrite <- (map_map inject_Z Some rk). fold xs. rewrite Hq, Hcl, map_map.
    f_equal. apply map_ext_in. intros v Hv.
    apply nth_error_ascending. apply bucket_bounds. exact Hv.
  - rewrite length_map. exact Hlen.
  - apply Forall_forall. intros s Hs'. apply in_map_iff in Hs'.
    destruct Hs' as [v [<- Hv]]. pose proof (bucket_bounds xs v Hv). lia.
Qed.

(** * The claims *)

(** C2.  In every profile of a successful run the three scores are integers,
    the total score is their sum, and the segment is "Champions"%string exactly when
    the total is at least 13, "Loyal Customers"%string exactly when it is in 10..12,
    "Potential Loyalists"%string exactly when it is in 7..9, "At Risk"%string exactly when
    it is 5 or 6, and "Lost Customers"%string exactly when it is below 5. *)
Theorem segment_thresholds (df : DataFrame) (ps : list profile) (p : profile) :
  perform_rfm_analysis df = Ok ps -> In p ps ->
  exists r f m,
    r_score p = Some r /\ f_score p = Some f /\ m_score p = Some m /\
    total_score r f m = r + f + m /\
    (segment p = "Champions"%string <-> 13 <= total_score r f m) /\
    (segment p = "Loyal Customers"%string <-> 10 <= total_score r f m < 13) /\
    (segment p = "Potential Loyalists"%string <-> 7 <= total_score r f m < 10) /\
    (segment p = "At Risk"%string <-> 5 <= total_score r f m < 7) /\
    (segment p = "Lost Customers"%string <-> total_score r f m < 5).
Proof.
  intros H Hp.
  destruct (profile_scores _ _ _ H Hp) as [r [f [m [Er [Ef [Em _]]]]]].
  destruct (perform_ok _ _ H) as [_ [_ [_ [_ [_ [_ [_ Hl]]]]]]].
  rewrite Forall_forall in Hl. destruct (Hl p Hp) as [Hs _].
  rewrite Er, Ef, Em in Hs.
  destruct (segment_customers_spec _ _ _ _ Hs) as (H1 & H2 & H3 & H4 & H5).
  exists r, f, m.
  split; [exact Er |]. split; [exact Ef |]. split; [exact Em |].
  split; [reflexivity |]. split; [exact H1 |]. split; [exact H2 |].
  split; [exact H3 |]. split; [exact H4 | exact H5].
Qed.

Lemma segment_thresholds_witness :
  exists r f m,
    r_score sample_champion = Some r /\ f_score sample_champion = Some f /\
    m_score sample_champion = Some m /\
    total_score r f m = r + f + m /\
    (segment sample_champion = "Champions"%string <-> 13 <= total_score r f m) /\
    (segment sample_champion = "Loyal Customers"%string <-> 10 <= total_score r f m < 13) /\
    (segment sample_champion = "Potential Loyalists"%string <-> 7 <= total_score r f m < 10) /\
    (segment sample_champion = "At Risk"%string <-> 5 <= total_score r f m < 7) /\
    (segment sample_champion = "Lost Customers"%string <-> total_score r f m < 5).
Proof.
  exact (segment_thresholds Samples.sample sample_profiles sample_champion sample_run sample_champion_in).
Defined.

(** C5.  In every profile of a successful run each of the three scores is an
    integer between 1 and 5, and their sum is between 3 and 15. *)
Theorem score_ranges (df : DataFrame) (ps : list profile) (p : profile) :
  perform_rfm_analysis df = Ok ps -> In p ps ->
  exists r f m,
    r_score p = Some r /\ f_score p = Some f /\ m_score p = Some m /\
    1 <= r <= 5 /\ 1 <= f <= 5 /\ 1 <= m <= 5 /\
    3 <= total_score r f m <= 15.
Proof.
  intros H Hp.
  destruct (profile_scores _ _ _ H Hp) as [r [f [m [Er [Ef [Em [Ir [If Im]]]]]]]].
  exists r, f, m. unfold total_score. simpl in Ir, If, Im.
  repeat split; try assumption; lia.
Qed.

Lemma score_ranges_witness :
  exists r f m,
    r_score sample_champion = Some r /\ f_score sample_champion = Some f /\
    m_score sample_champion = Some m /\
    1 <= r <= 5 /\ 1 <= f <= 5 /\ 1 <= m <= 5 /\
    3 <= total_score r f m <= 15.
Proof.
  exact (score_ranges Samples.sample sample_profiles sample_champion sample_run sample_champion_in).
Defined.

(** C10.  A profile whose segment is "Champions"%string has churn risk "Medium" or
    "Low", and not "High": its recency score is at least 3. *)
Theorem champions_not_high_risk (df : DataFrame) (ps : list profile) (p : profile) :
  perform_rfm_analysis df = Ok ps -> In p ps ->
  segment p = "Champions"%string ->
  (churn_risk p = "Medium"%string \/ churn_risk p = "Low"%string) /\
  churn_risk p <> "High"%string /\
  exists r, r_score p = Some r /\ 3 <= r.
Proof.
  intros H Hp Hseg.
  destruct (profile_scores _ _ _ H Hp) as [r [f [m [Er [Ef [Em [Ir [If Im]]]]]]]].
  destruct (perform_ok _ _ H) as [_ [_ [_ [_ [_ [_ [_ Hl]]]]]]].
  rewrite Forall_forall in Hl. destruct (Hl p Hp) as [Hs Hc].
  rewrite Er, Ef, Em in Hs. rewrite Er in Hc.
  apply segment_customers_spec in Hs. destruct Hs as [Hch _].
  apply churn_risk_spec in Hc. destruct Hc as [Hhigh [Hmed Hlow]].
  apply Hch in Hseg. unfold total_score in Hseg. simpl in Ir, If, Im.
  assert (Hr3 : 3 <= r) by lia.
  split; [| split].
  - destruct (Z.eq_dec r 3) as [E | E]; [left; apply Hmed; exact E | right; apply Hlow; lia].
  - intros Hh. apply Hhigh in Hh. lia.
  - exists r. split; [exact Er | exact Hr3].
Qed.

Lemma champions_not_high_risk_witness :
  (churn_risk sample_champion = "Medium"%string \/ churn_risk sample_champion = "Low"%string) /\
  churn_risk sample_champion <> "High"%string /\
  exists r, r_score sample_champion = Some r /\ 3 <= r.
Proof.
  exact (champions_not_high_risk Samples.sample sample_profiles sample_champion
           sample_run sample_champion_in eq_refl).
Defined.

(** C6.  A successful run returns one profile per distinct customer of the
    table: the customers of the profiles are pairwise different and are those
    of the table, their number is the number of distinct customers, every
    profile has one of the five segments, and the five segment counts add up
    to the number of distinct customers. *)
Theorem one_profile_per_customer (df : DataFrame) (ps : list profile) :
  perform_rfm_analysis df = Ok ps ->
  NoDup (map customer ps) /\
  (forall c, In c (map customer ps) <-> In (Some c) (map customer_id df)) /\
  length ps = length (distinct_customers df) /\
  (forall p, In p ps -> In (segment p) five_segments) /\
  (segment_count ps "Champions"%string + segment_count ps "Loyal Customers"%string
   + segment_count ps "Potential Loyalists"%string + segment_count ps "At Risk"%string
   + segment_count ps "Lost Customers"%string)%nat = length (distinct_customers df).
Proof.
  intros H.
  assert (Hc : map customer ps = group_keys (map customer_id df)).
  { rewrite <- aggregate_index, <- (perform_rows df ps H), map_map. reflexivity. }
  assert (Hlen : length ps = length (distinct_customers df)).
  { rewrite <- aggregate_length, <- (perform_rows df ps H), length_map. reflexivity. }
  assert (Hseg : forall p, In p ps -> In (segment p) five_segments).
  { destruct (perform_ok _ _ H) as [_ [_ [_ [_ [_ [_ [_ Hl]]]]]]].
    rewrite Forall_forall in Hl. intros p Hp. destruct (Hl p Hp) as [Hs _].
    exact (segment_customers_five _ _ _ _ Hs). }
  split; [rewrite Hc; apply group_keys_NoDup |].
  split; [intros c; rewrite Hc; apply group_keys_In |].
  split; [exact Hlen |]. split; [exact Hseg |].
  rewrite <- Hlen, <- (length_map segment ps). unfold segment_count.
  apply five_counts. apply Forall_forall. intros s Hs.
  apply in_map_iff in Hs. destruct Hs as [p [<- Hp]]. apply Hseg. exact Hp.
Qed.

Lemma one_profile_per_customer_witness :
  NoDup (map customer sample_profiles) /\
  (forall c, In c (map customer sample_profiles)
             <-> In (Some c) (map customer_id Samples.sample)) /\
  length sample_profiles = length (distinct_customers Samples.sample) /\
  (forall p, In p sample_profiles -> In (segment p) five_segments) /\
  (segment_count sample_profiles "Champions"%string
   + segment_count sample_profiles "Loyal Customers"%string
   + segment_count sample_profiles "Potential Loyalists"%string
   + segment_count sample_profiles "At Risk"%string
   + segment_count sample_profiles "Lost Customers"%string)%nat
  = length (distinct_customers Samples.sample).
Proof.
  exact (one_profile_per_customer Samples.sample sample_profiles sample_run).
Defined.

(** The profiles computed for [Samples.sample_later]. *)
Definition sample_later_profiles : list profile :=
  Eval vm_compute in
    match perform_rfm_analysis Samples.sample_later with
    | Ok ps => ps
    | Raise _ => []
    end.

(** C3 (the run on a single monetary value).  When all customers have the
    same monetary value, the six quantile edges of the monetary column are
    one value: five are dropped, the five labels no longer fit and the run
    raises instead of giving every customer the same score. *)
Theorem single_monetary_value_raises (df : DataFrame) :
  (forall x y, In x (aggregate df) -> In y (aggregate df) ->
               (monetary x == monetary y)%Q) ->
  m_scores (aggregate df) = Raise bin_labels_error /\
  perform_rfm_analysis df = Raise bin_labels_error.
Proof.
  intros H.
  assert (Hm : m_scores (aggregate df) = Raise bin_labels_error).
  { unfold m_scores. rewrite <- (map_map monetary Some).
    apply qcut_constant_raises; [reflexivity |].
    intros u v Hu Hv. apply in_map_iff in Hu, Hv.
    destruct Hu as [x [<- Hx]]. destruct Hv as [y [<- Hy]]. apply H; assumption. }
  split; [exact Hm |]. unfold perform_rfm_analysis.
  destruct (r_scores (aggregate df)) as [rs | e] eqn:Hr;
    [| apply qcut_raise in Hr; subst e; reflexivity].
  destruct (f_scores (aggregate df)) as [fs | e] eqn:Hf;
    [| apply qcut_raise in Hf; subst e; reflexivity].
  rewrite Hm. reflexivity.
Qed.

Lemma single_monetary_value_raises_witness :
  m_scores (aggregate Samples.same_amount) = Raise bin_labels_error /\
  perform_rfm_analysis Samples.same_amount = Raise bin_labels_error.
Proof.
  apply (single_monetary_value_raises Samples.same_amount).
  vm_compute.
  intros x y [<- | [<- | [<- | [<- | [<- | []]]]]] [<- | [<- | [<- | [<- | [<- | []]]]]];
    reflexivity.
Defined.

(** C8 (the run on five customers with monetary values 10 to 50).  With equal
    recency and equal frequency for the five customers the monetary column
    alone is scored 1 to 5 in ascending order, but the recency column is one
    value, its labels are refused and the run raises. *)
Theorem five_customers_raises :
  map recency (aggregate Samples.five_customers)
  = [Some 0; Some 0; Some 0; Some 0; Some 0] /\
  map frequency (aggregate Samples.five_customers) = [1; 1; 1; 1; 1] /\
  Forall2 Qeq (map monetary (aggregate Samples.five_customers)) [10; 20; 30; 40; 50]%Q /\
  m_scores (aggregate Samples.five_customers)
  = Ok [Some 1; Some 2; Some 3; Some 4; Some 5] /\
  r_scores (aggregate Samples.five_customers) = Raise bin_labels_error /\
  perform_rfm_analysis Samples.five_customers = Raise bin_labels_error.
Proof.
  split; [vm_compute; reflexivity |].
  split; [vm_compute; reflexivity |].
  split; [repeat constructor |].
  split; [vm_compute; reflexivity |].
  split; vm_compute; reflexivity.
Qed.

(** C4 (as stated, refuted).  It is not so that the run fails whenever a
    required cell is missing on a row: a missing amount is skipped by the sum
    of its group and the run succeeds. *)
Lemma missing_cell_not_rejected :
  ~ (forall df : DataFrame,
       (df = [] \/ exists t, In t df /\ required_missing t) ->
       is_ok (perform_rfm_analysis df) = false).
Proof.
  intros H.
  assert (E : is_ok (perform_rfm_analysis Samples.missing_amount) = false).
  { apply H. right.
    exists {| transaction_id := Some "t7"%string; customer_id := Some "b"%string;
              transaction_date := Samples.day 5; total_amount := None |}.
    split; [apply in_or_app; right; left; reflexivity |].
    right. right. reflexivity. }
  vm_compute in E. discriminate E.
Qed.

(** C4 (amended).  The run raises, and so returns no profile at all, when the
    table is empty, when no row has a customer, and when some customer has no
    date on any of its rows. *)
Theorem invalid_input_raises (df : DataFrame) :
  df = [] \/ no_customer df \/ undated_customer df ->
  exists e, perform_rfm_analysis df = Raise e.
Proof.
  intros H.
  assert (Hf : is_ok (perform_rfm_analysis df) = false).
  { destruct H as [-> | [H | H]].
    - reflexivity.
    - unfold perform_rfm_analysis. rewrite (no_customer_aggregate df H). reflexivity.
    - destruct (undated_customer_row df H) as [x [Hx Hn]].
      exact (recency_nan_raises df x Hx Hn). }
  destruct (perform_rfm_analysis df) as [ps | e]; [discriminate | exists e; reflexivity].
Qed.

Lemma invalid_input_raises_witness :
  exists e, perform_rfm_analysis Samples.undated = Raise e.
Proof.
  apply (invalid_input_raises Samples.undated).
  right. right. exists "f"%string. split.
  - vm_compute. tauto.
  - intros t Ht Hc. vm_compute in Ht.
    destruct Ht as [<- | [<- | [<- | [<- | [<- | [<- | [<- | []]]]]]]];
      try discriminate Hc; reflexivity.
Defined.

(** C9.  The frequencies are scored through their ranks, which are the
    numbers 1..n in some order whatever the ties.  With two customers or more
    the six quantile edges of the ranks increase strictly, so that dropping
    the duplicates drops nothing, the five labels are accepted, and every
    customer has a frequency score between 1 and 5: the scores that the
    profiles of a successful run carry. *)
Theorem frequency_score_well_defined (df : DataFrame) :
  (2 <= length (distinct_customers df))%nat ->
  Permutation (rank_first (map frequency (aggregate df)))
              (ranks_upto (length (aggregate df))) /\
  StronglySorted Qlt (f_edges (aggregate df)) /\
  unique (f_edges (aggregate df)) = f_edges (aggregate df) /\
  exists fs,
    f_scores (aggregate df) = Ok (map Some fs) /\
    length fs = length (distinct_customers df) /\
    Forall (fun s => 1 <= s <= 5) fs /\
    forall ps, perform_rfm_analysis df = Ok ps -> map f_score ps = map Some fs.
Proof.
  intros Hn. rewrite <- aggregate_length in Hn.
  set (rk := rank_first (map frequency (aggregate df))).
  assert (Hlen : length rk = length (aggregate df)).
  { unfold rk. rewrite rank_first_length, length_map. reflexivity. }
  assert (Hp : Permutation rk (ranks_upto (length rk))).
  { unfold rk at 1. rewrite Hlen, <- (length_map frequency). apply rank_first_perm. }
  assert (Hx : Permutation (map inject_Z rk) (rank_column (length rk))).
  { unfold rank_column. apply Permutation_map. exact Hp. }
  assert (Hs : StronglySorted Qlt (f_edges (aggregate df))).
  { apply (edges_ranks_sorted (map inject_Z rk) (length rk) Hx). lia. }
  split; [rewrite <- Hlen; exact Hp |].
  split; [exact Hs |].
  split; [apply unique_sorted; exact Hs |].
  destruct (qcut_ranks rk Hp ltac:(lia)) as [fs [Hq [Hl Hf]]].
  exists fs. split; [exact Hq |].
  split; [rewrite Hl, Hlen; apply aggregate_length |].
  split; [exact Hf |].
  intros ps H. apply (perform_f_scores df ps _ H Hq).
Qed.

Lemma frequency_score_well_defined_witness :
  Permutation (rank_first (map frequency (aggregate Samples.sample)))
              (ranks_upto (length (aggregate Samples.sample))) /\
  StronglySorted Qlt (f_edges (aggregate Samples.sample)) /\
  unique (f_edges (aggregate Samples.sample)) = f_edges (aggregate Samples.sample) /\
  exists fs,
    f_scores (aggregate Samples.sample) = Ok (map Some fs) /\
    length fs = length (distinct_customers Samples.sample) /\
    Forall (fun s => 1 <= s <= 5) fs /\
    forall ps, perform_rfm_analysis Samples.sample = Ok ps ->
               map f_score ps = map Some fs.
Proof.
  apply (frequency_score_well_defined Samples.sample).
  vm_compute. lia.
Defined.

(** ** The aggregation (C1) *)














(** ** The recency score across two runs (C7) *)

(** Six customers with one purchase each, last seen 0, 1, 5, 2, 3 and 4 days
    before the latest date; and the same purchases with the one of customer
    "c" three days later, so that "c" and "d" are both 2 days old. *)
Definition tied_before : DataFrame :=
  [ Samples.tx "t1" "a" 10 10; Samples.tx "t2" "b" 9 20; Samples.tx "t3" "c" 5 30;
    Samples.tx "t4" "d" 8 40; Samples.tx "t5" "e" 7 50; Samples.tx "t6" "f" 6 60 ]%string%Q.

Definition tied_after : DataFrame :=
  [ Samples.tx "t1" "a" 10 10; Samples.tx "t2" "b" 9 20; Samples.tx "t3" "c" 8 30;
    Samples.tx "t4" "d" 8 40; Samples.tx "t5" "e" 7 50; Samples.tx "t6" "f" 6 60 ]%string%Q.

Definition tied_before_profiles : list profile :=
  Eval vm_compute in
    match Analysis64.perform_rfm_analysis Binary64.sum tied_before with
    | Ok ps => ps
    | Raise _ => []
    end.

Definition tied_after_profiles : list profile :=
  Eval vm_compute in
    match Analysis64.perform_rfm_analysis Binary64.sum tied_after with
    | Ok ps => ps
    | Raise _ => []
    end.

(** The scores of the two runs.  The second column of recencies is 0, 1, 2,
    2, 3, 4: in float64 its edges are six and the run returns. *)
Example tied_runs :
  Analysis64.perform_rfm_analysis Binary64.sum tied_before = Ok tied_before_profiles /\
  Analysis64.perform_rfm_analysis Binary64.sum tied_after = Ok tied_after_profiles /\
  map r_score tied_before_profiles = [Some 5; Some 5; Some 1; Some 4; Some 3; Some 2] /\
  map r_score tied_after_profiles = [Some 5; Some 5; Some 4; Some 4; Some 2; Some 1] /\
  perform_rfm_analysis tied_after = Raise bin_labels_error.
Proof. repeat split; vm_compute; reflexivity. Qed.

Lemma more_recent_rows (ps : list profile) (p : profile) :
  more_recent ps p
  = length (filter (fun y => row_days y <? row_days (row p)) (map row ps)).
Proof.
  unfold more_recent. rewrite filter_map_comm, length_map. reflexivity.
Qed.

(** C7.  Take two tables whose aggregated rows are the same except for the
    recency of one customer, which is strictly smaller in the second (same
    customer, same frequency, same monetary value).  When both runs return,
    the recency score of that customer in the second run is at least the one
    in the first run.  The edges are those of float64; the dates are
    Timestamps of 64 bits and the tables have at most [2^40] rows. *)
Theorem recency_score_monotone (sum : list Q -> Q)
        (df df' : DataFrame) (pre post : list rfm_row) (x x' : rfm_row) (d d' : Z)
        (ps ps' : list profile) (p p' : profile) :
  int64_dates df -> int64_dates df' ->
  Z.of_nat (length df) <= 2 ^ 40 -> Z.of_nat (length df') <= 2 ^ 40 ->
  Analysis64.aggregate sum df = pre ++ x :: post ->
  Analysis64.aggregate sum df' = pre ++ x' :: post ->
  index x' = index x -> frequency x' = frequency x -> monetary x' = monetary x ->
  recency x = Some d -> recency x' = Some d' -> d' < d ->
  Analysis64.perform_rfm_analysis sum df = Ok ps ->
  Analysis64.perform_rfm_analysis sum df' = Ok ps' ->
  nth_error ps (length pre) = Some p ->
  nth_error ps' (length pre) = Some p' ->
  row p = x /\ row p' = x' /\
  exists s s', r_score p = Some s /\ r_score p' = Some s' /\ s <= s'.
Proof.
  intros Hb Hb' Hn Hn' Ha Ha' _ _ _ Hd Hd' Hlt H H' Hp Hp'.
  destruct (perform64_nth sum df ps _ p H Hp) as [_ [_ [Hx _]]].
  destruct (perform64_nth sum df' ps' _ p' H' Hp') as [_ [_ [Hx' _]]].
  rewrite Ha in Hx. rewrite Ha' in Hx'.
  rewrite nth_error_app2, Nat.sub_diag in Hx, Hx' by lia.
  injection Hx as Hx. injection Hx' as Hx'.
  destruct (perform64_r_score sum df ps p Hb Hn H (nth_error_In _ _ Hp)) as [_ [_ Er]].
  destruct (perform64_r_score sum df' ps' p' Hb' Hn' H' (nth_error_In _ _ Hp'))
    as [_ [_ Er']].
  pose proof (perform64_rows sum df ps H) as Hrows.
  pose proof (perform64_rows sum df' ps' H') as Hrows'.
  rewrite Ha in Hrows. rewrite Ha' in Hrows'.
  assert (Hlen : length ps' = length ps).
  { rewrite <- (length_map row ps'), <- (length_map row ps), Hrows, Hrows'.
    rewrite !length_app. reflexivity. }
  assert (Hc : (more_recent ps' p' <= more_recent ps p)%nat).
  { assert (Rx : row_days x = d) by (unfold row_days; rewrite Hd; reflexivity).
    assert (Rx' : row_days x' = d') by (unfold row_days; rewrite Hd'; reflexivity).
    rewrite !more_recent_rows, Hrows, Hrows', <- Hx, <- Hx', Rx, Rx'.
    rewrite !filter_app, !length_app. cbn [filter].
    rewrite Rx, Rx', !Z.ltb_irrefl.
    assert (M : forall y, (row_days y <? d') = true -> (row_days y <? d) = true).
    { intros y. rewrite !Z.ltb_lt. lia. }
    pose proof (filter_length_mono (fun y => row_days y <? d)
                                   (fun y => row_days y <? d') pre M).
    pose proof (filter_length_mono (fun y => row_days y <? d)
                                   (fun y => row_days y <? d') post M).
    lia. }
  split; [symmetry; exact Hx |]. split; [symmetry; exact Hx' |].
  do 2 eexists. split; [exact Er |]. split; [exact Er' |].
  rewrite Hlen. pose proof (quintile_mono (length ps) _ _ Hc). lia.
Qed.

Lemma int64_dates_tied_before : int64_dates tied_before.
Proof.
  intros t d Ht E.
  repeat (destruct Ht as [<- | Ht];
          [cbn in E; injection E as <-;
           split; [vm_compute; discriminate | vm_compute; reflexivity] |]).
  destruct Ht.
Qed.

Lemma int64_dates_tied_after : int64_dates tied_after.
Proof.
  intros t d Ht E.
  repeat (destruct Ht as [<- | Ht];
          [cbn in E; injection E as <-;
           split; [vm_compute; discriminate | vm_compute; reflexivity] |]).
  destruct Ht.
Qed.

Lemma recency_score_monotone_witness :
  row (nth 2 tied_before_profiles sample_champion)
  = nth 2 (Analysis64.aggregate Binary64.sum tied_before) (row sample_champion) /\
  row (nth 2 tied_after_profiles sample_champion)
  = nth 2 (Analysis64.aggregate Binary64.sum tied_after) (row sample_champion) /\
  exists s s',
    r_score (nth 2 tied_before_profiles sample_champion) = Some s /\
    r_score (nth 2 tied_after_profiles sample_champion) = Some s' /\ s <= s'.
Proof.
  apply (recency_score_monotone Binary64.sum tied_before tied_after
           (firstn 2 (Analysis64.aggregate Binary64.sum tied_before))
           (skipn 3 (Analysis64.aggregate Binary64.sum tied_before))
           _ _ 5 2 tied_before_profiles tied_after_profiles).
  - exact int64_dates_tied_before.
  - exact int64_dates_tied_after.
  - vm_compute. discriminate.
  - vm_compute. discriminate.
  - vm_compute. reflexivity.
  - vm_compute. reflexivity.
  - reflexivity.
  - reflexivity.
  - reflexivity.
  - reflexivity.
  - reflexivity.
  - lia.
  - vm_compute. reflexivity.
  - vm_compute. reflexivity.
  - vm_compute. reflexivity.
  - vm_compute. reflexivity.
Defined.

(** * Further properties of the analysis *)

(** ** Churn risk and segment *)

(** X1.  In every profile of a successful run the churn risk is "High"
    exactly when the recency score is 1 or 2, "Medium" exactly when it is 3
    and "Low" exactly when it is 4 or 5; there is no other value. *)
Theorem churn_risk_thresholds (df : DataFrame) (ps : list profile) (p : profile) :
  perform_rfm_analysis df = Ok ps -> In p ps ->
  exists r,
    r_score p = Some r /\ 1 <= r <= 5 /\
    (churn_risk p = "High"%string <-> r <= 2) /\
    (churn_risk p = "Medium"%string <-> r = 3) /\
    (churn_risk p = "Low"%string <-> 4 <= r) /\
    In (churn_risk p) ["High"; "Medium"; "Low"]%string.
Proof.
  intros H Hp.
  destruct (profile_scores _ _ _ H Hp) as [r [f [m [Er [_ [_ [Ir _]]]]]]].
  destruct (perform_ok _ _ H) as [_ [_ [_ [_ [_ [_ [_ Hl]]]]]]].
  rewrite Forall_forall in Hl. destruct (Hl p Hp) as [_ Hc].
  rewrite Er in Hc.
  destruct (churn_risk_spec _ _ Hc) as (H1 & H2 & H3).
  exists r. split; [exact Er |]. simpl in Ir.
  split; [lia |]. split; [exact H1 |]. split; [exact H2 |]. split; [exact H3 |].
  destruct (Z_le_gt_dec r 2) as [L | G].
  - left. symmetry. apply H1. exact L.
  - destruct (Z.eq_dec r 3) as [E | N].
    + right. left. symmetry. apply H2. exact E.
    + right. right. left. symmetry. apply H3. lia.
Qed.

Lemma churn_risk_thresholds_witness :
  exists r,
    r_score sample_champion = Some r /\ 1 <= r <= 5 /\
    (churn_risk sample_champion = "High"%string <-> r <= 2) /\
    (churn_risk sample_champion = "Medium"%string <-> r = 3) /\
    (churn_risk sample_champion = "Low"%string <-> 4 <= r) /\
    In (churn_risk sample_champion) ["High"; "Medium"; "Low"]%string.
Proof.
  exact (churn_risk_thresholds Samples.sample sample_profiles sample_champion
           sample_run sample_champion_in).
Defined.

(** A table of six customers; the last one, "f", bought once, least and
    longest ago. *)
Definition six_customers : DataFrame :=
  [ Samples.tx "t1" "a" 10 50; Samples.tx "t2" "b" 9 40;
    Samples.tx "t3" "c" 8 30; Samples.tx "t4" "d" 7 20;
    Samples.tx "t5" "e" 6 10; Samples.tx "t6" "f" 5 5;
    Samples.tx "t7" "a" 4 1; Samples.tx "t8" "b" 4 1;
    Samples.tx "t9" "c" 4 1; Samples.tx "t10" "d" 4 1;
    Samples.tx "t11" "e" 4 1 ]%Q.

Definition six_profiles : list profile :=
  Eval vm_compute in
    match perform_rfm_analysis six_customers with
    | Ok ps => ps
    | Raise _ => []
    end.

Definition sample_lost : profile :=
  Eval vm_compute in nth 5 six_profiles sample_champion.

Lemma six_run : perform_rfm_analysis six_customers = Ok six_profiles.
Proof. vm_compute. reflexivity. Defined.

Lemma sample_lost_in : In sample_lost six_profiles.
Proof. do 5 right. left. reflexivity. Defined.

Definition sample_best : profile :=
  Eval vm_compute in nth 0 six_profiles sample_champion.

Lemma sample_best_in : In sample_best six_profiles.
Proof. left. reflexivity. Defined.

(** X2.  A profile of the segment "Lost Customers" has churn risk "High":
    a total below 5 leaves at most 2 for the recency score. *)
Theorem lost_customers_high_risk (df : DataFrame) (ps : list profile) (p : profile) :
  perform_rfm_analysis df = Ok ps -> In p ps ->
  segment p = "Lost Customers"%string ->
  churn_risk p = "High"%string /\ exists r, r_score p = Some r /\ r <= 2.
Proof.
  intros H Hp Hseg.
  destruct (profile_scores _ _ _ H Hp) as [r [f [m [Er [Ef [Em [Ir [If Im]]]]]]]].
  destruct (perform_ok _ _ H) as [_ [_ [_ [_ [_ [_ [_ Hl]]]]]]].
  rewrite Forall_forall in Hl. destruct (Hl p Hp) as [Hs Hc].
  rewrite Er, Ef, Em in Hs. rewrite Er in Hc.
  destruct (segment_customers_spec _ _ _ _ Hs) as (_ & _ & _ & _ & Hlost).
  destruct (churn_risk_spec _ _ Hc) as (Hhigh & _ & _).
  apply Hlost in Hseg. unfold total_score in Hseg. simpl in Ir, If, Im.
  assert (Hr : r <= 2) by lia.
  split; [apply Hhigh; exact Hr | exists r; split; [exact Er | exact Hr]].
Qed.

Lemma lost_customers_high_risk_witness :
  churn_risk sample_lost = "High"%string /\ exists r, r_score sample_lost = Some r /\ r <= 2.
Proof.
  exact (lost_customers_high_risk six_customers six_profiles sample_lost
           six_run sample_lost_in eq_refl).
Defined.

(** ** The scores of a run in binary64

    The theorems of this part are about [Analysis64.perform_rfm_analysis]:
    the edges of the bins are computed in binary64, as [numpy] computes
    them, and the function that adds the amounts of a group is a parameter.
    The table of six customers is scored alike in both layers. *)

Lemma six_run64 :
  Analysis64.perform_rfm_analysis Binary64.sum six_customers = Ok six_profiles.
Proof. vm_compute. reflexivity. Defined.

Lemma six_dates : int64_dates six_customers.
Proof. apply int64_dates_check. vm_compute. reflexivity. Defined.

Lemma six_amounts :
  Forall int_cell (map monetary (Analysis64.aggregate Binary64.sum six_customers)).
Proof. apply whole_int_cell. vm_compute. reflexivity. Defined.

(** X3.  In a run that returns, on a table of at most [2 ^ 40] rows whose
    customers all have a whole number of at most [2 ^ 48] as monetary
    value, the monetary score of a customer is the least [s] in 1..5 with
    [5 c <= s (n - 1)], where [n] is the number of customers and [c] the
    number of customers whose monetary value is strictly smaller: the score
    depends on the other customers only through that count. *)
Theorem monetary_score_closed_form
        (sum : list Q -> Q) (df : DataFrame) (ps : list profile) (p : profile) :
  Forall int_cell (map monetary (Analysis64.aggregate sum df)) ->
  Z.of_nat (length df) <= 2 ^ 40 ->
  Analysis64.perform_rfm_analysis sum df = Ok ps -> In p ps ->
  exists s : nat,
    m_score p = Some (Z.of_nat s) /\
    (1 <= s <= 5)%nat /\
    (5 * poorer ps p <= s * (length ps - 1))%nat /\
    (2 <= s -> (s - 1) * (length ps - 1) < 5 * poorer ps p)%nat.
Proof.
  intros Hw Hn H Hp. destruct (perform64_m_score sum df ps p Hw Hn H Hp) as [Hc Hm].
  exists (quintile (length ps) (poorer ps p)).
  split; [exact Hm | apply quintile_spec; exact Hc].
Qed.

Lemma monetary_score_closed_form_witness :
  exists s : nat,
    m_score sample_lost = Some (Z.of_nat s) /\
    (1 <= s <= 5)%nat /\
    (5 * poorer six_profiles sample_lost <= s * (length six_profiles - 1))%nat /\
    (2 <= s -> (s - 1) * (length six_profiles - 1) < 5 * poorer six_profiles sample_lost)%nat.
Proof.
  apply (monetary_score_closed_form Binary64.sum six_customers six_profiles sample_lost).
  - exact six_amounts.
  - vm_compute. discriminate.
  - exact six_run64.
  - exact sample_lost_in.
Defined.

(** X4.  In a run that returns, on a table of at most [2 ^ 40] rows whose
    dates fit 64 bits, every customer has a recency, and the recency score
    of a customer is [6 - s] for the least [s] in 1..5 with
    [5 c <= s (n - 1)], where [n] is the number of customers and [c] the
    number of customers whose recency is strictly smaller. *)
Theorem recency_score_closed_form
        (sum : list Q -> Q) (df : DataFrame) (ps : list profile) (p : profile) :
  int64_dates df -> Z.of_nat (length df) <= 2 ^ 40 ->
  Analysis64.perform_rfm_analysis sum df = Ok ps -> In p ps ->
  exists (d : Z) (s : nat),
    recency (row p) = Some d /\
    r_score p = Some (6 - Z.of_nat s) /\
    (1 <= s <= 5)%nat /\
    (5 * more_recent ps p <= s * (length ps - 1))%nat /\
    (2 <= s -> (s - 1) * (length ps - 1) < 5 * more_recent ps p)%nat.
Proof.
  intros Hb Hn H Hp. destruct (perform64_r_score sum df ps p Hb Hn H Hp) as [Hc [Hd Hr]].
  exists (row_days (row p)), (quintile (length ps) (more_recent ps p)).
  split; [exact Hd |]. split; [exact Hr | apply quintile_spec; exact Hc].
Qed.

Lemma recency_score_closed_form_witness :
  exists (d : Z) (s : nat),
    recency (row sample_lost) = Some d /\
    r_score sample_lost = Some (6 - Z.of_nat s) /\
    (1 <= s <= 5)%nat /\
    (5 * more_recent six_profiles sample_lost <= s * (length six_profiles - 1))%nat /\
    (2 <= s -> (s - 1) * (length six_profiles - 1)
               < 5 * more_recent six_profiles sample_lost)%nat.
Proof.
  apply (recency_score_closed_form Binary64.sum six_customers six_profiles sample_lost).
  - exact six_dates.
  - vm_compute. discriminate.
  - exact six_run64.
  - exact sample_lost_in.
Defined.

(** X5.  Within one run that returns, on a table of at most [2 ^ 40] rows
    whose dates fit 64 bits, the recency scores follow the order of the
    recencies: a customer whose last purchase is no older than another's has
    no lower recency score.  When moreover the monetary values are whole
    numbers of at most [2 ^ 48], the monetary scores follow the order of the
    monetary values. *)
Theorem scores_follow_order
        (sum : list Q -> Q) (df : DataFrame) (ps : list profile) (p p' : profile) :
  int64_dates df -> Z.of_nat (length df) <= 2 ^ 40 ->
  Analysis64.perform_rfm_analysis sum df = Ok ps -> In p ps -> In p' ps ->
  exists r r' m m',
    r_score p = Some r /\ r_score p' = Some r' /\
    m_score p = Some m /\ m_score p' = Some m' /\
    (row_days (row p) <= row_days (row p') -> r' <= r) /\
    (Forall int_cell (map monetary (Analysis64.aggregate sum df)) ->
     (monetary (row p) <= monetary (row p'))%Q -> m <= m').
Proof.
  intros Hb Hn H Hp Hp'.
  destruct (perform64_r_score sum df ps p Hb Hn H Hp) as [_ [_ Hr]].
  destruct (perform64_r_score sum df ps p' Hb Hn H Hp') as [_ [_ Hr']].
  destruct (profile64_scores sum df ps p H Hp) as [r0 [f0 [m [_ [_ [Hm _]]]]]].
  destruct (profile64_scores sum df ps p' H Hp') as [r1 [f1 [m' [_ [_ [Hm' _]]]]]].
  do 2 eexists. exists m, m'.
  split; [exact Hr |]. split; [exact Hr' |]. split; [exact Hm |]. split; [exact Hm' |].
  split.
  - intros Hle.
    assert (C : (more_recent ps p <= more_recent ps p')%nat).
    { apply filter_length_mono. intros a. rewrite !Z.ltb_lt. lia. }
    pose proof (quintile_mono (length ps) _ _ C). lia.
  - intros Hw Hle.
    destruct (perform64_m_score sum df ps p Hw Hn H Hp) as [_ Em].
    destruct (perform64_m_score sum df ps p' Hw Hn H Hp') as [_ Em'].
    rewrite Hm in Em. rewrite Hm' in Em'. injection Em as ->. injection Em' as ->.
    assert (C : (poorer ps p <= poorer ps p')%nat).
    { apply filter_length_mono. intros a. rewrite !below_iff. lra. }
    pose proof (quintile_mono (length ps) _ _ C). lia.
Qed.

Lemma scores_follow_order_witness :
  exists r r' m m',
    r_score sample_lost = Some r /\ r_score sample_best = Some r' /\
    m_score sample_lost = Some m /\ m_score sample_best = Some m' /\
    r <= r' /\ m <= m'.
Proof.
  destruct (scores_follow_order Binary64.sum six_customers six_profiles
              sample_best sample_lost six_dates ltac:(vm_compute; discriminate)
              six_run64 sample_best_in sample_lost_in)
    as [r' [r [m' [m [Hr' [Hr [Hm' [Hm [Ho Hq]]]]]]]]].
  exists r, r', m, m'.
  split; [exact Hr |]. split; [exact Hr' |]. split; [exact Hm |]. split; [exact Hm' |].
  vm_compute in Hr, Hr', Hm, Hm'.
  injection Hr as <-. injection Hr' as <-. injection Hm as <-. injection Hm' as <-.
  split; discriminate.
Defined.

(** ** The two ends of a column *)

(** X6.  In a run that returns, on a table of at most [2 ^ 53] rows and with
    sums that are binary64 numbers, a customer whose monetary value is the
    smallest has monetary score 1 and a customer whose monetary value is the
    largest has monetary score 5. *)
Theorem monetary_extremes
        (sum : list Q -> Q) (df : DataFrame) (ps : list profile) (lo hi : profile) :
  (forall l, representable (sum l)) ->
  Z.of_nat (length df) <= 2 ^ 53 ->
  Analysis64.perform_rfm_analysis sum df = Ok ps -> In lo ps -> In hi ps ->
  (forall p, In p ps ->
             (monetary (row lo) <= monetary (row p) <= monetary (row hi))%Q) ->
  m_score lo = Some 1 /\ m_score hi = Some 5.
Proof.
  intros Hs Hn H Hlo Hhi Hb.
  destruct (monetary_ends sum df ps lo Hs Hn H Hlo) as [L _].
  destruct (monetary_ends sum df ps hi Hs Hn H Hhi) as [_ U].
  split; [apply L | apply U]; intros p Hp; apply (Hb p Hp).
Qed.

Lemma monetary_extremes_witness :
  m_score sample_lost = Some 1 /\ m_score sample_best = Some 5.
Proof.
  apply (monetary_extremes Binary64.sum six_customers six_profiles sample_lost sample_best).
  - exact sum_representable.
  - vm_compute. discriminate.
  - exact six_run64.
  - exact sample_lost_in.
  - exact sample_best_in.
  - intros p Hp. unfold six_profiles in Hp. simpl in Hp.
    destruct Hp as [<- | [<- | [<- | [<- | [<- | [<- | []]]]]]];
      split; unfold Qle; simpl; lia.
Defined.

(** X7.  In a run that returns, on a table of at most [2 ^ 53] rows whose
    dates fit 64 bits, a customer whose recency is the smallest has recency
    score 5 and churn risk "Low", and a customer whose recency is the
    largest has recency score 1 and churn risk "High". *)
Theorem recency_extremes
        (sum : list Q -> Q) (df : DataFrame) (ps : list profile) (lo hi : profile) :
  int64_dates df -> Z.of_nat (length df) <= 2 ^ 53 ->
  Analysis64.perform_rfm_analysis sum df = Ok ps -> In lo ps -> In hi ps ->
  (forall p, In p ps ->
             row_days (row lo) <= row_days (row p) <= row_days (row hi)) ->
  r_score lo = Some 5 /\ churn_risk lo = "Low"%string /\
  r_score hi = Some 1 /\ churn_risk hi = "High"%string.
Proof.
  intros Hd Hn H Hlo Hhi Hb.
  destruct (recency_ends sum df ps lo Hd Hn H Hlo) as [L _].
  destruct (recency_ends sum df ps hi Hd Hn H Hhi) as [_ U].
  destruct L as [L1 L2]; [intros p Hp; apply (Hb p Hp) |].
  destruct U as [U1 U2]; [intros p Hp; apply (Hb p Hp) |].
  repeat split; assumption.
Qed.

Lemma recency_extremes_witness :
  r_score sample_best = Some 5 /\ churn_risk sample_best = "Low"%string /\
  r_score sample_lost = Some 1 /\ churn_risk sample_lost = "High"%string.
Proof.
  apply (recency_extremes Binary64.sum six_customers six_profiles sample_best sample_lost).
  - exact six_dates.
  - vm_compute. discriminate.
  - exact six_run64.
  - exact sample_best_in.
  - exact sample_lost_in.
  - intros p Hp. unfold six_profiles in Hp. simpl in Hp.
    destruct Hp as [<- | [<- | [<- | [<- | [<- | [<- | []]]]]]];
      split; vm_compute; discriminate.
Defined.

(** ** The frequency score in closed form *)

(** The labels of a column without missing cell, when [qcut] returns. *)
Lemma qcut_column_closed (xs : list Q) (labels : list Z) (res : list (option Z)) :
  length labels = 5%nat ->
  qcut (map Some xs) 5 labels = Ok res ->
  res = map (fun v => nth_error labels
                        (quintile (length xs) (count (below v) xs) - 1)) xs.
Proof.
  intros Hl H. destruct xs as [| x0 xs'] eqn:Exs.
  - unfold qcut in H. simpl in H. rewrite Hl in H. discriminate.
  - rewrite <- Exs in *.
    apply qcut_full in H;
      [| rewrite dropna_map_Some, Exs; discriminate | lia | exact Hl].
    destruct H as [-> _]. rewrite dropna_map_Some, map_map.
    apply map_ext_in. intros v Hv. unfold cut1.
    rewrite quantile_edges_length, (bucket_closed xs v Hv).
    pose proof (bucket_bounds xs v Hv) as Bd.
    destruct (Nat.eqb_spec (quintile (length xs) (count (below v) xs)) 6); [lia |].
    destruct (Nat.eqb_spec (quintile (length xs) (count (below v) xs)) 0); [lia |].
    reflexivity.
Qed.

Lemma quintile_unique (n c s : nat) :
  (c <= n - 1)%nat -> (1 <= s <= 5)%nat ->
  (5 * c <= s * (n - 1))%nat -> (2 <= s -> (s - 1) * (n - 1) < 5 * c)%nat ->
  quintile n c = s.
Proof.
  intros Hc Hs H1 H2.
  destruct (quintile_spec n c Hc) as [B [Q1 Q2]].
  destruct (Nat.lt_trichotomy (quintile n c) s) as [L | [E | G]]; [| exact E |].
  - exfalso. assert (2 <= s)%nat by lia. specialize (H2 ltac:(lia)). nia.
  - exfalso. assert (2 <= quintile n c)%nat by lia. specialize (Q2 ltac:(lia)). nia.
Qed.

(** The ranks of a column, split at two cells: the cell that is smaller, or
    equal and earlier, has the smaller rank. *)
Lemma rank_at_order (l1 l2 l3 : list Z) (vi vj : Z) :
  (vi <= vj ->
   rank_at (l1 ++ vi :: l2 ++ vj :: l3) (length l1)
   < rank_at (l1 ++ vi :: l2 ++ vj :: l3) (length (l1 ++ vi :: l2))) /\
  (vj < vi ->
   rank_at (l1 ++ vi :: l2 ++ vj :: l3) (length (l1 ++ vi :: l2))
   < rank_at (l1 ++ vi :: l2 ++ vj :: l3) (length l1)).
Proof.
  assert (Ri : rank_at (l1 ++ vi :: l2 ++ vj :: l3) (length l1)
               = 1 + countZ (fun y => y <=? vi) l1
                 + (countZ (fun y => y <? vi) l2 + (if vj <? vi then 1 else 0)
                    + countZ (fun y => y <? vi) l3)).
  { rewrite rank_at_split.
    rewrite countZ_app. change (vj :: l3) with ([vj] ++ l3). rewrite countZ_app.
    unfold countZ at 3. cbn [app filter]. destruct (vj <? vi); cbn [length]; lia. }
  assert (Rj : rank_at (l1 ++ vi :: l2 ++ vj :: l3) (length (l1 ++ vi :: l2))
               = 1 + (countZ (fun y => y <=? vj) l1 + (if vi <=? vj then 1 else 0)
                      + countZ (fun y => y <=? vj) l2)
                 + countZ (fun y => y <? vj) l3).
  { replace (l1 ++ vi :: l2 ++ vj :: l3) with ((l1 ++ vi :: l2) ++ vj :: l3)
      by (rewrite <- app_assoc; reflexivity).
    rewrite rank_at_split, countZ_app.
    change (vi :: l2) with ([vi] ++ l2). rewrite countZ_app.
    unfold countZ at 2. cbn [app filter]. destruct (vi <=? vj); cbn [length]; lia. }
  rewrite Ri, Rj. clear Ri Rj. split; intros Hv.
  - assert ((vj <? vi) = false) as -> by (apply Z.ltb_ge; exact Hv).
    assert ((vi <=? vj) = true) as -> by (apply Z.leb_le; exact Hv).
    pose proof (countZ_mono (fun y => y <=? vj) (fun y => y <=? vi) l1) as M1.
    pose proof (countZ_mono (fun y => y <=? vj) (fun y => y <? vi) l2) as M2.
    pose proof (countZ_mono (fun y => y <? vj) (fun y => y <? vi) l3) as M3.
    specialize (M1 ltac:(intros y; rewrite !Z.leb_le; lia)).
    specialize (M2 ltac:(intros y; rewrite Z.ltb_lt, Z.leb_le; lia)).
    specialize (M3 ltac:(intros y; rewrite !Z.ltb_lt; lia)).
    lia.
  - assert ((vj <? vi) = true) as -> by (apply Z.ltb_lt; exact Hv).
    assert ((vi <=? vj) = false) as -> by (apply Z.leb_gt; exact Hv).
    pose proof (countZ_mono (fun y => y <=? vi) (fun y => y <=? vj) l1) as M1.
    pose proof (countZ_mono (fun y => y <? vi) (fun y => y <=? vj) l2) as M2.
    pose proof (countZ_mono (fun y => y <? vi) (fun y => y <? vj) l3) as M3.
    specialize (M1 ltac:(intros y; rewrite !Z.leb_le; lia)).
    specialize (M2 ltac:(intros y; rewrite Z.ltb_lt, Z.leb_le; lia)).
    specialize (M3 ltac:(intros y; rewrite !Z.ltb_lt; lia)).
    lia.
Qed.

Lemma rank_at_increasing (x : list Z) (i j : nat) :
  (i < j)%nat -> (j < length x)%nat ->
  (nth i x 0 <= nth j x 0 -> rank_at x i < rank_at x j) /\
  (nth j x 0 < nth i x 0 -> rank_at x j < rank_at x i).
Proof.
  intros Hij Hj.
  destruct (nth_split x 0 Hj) as [m1 [l3 [E L]]].
  assert (Hi : (i < length m1)%nat) by lia.
  destruct (nth_split m1 0 Hi) as [l1 [l2 [E1 L1]]].
  assert (Ei : nth i x 0 = nth i m1 0).
  { rewrite E at 1. apply app_nth1. exact Hi. }
  rewrite Ei. remember (nth j x 0) as vj eqn:Evj. remember (nth i m1 0) as vi eqn:Evi.
  clear Evj Evi Ei Hi Hj Hij. subst m1 x i j.
  rewrite <- app_assoc. cbn [app].
  apply rank_at_order.
Qed.

(** The frequency scores, when [f_scores] returns: the score of a row is the
    bucket of its rank. *)
Lemma f_scores_closed (rfm : list rfm_row) (fs : list (option Z)) :
  f_scores rfm = Ok fs ->
  fs = map (fun z => Some (Z.of_nat (quintile (length rfm) (Z.to_nat (z - 1)))))
           (rank_first (map frequency rfm)).
Proof.
  intros H. unfold f_scores in H.
  set (rk := rank_first (map frequency rfm)) in *.
  rewrite <- (map_map inject_Z Some) in H.
  apply qcut_column_closed in H; [| reflexivity].
  rewrite map_map in H. rewrite H. clear H.
  assert (Hlen : length rk = length rfm).
  { unfold rk. rewrite rank_first_length, length_map. reflexivity. }
  assert (Hp : Permutation rk (ranks_upto (length rfm))).
  { unfold rk. rewrite <- (length_map frequency rfm). apply rank_first_perm. }
  assert (Hx : Permutation (map inject_Z rk) (rank_column (length rfm))).
  { unfold rank_column. apply Permutation_map. exact Hp. }
  apply map_ext_in. intros z Hz. rewrite length_map, Hlen.
  assert (Hin : In (inject_Z z) (rank_column (length rfm))).
  { apply (Permutation_in _ Hx). apply in_map. exact Hz. }
  destruct (rank_column_In _ _ Hin) as [m [Em Hm]].
  assert (Ez : z = Z.of_nat m).
  { unfold inject_Z in Em. injection Em as Em. exact Em. }
  subst z. rewrite (count_perm _ _ _ Hx), count_below_ranks.
  rewrite Nat.min_l by lia.
  replace (Z.to_nat (Z.of_nat m - 1)) with (m - 1)%nat by lia.
  apply nth_error_ascending. apply quintile_spec. lia.
Qed.

Lemma nth_error_seq (n i : nat) : (i < n)%nat -> nth_error (seq 0 n) i = Some i.
Proof.
  intros H. rewrite (nth_error_nth' _ 0%nat) by (rewrite length_seq; exact H).
  rewrite seq_nth by exact H. reflexivity.
Qed.

(** The frequency score of the profile at position [i] of a successful
    run. *)
Lemma perform_f_score (df : DataFrame) (ps : list profile) (i : nat) (p : profile) :
  perform_rfm_analysis df = Ok ps -> nth_error ps i = Some p ->
  1 <= rank_at (map (fun p' => frequency (row p')) ps) i <= Z.of_nat (length ps) /\
  f_score p
  = Some (Z.of_nat (quintile (length ps)
                      (Z.to_nat (rank_at (map (fun p' => frequency (row p')) ps) i - 1)))).
Proof.
  intros H Hp.
  assert (Hi : (i < length ps)%nat) by (apply nth_error_Some; rewrite Hp; discriminate).
  destruct (perform_ok _ _ H) as [rs [fs [ms [_ [Hf [_ [Hz _]]]]]]].
  pose proof (perform_rows df ps H) as Hrows.
  pose proof (f_scores_closed _ _ Hf) as Hfs.
  rewrite <- Hrows in Hfs. rewrite map_map, length_map in Hfs.
  set (freqs := map (fun p' => frequency (row p')) ps) in *.
  assert (Hfl : length freqs = length ps) by (unfold freqs; apply length_map).
  split.
  - rewrite <- Hfl. apply rank_at_bounds. lia.
  - assert (Hn : nth_error (zip_scores (aggregate df) rs fs ms) i = Some (scores_of p)).
    { rewrite <- Hz. apply map_nth_error. exact Hp. }
    unfold scores_of in Hn. apply zip_scores_nth in Hn. destruct Hn as [_ [_ [Hn _]]].
    rewrite Hfs in Hn. unfold rank_first in Hn. rewrite map_map in Hn.
    assert (Hs : nth_error (seq 0 (length freqs)) i = Some i) by (apply nth_error_seq; lia).
    rewrite (map_nth_error _ i (seq 0 (length freqs)) Hs) in Hn.
    injection Hn as Hn. symmetry. exact Hn.
Qed.

(** X8.  In a successful run on [n] customers the frequency score of a
    customer is the least [s] in 1..5 with [5 (k - 1) <= s (n - 1)], where
    [k] is the rank of the customer by frequency, ties ranked in the order
    of the rows of the result (ascending customer id). *)
Theorem frequency_score_closed_form
        (df : DataFrame) (ps : list profile) (i : nat) (p : profile) :
  perform_rfm_analysis df = Ok ps -> nth_error ps i = Some p ->
  exists (k : Z) (s : nat),
    k = rank_at (map (fun p' => frequency (row p')) ps) i /\
    1 <= k <= Z.of_nat (length ps) /\
    f_score p = Some (Z.of_nat s) /\
    (1 <= s <= 5)%nat /\
    5 * (k - 1) <= Z.of_nat s * (Z.of_nat (length ps) - 1) /\
    ((2 <= s)%nat -> (Z.of_nat s - 1) * (Z.of_nat (length ps) - 1) < 5 * (k - 1)).
Proof.
  intros H Hp. destruct (perform_f_score df ps i p H Hp) as [Hk Hf].
  set (k := rank_at (map (fun p' => frequency (row p')) ps) i) in *.
  exists k, (quintile (length ps) (Z.to_nat (k - 1))).
  destruct (quintile_spec (length ps) (Z.to_nat (k - 1)) ltac:(lia)) as [B [Q1 Q2]].
  split; [reflexivity |]. split; [exact Hk |]. split; [exact Hf |]. split; [exact B |].
  split; [nia |]. intros H2. specialize (Q2 H2). nia.
Qed.

Lemma frequency_score_closed_form_witness :
  exists (k : Z) (s : nat),
    k = rank_at (map (fun p' => frequency (row p')) six_profiles) 5 /\
    1 <= k <= Z.of_nat (length six_profiles) /\
    f_score sample_lost = Some (Z.of_nat s) /\
    (1 <= s <= 5)%nat /\
    5 * (k - 1) <= Z.of_nat s * (Z.of_nat (length six_profiles) - 1) /\
    ((2 <= s)%nat ->
     (Z.of_nat s - 1) * (Z.of_nat (length six_profiles) - 1) < 5 * (k - 1)).
Proof.
  apply (frequency_score_closed_form six_customers six_profiles 5 sample_lost).
  - exact six_run.
  - reflexivity.
Defined.

(** X9.  Within one successful run the frequency scores follow the order of
    the frequencies, and among customers of equal frequency the order of the
    rows: a customer with fewer purchases, or as many and an earlier row, has
    no higher frequency score. *)
Theorem frequency_scores_follow_order
        (df : DataFrame) (ps : list profile) (i j : nat) (p p' : profile) :
  perform_rfm_analysis df = Ok ps ->
  nth_error ps i = Some p -> nth_error ps j = Some p' ->
  frequency (row p) < frequency (row p') \/
  (frequency (row p) = frequency (row p') /\ (i <= j)%nat) ->
  exists f f', f_score p = Some f /\ f_score p' = Some f' /\ f <= f'.
Proof.
  intros H Hp Hp' Hord.
  destruct (perform_f_score df ps i p H Hp) as [Hk Hf].
  destruct (perform_f_score df ps j p' H Hp') as [Hk' Hf'].
  set (freqs := map (fun p' => frequency (row p')) ps) in *.
  assert (Hi : (i < length freqs)%nat).
  { unfold freqs. rewrite length_map. apply nth_error_Some. rewrite Hp. discriminate. }
  assert (Hj : (j < length freqs)%nat).
  { unfold freqs. rewrite length_map. apply nth_error_Some. rewrite Hp'. discriminate. }
  assert (Ei : nth i freqs 0 = frequency (row p)).
  { apply nth_error_nth. unfold freqs.
    apply (map_nth_error (fun p' => frequency (row p'))). exact Hp. }
  assert (Ej : nth j freqs 0 = frequency (row p')).
  { apply nth_error_nth. unfold freqs.
    apply (map_nth_error (fun p' => frequency (row p'))). exact Hp'. }
  assert (Hr : rank_at freqs i <= rank_at freqs j).
  { destruct (Nat.lt_trichotomy i j) as [L | [E | G]].
    - destruct (rank_at_increasing freqs i j L Hj) as [A _].
      rewrite Ei, Ej in A. specialize (A ltac:(lia)). lia.
    - subst j. lia.
    - destruct (rank_at_increasing freqs j i G Hi) as [_ B].
      rewrite Ei, Ej in B. specialize (B ltac:(lia)). lia. }
  do 2 eexists. split; [exact Hf |]. split; [exact Hf' |].
  pose proof (quintile_mono (length ps) (Z.to_nat (rank_at freqs i - 1))
                (Z.to_nat (rank_at freqs j - 1)) ltac:(lia)).
  lia.
Qed.

Lemma frequency_scores_follow_order_witness :
  exists f f', f_score sample_lost = Some f /\ f_score sample_best = Some f' /\ f <= f'.
Proof.
  apply (frequency_scores_follow_order six_customers six_profiles 5 0
           sample_lost sample_best).
  - exact six_run.
  - reflexivity.
  - reflexivity.
  - left. vm_compute. reflexivity.
Defined.

(** The frequency scores of a column of [n] rows, in the order of the
    ranks. *)
Definition rank_scores (n : nat) : list (option Z) :=
  map (fun z => Some (Z.of_nat (quintile n (Z.to_nat (z - 1))))) (ranks_upto n).

Lemma perform_f_distribution (df : DataFrame) (ps : list profile) :
  perform_rfm_analysis df = Ok ps ->
  Permutation (map f_score ps) (rank_scores (length ps)).
Proof.
  intros H.
  destruct (perform_ok _ _ H) as [_ [fs [_ [_ [Hf _]]]]].
  rewrite (perform_f_scores df ps fs H Hf).
  rewrite (f_scores_closed _ _ Hf).
  assert (Hn : length (aggregate df) = length ps).
  { rewrite <- (perform_rows df ps H). apply length_map. }
  rewrite Hn. unfold rank_scores. apply Permutation_map.
  rewrite <- Hn, <- (length_map frequency (aggregate df)). apply rank_first_perm.
Qed.

(** X10.  The frequency scores of a successful run depend on the number of
    customers alone: two successful runs on as many customers give the same
    frequency scores, up to the order, whatever the frequencies. *)
Theorem frequency_scores_fixed_by_count
        (df df' : DataFrame) (ps ps' : list profile) :
  perform_rfm_analysis df = Ok ps -> perform_rfm_analysis df' = Ok ps' ->
  length ps = length ps' ->
  Permutation (map f_score ps) (map f_score ps').
Proof.
  intros H H' Hn.
  apply (Permutation_trans (perform_f_distribution df ps H)).
  rewrite Hn. apply Permutation_sym. apply (perform_f_distribution df' ps' H').
Qed.

Lemma frequency_scores_fixed_by_count_witness :
  Permutation (map f_score sample_profiles) (map f_score sample_later_profiles).
Proof.
  apply (frequency_scores_fixed_by_count Samples.sample Samples.sample_later).
  - exact sample_run.
  - vm_compute. reflexivity.
  - reflexivity.
Defined.

(** X11.  With five customers or more, every frequency score from 1 to 5 is
    given to some customer of a successful run, also when all customers have
    the same frequency. *)
Theorem every_frequency_score_occurs (df : DataFrame) (ps : list profile) (s : Z) :
  perform_rfm_analysis df = Ok ps -> (5 <= length ps)%nat -> 1 <= s <= 5 ->
  exists p, In p ps /\ f_score p = Some s.
Proof.
  intros H Hn Hs.
  set (n := length ps) in *.
  set (c := (Z.to_nat s * (n - 1) / 5)%nat).
  assert (Hdm : (Z.to_nat s * (n - 1) = 5 * c + (Z.to_nat s * (n - 1)) mod 5)%nat)
    by (apply Nat.div_mod_eq).
  assert (Hr : ((Z.to_nat s * (n - 1)) mod 5 < 5)%nat) by (apply Nat.mod_upper_bound; lia).
  assert (Hq : quintile n c = Z.to_nat s).
  { apply quintile_unique; [nia | lia | lia |]. intros H2.
    assert (Z.to_nat s = 2 \/ Z.to_nat s = 3 \/ Z.to_nat s = 4 \/ Z.to_nat s = 5)%nat
      as [E | [E | [E | E]]] by lia; rewrite E in *; lia. }
  assert (Hin : In (Some s) (rank_scores n)).
  { unfold rank_scores, ranks_upto. rewrite map_map. apply in_map_iff.
    exists (S c). split.
    - replace (Z.to_nat (Z.of_nat (S c) - 1)) with c by lia.
      rewrite Hq. f_equal. lia.
    - apply in_seq. nia. }
  apply (Permutation_in _ (Permutation_sym (perform_f_distribution df ps H))) in Hin.
  apply in_map_iff in Hin. destruct Hin as [p [Ep Hp]].
  exists p. split; [exact Hp | exact Ep].
Qed.

Lemma every_frequency_score_occurs_witness :
  exists p, In p sample_profiles /\ f_score p = Some 3.
Proof.
  apply (every_frequency_score_occurs Samples.sample sample_profiles 3).
  - exact sample_run.
  - vm_compute. lia.
  - lia.
Defined.

(** ** Tables that cannot be scored *)

Lemma m_raise_perform (df : DataFrame) :
  m_scores (aggregate df) = Raise bin_labels_error ->
  perform_rfm_analysis df = Raise bin_labels_error.
Proof.
  intros Hm. unfold perform_rfm_analysis.
  destruct (r_scores (aggregate df)) as [rs | e] eqn:Hr;
    [| apply qcut_raise in Hr; subst e; reflexivity].
  destruct (f_scores (aggregate df)) as [fs | e] eqn:Hf;
    [| apply qcut_raise in Hf; subst e; reflexivity].
  rewrite Hm. reflexivity.
Qed.

(** X12.  A table with fewer than two distinct customers is never scored:
    the run raises the ValueError of the bin labels. *)
Theorem fewer_than_two_customers_raises (df : DataFrame) :
  (length (distinct_customers df) < 2)%nat ->
  perform_rfm_analysis df = Raise bin_labels_error.
Proof.
  intros Hn. rewrite <- aggregate_length in Hn.
  apply m_raise_perform. unfold m_scores.
  rewrite <- (map_map monetary Some).
  apply qcut_constant_raises; [reflexivity |].
  intros u v Hu Hv.
  destruct (map monetary (aggregate df)) as [| a [| b t]] eqn:E.
  - contradiction.
  - destruct Hu as [<- | []]. destruct Hv as [<- | []]. reflexivity.
  - apply (f_equal (@length Q)) in E. rewrite length_map in E. simpl in E. lia.
Qed.

Lemma fewer_than_two_customers_raises_witness :
  perform_rfm_analysis [Samples.tx "t1" "a" 1 10; Samples.tx "t2" "a" 2 20]%Q
  = Raise bin_labels_error.
Proof.
  apply (fewer_than_two_customers_raises
           [Samples.tx "t1" "a" 1 10; Samples.tx "t2" "a" 2 20]%Q).
  vm_compute. lia.
Defined.

(** ** What the aggregation keeps *)

Definition has_customer (t : transaction) : bool :=
  match customer_id t with Some _ => true | None => false end.

Definition key_in (K : list string) (t : transaction) : bool :=
  match customer_id t with
  | Some c => existsb (String.eqb c) K
  | None => false
  end.

Definition sumZ (l : list Z) : Z := fold_right Z.add 0 l.

Lemma existsb_eqb_In (c : string) (K : list string) :
  existsb (String.eqb c) K = true <-> In c K.
Proof.
  rewrite existsb_exists. split.
  - intros [k [Hk E]]. apply String.eqb_eq in E. subst k. exact Hk.
  - intros H. exists c. split; [exact H | apply String.eqb_refl].
Qed.

Lemma key_in_Some (K : list string) (t : transaction) (c : string) :
  customer_id t = Some c -> key_in K t = existsb (String.eqb c) K.
Proof. intros E. unfold key_in. rewrite E. reflexivity. Qed.

Lemma key_in_None (K : list string) (t : transaction) :
  customer_id t = None -> key_in K t = false.
Proof. intros E. unfold key_in. rewrite E. reflexivity. Qed.

Lemma group_cons (t : transaction) (df : DataFrame) (c : string) :
  group (t :: df) c
  = match customer_id t with
    | Some c' => if String.eqb c c' then t :: group df c else group df c
    | None => group df c
    end.
Proof. unfold group. cbn [filter]. destruct (customer_id t); reflexivity. Qed.

(** The rows of one more group. *)
Lemma group_cons_perm (df : DataFrame) (c : string) (K : list string) :
  ~ In c K ->
  Permutation (group df c ++ filter (key_in K) df) (filter (key_in (c :: K)) df).
Proof.
  intros Hc. induction df as [| t df IH]; [constructor |].
  rewrite group_cons. cbn [filter].
  destruct (customer_id t) as [c' |] eqn:Ec.
  - rewrite (key_in_Some K t c' Ec), (key_in_Some (c :: K) t c' Ec). cbn [existsb].
    destruct (String.eqb_spec c c') as [-> | N].
    + rewrite String.eqb_refl. cbn [orb].
      assert (E : existsb (String.eqb c') K = false).
      { apply not_true_iff_false. rewrite existsb_eqb_In. exact Hc. }
      rewrite E. cbn [app]. constructor. exact IH.
    + assert (E : String.eqb c' c = false) by (apply String.eqb_neq; congruence).
      rewrite E. cbn [orb].
      destruct (existsb (String.eqb c') K).
      * apply Permutation_sym. apply Permutation_cons_app. apply Permutation_sym. exact IH.
      * exact IH.
  - rewrite (key_in_None K t Ec), (key_in_None (c :: K) t Ec). exact IH.
Qed.

(** The groups of a table are its rows that have a customer, each one
    once. *)
Lemma groups_perm (df : DataFrame) (K : list string) :
  NoDup K ->
  Permutation (flat_map (group df) K) (filter (key_in K) df).
Proof.
  induction 1 as [| c K Hc _ IH]; cbn [flat_map].
  - assert (E : filter (key_in []) df = []).
    { induction df as [| t df IHd]; [reflexivity |]. cbn [filter].
      destruct (customer_id t) as [c' |] eqn:Ec;
        [rewrite (key_in_Some [] t c' Ec) | rewrite (key_in_None [] t Ec)]; exact IHd. }
    rewrite E. constructor.
  - apply (Permutation_trans (Permutation_app_head _ IH)).
    apply group_cons_perm. exact Hc.
Qed.

Lemma key_in_all (df : DataFrame) :
  filter (key_in (group_keys (map customer_id df))) df = filter has_customer df.
Proof.
  apply filter_ext_in. intros t Ht. unfold key_in, has_customer.
  destruct (customer_id t) as [c |] eqn:E; [| reflexivity].
  apply existsb_eqb_In. apply group_keys_In. rewrite <- E. apply in_map. exact Ht.
Qed.

Lemma dropna_perm {A : Type} (l l' : list (option A)) :
  Permutation l l' -> Permutation (dropna l) (dropna l').
Proof.
  induction 1 as [| a l l' _ IH | a b l | l l' l'' _ IH1 _ IH2].
  - constructor.
  - destruct a; simpl; [constructor; exact IH | exact IH].
  - destruct a, b; simpl; try apply Permutation_refl. constructor.
  - exact (Permutation_trans IH1 IH2).
Qed.

Lemma count_of_groups (df : DataFrame) (K : list string) :
  sumZ (map (fun c => series_count (map transaction_id (group df c))) K)
  = series_count (map transaction_id (flat_map (group df) K)).
Proof.
  induction K as [| c K IH]; [reflexivity |].
  cbn [map flat_map sumZ fold_right].
  fold (sumZ (map (fun c0 => series_count (map transaction_id (group df c0))) K)).
  rewrite IH. unfold series_count. rewrite map_app, dropna_app, length_app. lia.
Qed.

Lemma frequency_total (sum : list Q -> Q) (df : DataFrame) :
  sumZ (map frequency (Analysis64.aggregate sum df))
  = series_count (map transaction_id (filter has_customer df)).
Proof.
  set (K := group_keys (map customer_id df)).
  pose proof (groups_perm df K (group_keys_NoDup _)) as P.
  unfold K in P at 2. rewrite key_in_all in P.
  unfold Analysis64.aggregate. fold K. rewrite !map_map. cbn [frequency].
  rewrite count_of_groups. unfold series_count. f_equal. apply Permutation_length.
  apply dropna_perm. apply Permutation_map. exact P.
Qed.

(** X13.  The aggregation loses no transaction: the frequencies of the
    customers add up to the number of rows that have a customer and a
    transaction id, whatever the function that adds the amounts. *)
Theorem aggregation_totals (sum : list Q -> Q) (df : DataFrame) :
  sumZ (map frequency (Analysis64.aggregate sum df))
  = series_count (map transaction_id (filter has_customer df)).
Proof. exact (frequency_total sum df). Qed.

(** ** The customers of the latest date *)

(** X14.  In a run that returns, on a table of at most [2 ^ 53] rows whose
    dates fit 64 bits, a customer with a purchase at the latest date of the
    table has recency 0, recency score 5 and churn risk "Low". *)
Theorem latest_customer_scores
        (sum : list Q -> Q) (df : DataFrame) (ps : list profile) (p : profile)
        (t : transaction) (M : Z) :
  int64_dates df -> Z.of_nat (length df) <= 2 ^ 53 ->
  Analysis64.perform_rfm_analysis sum df = Ok ps -> In p ps ->
  In t df -> customer_id t = Some (customer p) -> transaction_date t = Some M ->
  (forall t' d, In t' df -> transaction_date t' = Some d -> d <= M) ->
  recency (row p) = Some 0 /\ r_score p = Some 5 /\ churn_risk p = "Low"%string.
Proof.
  intros Hb Hn H Hp Ht Hc Hd Hmax.
  assert (Hx : In (row p) (Analysis64.aggregate sum df)).
  { rewrite <- (perform64_rows sum df ps H). apply in_map. exact Hp. }
  assert (R0 : recency (row p) = Some 0).
  { unfold Analysis64.aggregate in Hx. apply in_map_iff in Hx. destruct Hx as [c [Ex _]].
    assert (Ec : c = customer p) by (unfold customer; rewrite <- Ex; reflexivity).
    rewrite <- Ex. cbn [recency]. unfold recency_of. rewrite Ec.
    rewrite (series_max_latest_of (map transaction_date df) M).
    - rewrite (series_max_latest_of (map transaction_date (group df (customer p))) M).
      + rewrite Z.sub_diag. reflexivity.
      + rewrite <- Hd. apply in_map. apply group_In. split; assumption.
      + intros d Hin. apply in_map_iff in Hin. destruct Hin as [t' [Et' Ht']].
        apply group_In in Ht'. apply (Hmax t' d); tauto.
    - rewrite <- Hd. apply in_map. exact Ht.
    - intros d Hin. apply in_map_iff in Hin. destruct Hin as [t' [Et' Ht']].
      apply (Hmax t' d); assumption. }
  split; [exact R0 |].
  destruct (recency_ends sum df ps p Hb Hn H Hp) as [L _]. apply L.
  intros p' Hp'. unfold row_days at 1. rewrite R0.
  apply (aggregate64_recency_nonneg sum df).
  rewrite <- (perform64_rows sum df ps H). apply in_map. exact Hp'.
Qed.

Lemma latest_customer_scores_witness :
  recency (row sample_best) = Some 0 /\ r_score sample_best = Some 5 /\
  churn_risk sample_best = "Low"%string.
Proof.
  apply (latest_customer_scores Binary64.sum six_customers six_profiles sample_best
           (Samples.tx "t1" "a" 10 50) (10 * ns_per_day)).
  - exact six_dates.
  - vm_compute. discriminate.
  - exact six_run64.
  - exact sample_best_in.
  - left. reflexivity.
  - reflexivity.
  - reflexivity.
  - intros t' d Ht' Hd. unfold six_customers in Ht'. simpl in Ht'.
    destruct Ht' as [<- | [<- | [<- | [<- | [<- | [<- | [<- | [<- | [<- | [<- | [<- | []]]]]]]]]]]];
      injection Hd as <-; vm_compute; discriminate.
Defined.

(** * The key metrics ([calculate_key_metrics], lines 8-23) *)

Module Metrics.

(** [Series.min()] of a datetime column: missing cells are skipped, and the
    minimum of no value at all is NaT. *)
Fixpoint series_min (l : list (option Z)) : option Z :=
  match l with
  | [] => None
  | None :: t => series_min t
  | Some d :: t =>
      match series_min t with
      | None => Some d
      | Some m => Some (Z.min d m)
      end
  end.

(** [Series.mean()] of a float column: the sum of the cells that are not
    missing over their number, NaN when there is none. *)
Definition series_mean (l : list (option Q)) : option Q :=
  match dropna l with
  | [] => None
  | _ => Some (series_sum l / inject_Z (Z.of_nat (length (dropna l))))%Q
  end.

(** [Series.nunique()]: the number of distinct values, missing cells left
    out. *)
Definition nunique (l : list (option string)) : Z :=
  Z.of_nat (length (nodup string_dec (dropna l))).

(** The transaction table with its [quantity] column, which a table may
    lack: [has_quantity] is ['quantity' in df.columns], and the quantity of
    a row is only read when it holds. *)
Record sales_table : Type := {
  has_quantity : bool;
  cells : list (transaction * option Q)
}.

Definition lines (tb : sales_table) : DataFrame := map fst (cells tb).

(** The rows of one group of [df.groupby('transaction_id')]. *)
Definition order (tb : sales_table) (i : string) : list (transaction * option Q) :=
  filter (fun r => match transaction_id (fst r) with
                   | Some i' => String.eqb i i'
                   | None => false
                   end) (cells tb).

(** [df.groupby('transaction_id')['quantity'].sum()]. *)
Definition items_per_order (tb : sales_table) : list Q :=
  map (fun i => series_sum (map snd (order tb i)))
      (group_keys (map transaction_id (lines tb))).

(** [Timestamp.strftime(fmt)]; on NaT it raises. *)
Definition strftime (format : Z -> string) (d : option Z) : result string :=
  match d with
  | Some z => Ok (format z)
  | None => Raise (ValueError "NaTType does not support strftime")
  end.

Record metrics : Type := {
  total_revenue : Q;
  total_transactions : Z;
  unique_customers : Z;
  avg_order_value : option Q;
  avg_items_per_order : option Q;
  date_range_start : string;
  date_range_end : string
}.

(** [format] stands for the formatting of a timestamp with ['%Y-%m-%d']. *)
Definition calculate_key_metrics (format : Z -> string) (tb : sales_table)
  : result metrics :=
  let df := lines tb in
  let revenue := series_sum (map total_amount df) in
  let transactions := Z.of_nat (length df) in
  let customers := nunique (map customer_id df) in
  let order_value := series_mean (map total_amount df) in
  let items :=
    if has_quantity tb then series_mean (map Some (items_per_order tb))
    else Some 1%Q in
  start <- strftime format (series_min (map transaction_date df)) ;;
  stop <- strftime format (series_max (map transaction_date df)) ;;
  Ok {| total_revenue := revenue;
        total_transactions := transactions;
        unique_customers := customers;
        avg_order_value := order_value;
        avg_items_per_order := items;
        date_range_start := start;
        date_range_end := stop |}.

(** The share of line 471 of [app.py]:
    [unique_customers / total_transactions * 100]; [None] stands for the
    ZeroDivisionError of a division by 0. *)
Definition unique_share (m : metrics) : option Q :=
  if total_transactions m =? 0 then None
  else Some (inject_Z (unique_customers m) / inject_Z (total_transactions m) * 100)%Q.

End Metrics.

Import Metrics.

Lemma series_min_Some (l : list (option Z)) (m : Z) :
  series_min l = Some m ->
  In (Some m) l /\ forall d, In (Some d) l -> m <= d.
Proof.
  revert m. induction l as [| [d |] t IH]; simpl; intros m H.
  - discriminate.
  - destruct (series_min t) as [m' |] eqn:E.
    + injection H as <-. destruct (IH m' eq_refl) as [I1 I2]. split.
      * destruct (Z.min_spec d m') as [[_ ->] | [_ ->]]; [left; reflexivity | right; exact I1].
      * intros x [Hx | Hx]; [injection Hx as <-; lia | specialize (I2 x Hx); lia].
    + injection H as <-. split; [left; reflexivity |].
      intros x [Hx | Hx]; [injection Hx as <-; lia |].
      exfalso. clear IH. induction t as [| [y |] t IHt]; simpl in *.
      * exact Hx.
      * destruct (series_min t); discriminate.
      * destruct Hx as [Hx | Hx]; [discriminate | exact (IHt E Hx)].
  - destruct (IH m H) as [I1 I2]. split; [right; exact I1 |].
    intros x [Hx | Hx]; [discriminate | exact (I2 x Hx)].
Qed.

Lemma series_min_None (l : list (option Z)) :
  series_min l = None <-> forall d, In d l -> d = None.
Proof.
  induction l as [| [d |] t IH]; simpl.
  - split; [intros _ d [] | reflexivity].
  - split.
    + destruct (series_min t); discriminate.
    + intros H. discriminate (H (Some d) (or_introl eq_refl)).
  - rewrite IH. split.
    + intros H d [<- | Hd]; [reflexivity | exact (H d Hd)].
    + intros H d Hd. apply H. right. exact Hd.
Qed.

Lemma series_max_None (l : list (option Z)) :
  series_max l = None <-> forall d, In d l -> d = None.
Proof.
  split; [| apply series_max_none].
  intros H [d |] Hd; [| reflexivity].
  destruct (series_max_In l d Hd) as [m E]. rewrite E in H. discriminate.
Qed.

Lemma calculate_ok (format : Z -> string) (tb : sales_table) (m : metrics) :
  calculate_key_metrics format tb = Ok m ->
  exists lo hi,
    series_min (map transaction_date (lines tb)) = Some lo /\
    series_max (map transaction_date (lines tb)) = Some hi /\
    m = {| total_revenue := series_sum (map total_amount (lines tb));
           total_transactions := Z.of_nat (length (lines tb));
           unique_customers := nunique (map customer_id (lines tb));
           avg_order_value := series_mean (map total_amount (lines tb));
           avg_items_per_order :=
             if has_quantity tb then series_mean (map Some (items_per_order tb))
             else Some 1%Q;
           date_range_start := format lo;
           date_range_end := format hi |}.
Proof.
  unfold calculate_key_metrics. intros H.
  destruct (series_min (map transaction_date (lines tb))) as [lo |]; [| discriminate].
  destruct (series_max (map transaction_date (lines tb))) as [hi |]; [| discriminate].
  simpl in H. injection H as <-. exists lo, hi. auto.
Qed.

(** X15.  [calculate_key_metrics] raises exactly on the tables that have no
    transaction date at all, the empty table among them: there is no date to
    format. *)
Theorem key_metrics_raise_iff_undated (format : Z -> string) (tb : sales_table) :
  is_ok (calculate_key_metrics format tb) = false
  <-> forall t, In t (lines tb) -> transaction_date t = None.
Proof.
  unfold calculate_key_metrics. split.
  - intros H t Ht.
    destruct (series_min (map transaction_date (lines tb))) as [lo |] eqn:Emin.
    + destruct (series_max (map transaction_date (lines tb))) as [hi |] eqn:Emax;
        [discriminate |].
      apply (proj1 (series_max_None _) Emax). apply in_map. exact Ht.
    + apply (proj1 (series_min_None _) Emin). apply in_map. exact Ht.
  - intros H.
    assert (E : series_min (map transaction_date (lines tb)) = None).
    { apply series_min_None. intros d Hd. apply in_map_iff in Hd.
      destruct Hd as [t [<- Ht]]. apply H. exact Ht. }
    rewrite E. reflexivity.
Qed.

(** X16.  When [calculate_key_metrics] returns, the table has a row, the
    number of unique customers is between 0 and the number of transactions,
    so that the share of unique customers shown by the dashboard is defined
    and between 0 and 100; and it is the number of rows of the RFM table, so
    the number of profiles of a successful [perform_rfm_analysis]. *)
Theorem key_metrics_counts (format : Z -> string) (tb : sales_table) (m : metrics) :
  calculate_key_metrics format tb = Ok m ->
  1 <= total_transactions m /\
  0 <= unique_customers m <= total_transactions m /\
  unique_customers m = Z.of_nat (length (aggregate (lines tb))) /\
  (exists q, unique_share m = Some q /\ (0 <= q <= 100)%Q) /\
  forall ps, perform_rfm_analysis (lines tb) = Ok ps ->
             unique_customers m = Z.of_nat (length ps).
Proof.
  intros H. destruct (calculate_ok format tb m H) as [lo [hi [Emin [_ ->]]]].
  cbn [total_transactions unique_customers].
  assert (Hne : (1 <= length (lines tb))%nat).
  { destruct (series_min_Some _ _ Emin) as [I _].
    destruct (lines tb); [contradiction | simpl; lia]. }
  assert (Hu : (length (nodup string_dec (dropna (map customer_id (lines tb))))
                <= length (lines tb))%nat).
  { pose proof (nodup_length_le (dropna (map customer_id (lines tb)))).
    pose proof (dropna_length_le (map customer_id (lines tb))).
    rewrite length_map in *. lia. }
  unfold nunique.
  split; [lia |]. split; [lia |].
  split; [rewrite aggregate_length; reflexivity |].
  split.
  - unfold unique_share. cbn [total_transactions unique_customers].
    destruct (Z.eqb_spec (Z.of_nat (length (lines tb))) 0) as [E | N]; [lia |].
    eexists. split; [reflexivity |].
    set (u := Z.of_nat (length (nodup string_dec (dropna (map customer_id (lines tb)))))).
    set (n := Z.of_nat (length (lines tb))).
    assert (Hn : (0 < inject_Z n)%Q) by (change 0%Q with (inject_Z 0); rewrite <- Zlt_Qlt; lia).
    assert (H0 : (0 <= inject_Z u)%Q) by (change 0%Q with (inject_Z 0); rewrite <- Zle_Qle; lia).
    assert (H1 : (inject_Z u <= inject_Z n)%Q) by (rewrite <- Zle_Qle; unfold u, n; lia).
    assert (D0 : (0 <= inject_Z u / inject_Z n)%Q).
    { apply Qle_shift_div_l; [exact Hn | lra]. }
    assert (D1 : (inject_Z u / inject_Z n <= 1)%Q).
    { apply Qle_shift_div_r; [exact Hn | lra]. }
    split; lra.
  - intros ps Hps. fold (distinct_customers (lines tb)).
    rewrite <- aggregate_length, <- (perform_rows (lines tb) ps Hps), length_map.
    reflexivity.
Qed.

(** A table with a quantity column, and a way to write a date. *)
Definition sample_sales : sales_table :=
  {| has_quantity := true;
     cells := map (fun t => (t, Some 1%Q)) Samples.sample |}.

Definition day_number (z : Z) : string :=
  if z / ns_per_day <? 8 then "first week"%string else "later"%string.

Definition sample_metrics : metrics :=
  Eval vm_compute in
    match calculate_key_metrics day_number sample_sales with
    | Ok m => m
    | Raise _ =>
        {| total_revenue := 0; total_transactions := 0; unique_customers := 0;
           avg_order_value := None; avg_items_per_order := None;
           date_range_start := ""; date_range_end := "" |}
    end.

Lemma sample_metrics_run : calculate_key_metrics day_number sample_sales = Ok sample_metrics.
Proof. vm_compute. reflexivity. Defined.

Lemma key_metrics_counts_witness :
  1 <= total_transactions sample_metrics /\
  0 <= unique_customers sample_metrics <= total_transactions sample_metrics /\
  unique_customers sample_metrics = Z.of_nat (length (aggregate (lines sample_sales))) /\
  (exists q, unique_share sample_metrics = Some q /\ (0 <= q <= 100)%Q) /\
  forall ps, perform_rfm_analysis (lines sample_sales) = Ok ps ->
             unique_customers sample_metrics = Z.of_nat (length ps).
Proof.
  exact (key_metrics_counts day_number sample_sales sample_metrics sample_metrics_run).
Defined.

Lemma filter_all {A : Type} (p : A -> bool) (l : list A) :
  (forall a, In a l -> p a = true) -> filter p l = l.
Proof.
  induction l as [| a t IH]; intros H; [reflexivity |]. cbn [filter].
  rewrite (H a (or_introl eq_refl)). f_equal. apply IH.
  intros b Hb. apply H. right. exact Hb.
Qed.

Lemma dropna_all {A : Type} (l : list (option A)) :
  (forall a, In a l -> a <> None) -> length (dropna l) = length l.
Proof.
  induction l as [| [a |] t IH]; intros H; simpl.
  - reflexivity.
  - f_equal. apply IH. intros b Hb. apply H. right. exact Hb.
  - exfalso. apply (H None (or_introl eq_refl)). reflexivity.
Qed.

(** X17.  When [calculate_key_metrics] returns on a table whose rows all have
    a customer and a transaction id, the number of transactions is the sum
    of the frequencies of the RFM table. *)
Theorem key_metrics_match_rfm
        (sum : list Q -> Q) (format : Z -> string) (tb : sales_table) (m : metrics) :
  calculate_key_metrics format tb = Ok m ->
  (forall t, In t (lines tb) -> customer_id t <> None) ->
  (forall t, In t (lines tb) -> transaction_id t <> None) ->
  total_transactions m = sumZ (map frequency (Analysis64.aggregate sum (lines tb))).
Proof.
  intros H Hc Hi. destruct (calculate_ok format tb m H) as [lo [hi [_ [_ ->]]]].
  cbn [total_transactions].
  assert (F : filter has_customer (lines tb) = lines tb).
  { apply filter_all. intros t Ht. unfold has_customer.
    specialize (Hc t Ht). destruct (customer_id t); [reflexivity | contradiction]. }
  rewrite (frequency_total sum (lines tb)), F. unfold series_count. f_equal.
  rewrite dropna_all; [rewrite (length_map transaction_id); reflexivity |].
  intros a Ha. apply in_map_iff in Ha. destruct Ha as [t [<- Ht]]. apply Hi. exact Ht.
Qed.

Lemma sample_sales_customers (t : transaction) :
  In t (lines sample_sales) -> customer_id t <> None.
Proof.
  intros Ht. vm_compute in Ht.
  destruct Ht as [<- | [<- | [<- | [<- | [<- | [<- | []]]]]]]; discriminate.
Defined.

Lemma sample_sales_ids (t : transaction) :
  In t (lines sample_sales) -> transaction_id t <> None.
Proof.
  intros Ht. vm_compute in Ht.
  destruct Ht as [<- | [<- | [<- | [<- | [<- | [<- | []]]]]]]; discriminate.
Defined.

Lemma key_metrics_match_rfm_witness :
  total_transactions sample_metrics
  = sumZ (map frequency (Analysis64.aggregate Binary64.sum (lines sample_sales))).
Proof.
  exact (key_metrics_match_rfm Binary64.sum day_number sample_sales sample_metrics
           sample_metrics_run sample_sales_customers sample_sales_ids).
Defined.

(** X18.  When [calculate_key_metrics] returns, the two ends of the date
    range are the formatted earliest and latest transaction dates of the
    table: the start is not after the end and every transaction date lies
    between them. *)
Theorem key_metrics_date_range (format : Z -> string) (tb : sales_table) (m : metrics) :
  calculate_key_metrics format tb = Ok m ->
  exists lo hi,
    date_range_start m = format lo /\ date_range_end m = format hi /\
    lo <= hi /\
    In (Some lo) (map transaction_date (lines tb)) /\
    In (Some hi) (map transaction_date (lines tb)) /\
    forall t d, In t (lines tb) -> transaction_date t = Some d -> lo <= d <= hi.
Proof.
  intros H. destruct (calculate_ok format tb m H) as [lo [hi [Emin [Emax ->]]]].
  destruct (series_min_Some _ _ Emin) as [Ilo Blo].
  destruct (series_max_Some _ _ Emax) as [Ihi Bhi].
  exists lo, hi. cbn [date_range_start date_range_end].
  split; [reflexivity |]. split; [reflexivity |].
  split; [apply (Blo hi Ihi) |]. split; [exact Ilo |]. split; [exact Ihi |].
  intros t d Ht Hd.
  assert (Hin : In (Some d) (map transaction_date (lines tb))).
  { rewrite <- Hd. apply in_map. exact Ht. }
  split; [apply (Blo d Hin) | apply (Bhi d Hin)].
Qed.

Lemma key_metrics_date_range_witness :
  exists lo hi,
    date_range_start sample_metrics = day_number lo /\
    date_range_end sample_metrics = day_number hi /\
    lo <= hi /\
    In (Some lo) (map transaction_date (lines sample_sales)) /\
    In (Some hi) (map transaction_date (lines sample_sales)) /\
    forall t d, In t (lines sample_sales) -> transaction_date t = Some d -> lo <= d <= hi.
Proof.
  exact (key_metrics_date_range day_number sample_sales sample_metrics sample_metrics_run).
Defined.

(** * Churn counts ([analyze_churn_predictors], [create_churn_risk_chart]) *)

(** [len(rfm_df[rfm_df['churn_risk'] == level])] (lines 182-184 of
    [ai_insights.py]), the counts that [value_counts().reindex(..., fill_value=0)]
    gives for the three levels (line 236 of [visualizations.py]). *)
Definition churn_count (ps : list profile) (level : string) : nat :=
  length (filter (fun p => String.eqb (churn_risk p) level) ps).

(** [rfm_df[rfm_df['churn_risk'].isin(['High', 'Medium'])]] (line 176). *)
Definition at_risk (ps : list profile) : list profile :=
  filter (fun p => existsb (String.eqb (churn_risk p)) ["High"; "Medium"]%string) ps.

(** Evaluate the comparisons of two string constants. *)
Ltac eval_eqb :=
  repeat match goal with
         | |- context [String.eqb ?a ?b] =>
             let v := eval vm_compute in (String.eqb a b) in
             change (String.eqb a b) with v
         end.

(** X19.  On the profiles of a successful run, the three churn counts add up
    to the number of customers, and the at-risk customers are the High and
    Medium ones, that is those with a recency score of at most 3. *)
Theorem churn_counts_cover (df : DataFrame) (ps : list profile) :
  perform_rfm_analysis df = Ok ps ->
  (churn_count ps "High" + churn_count ps "Medium" + churn_count ps "Low")%nat
  = length ps /\
  length (at_risk ps) = (churn_count ps "High" + churn_count ps "Medium")%nat /\
  forall p, In p (at_risk ps) <->
            In p ps /\ exists r, r_score p = Some r /\ r <= 3.
Proof.
  intros H.
  assert (Hc : forall p, In p ps ->
                 exists r, r_score p = Some r /\
                   ((churn_risk p = "High"%string /\ r <= 2) \/
                    (churn_risk p = "Medium"%string /\ r = 3) \/
                    (churn_risk p = "Low"%string /\ 4 <= r))).
  { intros p Hp.
    destruct (profile_scores _ _ _ H Hp) as [r [f [m [Er _]]]].
    destruct (perform_ok _ _ H) as [_ [_ [_ [_ [_ [_ [_ Hl]]]]]]].
    rewrite Forall_forall in Hl. destruct (Hl p Hp) as [_ C]. rewrite Er in C.
    destruct (churn_risk_spec _ _ C) as (H1 & H2 & H3).
    exists r. split; [exact Er |].
    destruct (Z_le_gt_dec r 2) as [L | G]; [left; split; [apply H1 |]; exact L |].
    destruct (Z.eq_dec r 3) as [E | N]; [right; left; split; [apply H2 |]; exact E |].
    right. right. split; [apply H3 |]; lia. }
  clear H. unfold churn_count, at_risk. split; [| split].
  - induction ps as [| p ps IH]; [reflexivity |]. cbn [filter length].
    specialize (IH (fun q Hq => Hc q (or_intror Hq))).
    destruct (Hc p (or_introl eq_refl)) as [r [_ [[E _] | [[E _] | [E _]]]]];
      rewrite E; eval_eqb; cbn [length]; lia.
  - induction ps as [| p ps IH]; [reflexivity |]. cbn [filter length].
    specialize (IH (fun q Hq => Hc q (or_intror Hq))).
    destruct (Hc p (or_introl eq_refl)) as [r [_ [[E _] | [[E _] | [E _]]]]];
      cbn [existsb] in IH |- *; rewrite E; eval_eqb; cbn [orb length]; lia.
  - intros p. rewrite filter_In. split.
    + intros [Hp Hb]. split; [exact Hp |].
      destruct (Hc p Hp) as [r [Er [[E L] | [[E L] | [E L]]]]];
        [exists r; split; [exact Er | lia] | exists r; split; [exact Er | lia] |].
      rewrite E in Hb. discriminate Hb.
    + intros [Hp [r [Er Hr]]]. split; [exact Hp |].
      destruct (Hc p Hp) as [r' [Er' [[E L] | [[E L] | [E L]]]]];
        rewrite E; try reflexivity.
      rewrite Er in Er'. injection Er' as <-. lia.
Qed.

Lemma churn_counts_cover_witness :
  (churn_count six_profiles "High" + churn_count six_profiles "Medium"
   + churn_count six_profiles "Low")%nat = length six_profiles /\
  length (at_risk six_profiles)
  = (churn_count six_profiles "High" + churn_count six_profiles "Medium")%nat /\
  forall p, In p (at_risk six_profiles) <->
            In p six_profiles /\ exists r, r_score p = Some r /\ r <= 3.
Proof.
  exact (churn_counts_cover six_customers six_profiles six_run).
Defined.

(** * The JSON block of a model response ([generate_business_insights],
      lines 70-75 of [ai_insights.py]) *)

Module Insights.

(** A Python string: the list of its code points. *)
Definition text : Type := list N.

Definition backtick : N := 96%N.

(** The fences ["```"] and ["```json"]. *)
Definition fence : text := [96; 96; 96]%N.

Definition fence_json : text := [96; 96; 96; 106; 115; 111; 110]%N.

(** [s.startswith(sep)]. *)
Fixpoint starts_with (sep s : text) : bool :=
  match sep, s with
  | [], _ => true
  | _ :: _, [] => false
  | a :: sep', b :: s' => N.eqb a b && starts_with sep' s'
  end.

(** [sep in s]. *)
Fixpoint contains (sep s : text) : bool :=
  match s with
  | [] => starts_with sep []
  | _ :: t => starts_with sep s || contains sep t
  end.

(** [s.split(sep)] for a separator that is not empty: the text is cut at the
    occurrences of [sep], found from the left and not overlapping.  [skip]
    counts the characters of an occurrence still to pass, [acc] holds the
    current part, reversed. *)
Fixpoint split_go (sep s : text) (skip : nat) (acc : text) : list text :=
  match s with
  | [] => [rev acc]
  | c :: t =>
      match skip with
      | S k => split_go sep t k acc
      | O =>
          if starts_with sep s
          then rev acc :: split_go sep t (length sep - 1) []
          else split_go sep t 0 (c :: acc)
      end
  end.

Definition split (sep s : text) : list text := split_go sep s 0 [].

(** [str.isspace] of one character. *)
Definition is_space (c : N) : bool :=
  ((9 <=? c) && (c <=? 13) || (28 <=? c) && (c <=? 32)
   || (c =? 133) || (c =? 160) || (c =? 5760)
   || (8192 <=? c) && (c <=? 8202)
   || (c =? 8232) || (c =? 8233) || (c =? 8239) || (c =? 8287) || (c =? 12288))%N.

Fixpoint lstrip (s : text) : text :=
  match s with
  | [] => []
  | c :: t => if is_space c then lstrip t else s
  end.

(** [s.strip()]. *)
Definition strip (s : text) : text := rev (lstrip (rev (lstrip s))).

(** Lines 70-75: the text handed to [json.loads].  [None] stands for the
    IndexError of an index outside a list. *)
Definition extract_json (response_text : text) : option text :=
  if contains fence_json response_text then
    match nth_error (split fence_json response_text) 1 with
    | None => None
    | Some part =>
        match nth_error (split fence part) 0 with
        | None => None
        | Some body => Some (strip body)
        end
    end
  else if contains fence response_text then
    match nth_error (split fence response_text) 1 with
    | None => None
    | Some part =>
        match nth_error (split fence part) 0 with
        | None => None
        | Some body => Some (strip body)
        end
    end
  else Some (strip response_text).

End Insights.

Import Insights.

Definition codes (s : string) : text :=
  map (fun a => N.of_nat (nat_of_ascii a)) (list_ascii_of_string s).

Example split_fenced :
  split fence (codes "a```b```") = [codes "a"; codes "b"; codes ""].
Proof. vm_compute. reflexivity. Qed.

Example extract_fenced :
  extract_json (codes "Here it is: ```json {} ``` bye") = Some (codes "{}").
Proof. vm_compute. reflexivity. Qed.

Example extract_plain : extract_json (codes "  [1, 2]  ") = Some (codes "[1, 2]").
Proof. vm_compute. reflexivity. Qed.

(** The text up to the first occurrence of [sep]. *)
Fixpoint before (sep s : text) : text :=
  match s with
  | [] => []
  | c :: t => if starts_with sep s then [] else c :: before sep t
  end.

(** The text after the first occurrence of [sep]. *)
Definition after (sep s : text) : text :=
  skipn (length (before sep s) + length sep) s.

Lemma split_go_skip (sep : text) (s : text) : forall skip acc,
  split_go sep s skip acc = split_go sep (skipn skip s) 0 acc.
Proof.
  induction s as [| c t IH]; intros skip acc.
  - destruct skip; reflexivity.
  - destruct skip as [| k]; [reflexivity |]. cbn [split_go skipn]. apply IH.
Qed.

Lemma starts_with_app (sep s r : text) :
  starts_with sep s = true -> starts_with sep (s ++ r) = true.
Proof.
  revert s. induction sep as [| a sep IH]; intros s H; [reflexivity |].
  destruct s as [| b s]; [discriminate |]. simpl in *.
  apply andb_true_iff in H. destruct H as [H1 H2].
  rewrite H1, (IH s H2). reflexivity.
Qed.

Lemma starts_with_self (sep r : text) : starts_with sep (sep ++ r) = true.
Proof.
  induction sep as [| a sep IH]; [reflexivity |]. simpl.
  rewrite N.eqb_refl, IH. reflexivity.
Qed.

(** The parts of a text: what is before the first occurrence, then the parts
    of what is after it. *)
Lemma split_go_parts (sep : text) (s : text) : forall acc,
  sep <> [] ->
  split_go sep s 0 acc
  = (rev acc ++ before sep s)
      :: (if contains sep s then split_go sep (after sep s) 0 [] else []).
Proof.
  induction s as [| c t IH]; intros acc Hsep.
  - destruct sep as [| a sep]; [contradiction |]. simpl. rewrite app_nil_r. reflexivity.
  - cbn [split_go before contains]. destruct (starts_with sep (c :: t)) eqn:E.
    + cbn [orb]. rewrite app_nil_r. f_equal.
      rewrite split_go_skip. unfold after. cbn [before]. rewrite E. cbn [length Nat.add].
      destruct sep as [| a sep]; [contradiction |]. cbn [length Nat.sub skipn].
      rewrite Nat.sub_0_r. reflexivity.
    + cbn [orb]. rewrite (IH (c :: acc) Hsep). cbn [rev]. rewrite <- app_assoc. cbn [app].
      f_equal. unfold after. cbn [before]. rewrite E. cbn [length Nat.add skipn].
      reflexivity.
Qed.

Lemma split_parts (sep s : text) :
  sep <> [] ->
  split sep s
  = before sep s :: (if contains sep s then split sep (after sep s) else []).
Proof. intros H. unfold split. rewrite (split_go_parts sep s [] H). reflexivity. Qed.

Lemma split_first (sep s : text) :
  sep <> [] -> nth_error (split sep s) 0 = Some (before sep s).
Proof. intros H. rewrite (split_parts sep s H). reflexivity. Qed.

Lemma split_second (sep s : text) :
  sep <> [] -> contains sep s = true ->
  nth_error (split sep s) 1 = Some (before sep (after sep s)).
Proof.
  intros H C. rewrite (split_parts sep s H), C. cbn [nth_error].
  apply split_first. exact H.
Qed.

(** The steps of [extract_json], once the indexing is known to succeed. *)
Lemma extract_json_eq (s : text) :
  extract_json s
  = Some (strip (if contains fence_json s then before fence (before fence_json (after fence_json s))
                 else if contains fence s then before fence (before fence (after fence s))
                 else s)).
Proof.
  unfold extract_json.
  destruct (contains fence_json s) eqn:C1.
  - rewrite (split_second fence_json s ltac:(discriminate) C1).
    rewrite (split_first fence _ ltac:(discriminate)). reflexivity.
  - destruct (contains fence s) eqn:C2; [| reflexivity].
    rewrite (split_second fence s ltac:(discriminate) C2).
    rewrite (split_first fence _ ltac:(discriminate)). reflexivity.
Qed.

(** X20.  The extraction of the JSON block never fails with an IndexError:
    whatever the response, each index it takes is inside its list. *)
Theorem extract_json_total (s : text) : exists j, extract_json s = Some j.
Proof. rewrite extract_json_eq. eexists. reflexivity. Qed.

Lemma before_prefix (sep s : text) : exists r, s = before sep s ++ r.
Proof.
  induction s as [| c t [r IH]]; [exists []; reflexivity |].
  cbn [before]. destruct (starts_with sep (c :: t)).
  - exists (c :: t). reflexivity.
  - exists r. cbn [app]. rewrite <- IH. reflexivity.
Qed.

Lemma before_no_sep (sep s : text) :
  sep <> [] -> contains sep (before sep s) = false.
Proof.
  intros Hsep. induction s as [| c t IH].
  - destruct sep; [contradiction | reflexivity].
  - cbn [before]. destruct (starts_with sep (c :: t)) eqn:E.
    + destruct sep; [contradiction | reflexivity].
    + cbn [contains]. rewrite IH, orb_false_r.
      destruct (starts_with sep (c :: before sep t)) eqn:E'; [| reflexivity].
      destruct (before_prefix sep t) as [r Hr].
      apply (starts_with_app _ _ r) in E'. cbn [app] in E'. rewrite <- Hr in E'.
      rewrite E' in E. discriminate.
Qed.

Lemma contains_app_l (sep l u : text) :
  contains sep u = true -> contains sep (l ++ u) = true.
Proof.
  intros H. induction l as [| c l IH]; [exact H |].
  cbn [app contains]. rewrite IH. apply orb_true_r.
Qed.

Lemma contains_app_r (sep u r : text) :
  contains sep u = true -> contains sep (u ++ r) = true.
Proof.
  induction u as [| c u IH]; intros H.
  - simpl in H. destruct sep; [| discriminate]. destruct r; reflexivity.
  - cbn [app contains] in *. apply orb_true_iff in H. destruct H as [H | H].
    + pose proof (starts_with_app sep (c :: u) r H) as H'.
      cbn [app] in H'. rewrite H'. reflexivity.
    + rewrite (IH H). apply orb_true_r.
Qed.

Lemma lstrip_suffix (s : text) : exists w, s = w ++ lstrip s.
Proof.
  induction s as [| c t [w IH]]; [exists []; reflexivity |].
  cbn [lstrip]. destruct (is_space c).
  - exists (c :: w). cbn [app]. rewrite <- IH. reflexivity.
  - exists []. reflexivity.
Qed.

Lemma lstrip_hd (s : text) (c : N) :
  hd_error (lstrip s) = Some c -> is_space c = false.
Proof.
  induction s as [| a t IH]; [discriminate |].
  cbn [lstrip]. destruct (is_space a) eqn:E; [exact IH |].
  intros H. injection H as <-. exact E.
Qed.

(** The stripped text is a piece of the text. *)
Lemma strip_piece (s : text) : exists l r, s = l ++ strip s ++ r.
Proof.
  destruct (lstrip_suffix s) as [l Hl].
  destruct (lstrip_suffix (rev (lstrip s))) as [w Hw].
  exists l, (rev w). unfold strip.
  rewrite <- rev_app_distr, <- Hw, rev_involutive. exact Hl.
Qed.

Lemma strip_no_sep (sep s : text) :
  contains sep s = false -> contains sep (strip s) = false.
Proof.
  intros H. destruct (contains sep (strip s)) eqn:E; [| reflexivity].
  destruct (strip_piece s) as [l [r Hs]].
  apply (contains_app_r _ _ r) in E. apply (contains_app_l _ l) in E.
  rewrite <- Hs, H in E. discriminate.
Qed.

Lemma strip_ends (s : text) (c : N) :
  hd_error (strip s) = Some c \/ hd_error (rev (strip s)) = Some c ->
  is_space c = false.
Proof.
  unfold strip. intros [H | H].
  - destruct (lstrip_suffix (rev (lstrip s))) as [w Hw].
    set (v := lstrip (rev (lstrip s))) in *.
    assert (Hu : lstrip s = rev v ++ rev w).
    { rewrite <- rev_app_distr, <- Hw, rev_involutive. reflexivity. }
    apply (lstrip_hd s). rewrite Hu.
    destruct (rev v) as [| a t]; [discriminate |]. exact H.
  - rewrite rev_involutive in H. exact (lstrip_hd _ _ H).
Qed.

(** X21.  The text handed to [json.loads] holds no fence and has no white
    space at either end. *)
Theorem extract_json_clean (s j : text) :
  extract_json s = Some j ->
  contains fence j = false /\
  (forall c, hd_error j = Some c -> is_space c = false) /\
  (forall c, hd_error (rev j) = Some c -> is_space c = false).
Proof.
  rewrite extract_json_eq. intros H. injection H as <-.
  split; [| split].
  - apply strip_no_sep.
    destruct (contains fence_json s); [apply before_no_sep; discriminate |].
    destruct (contains fence s) eqn:C; [apply before_no_sep; discriminate | exact C].
  - intros c Hc. eapply strip_ends. left. exact Hc.
  - intros c Hc. eapply strip_ends. right. exact Hc.
Qed.

Lemma extract_json_clean_witness :
  contains fence (codes "{}") = false /\
  (forall c, hd_error (codes "{}") = Some c -> is_space c = false) /\
  (forall c, hd_error (rev (codes "{}")) = Some c -> is_space c = false).
Proof.
  apply (extract_json_clean (codes "Here it is: ```json {} ``` bye") (codes "{}")).
  vm_compute. reflexivity.
Defined.

Lemma before_miss (sep : text) (c : N) (t : text) :
  starts_with sep (c :: t) = false -> before sep (c :: t) = c :: before sep t.
Proof. intros H. cbn [before]. rewrite H. reflexivity. Qed.

Lemma before_hit (sep s : text) :
  starts_with sep s = true -> before sep s = [].
Proof.
  destruct s as [| c t]; [reflexivity |]. intros H. cbn [before]. rewrite H.
  reflexivity.
Qed.

(** An occurrence of the opening fence that begins before another one begins
    inside the text before it: the two cannot overlap. *)
Lemma fence_json_no_overlap (u rest : text) :
  u <> [] -> starts_with fence_json u = false ->
  starts_with fence_json (u ++ fence_json ++ rest) = false.
Proof.
  intros Hu H. revert H.
  destruct u as [| c1 [| c2 [| c3 [| c4 [| c5 [| c6 [| c7 u]]]]]]];
    [contradiction | ..]; clear Hu; unfold fence_json;
    cbn [app starts_with];
    repeat match goal with
           | |- context [N.eqb ?a ?b] => is_var b; destruct (N.eqb a b)
           end;
    cbn; intros H; try reflexivity; try exact H.
Qed.

Lemma before_fence_json (pre rest : text) :
  contains fence_json pre = false ->
  before fence_json (pre ++ fence_json ++ rest) = pre.
Proof.
  induction pre as [| c t IH]; intros H.
  - cbn [app]. apply before_hit. apply starts_with_self.
  - cbn [contains] in H. apply orb_false_iff in H. destruct H as [H1 H2].
    cbn [app before].
    pose proof (fence_json_no_overlap (c :: t) rest ltac:(discriminate) H1) as E.
    cbn [app] in E. rewrite E, (IH H2). reflexivity.
Qed.

Lemma after_at (sep pre rest : text) :
  before sep (pre ++ sep ++ rest) = pre ->
  after sep (pre ++ sep ++ rest) = rest.
Proof.
  intros H. unfold after. rewrite H, app_assoc, <- length_app.
  rewrite skipn_app, skipn_all, Nat.sub_diag. reflexivity.
Qed.

(** The closing fence ends the block when no backtick follows it. *)
Lemma before_closing (post : text) :
  hd_error post <> Some backtick ->
  before fence (before fence_json (fence ++ post)) = [].
Proof.
  destruct post as [| p post]; [reflexivity |]. intros H.
  assert (E : N.eqb 96 p = false).
  { destruct (N.eqb_spec 96 p) as [<- |]; [| reflexivity].
    exfalso. apply H. reflexivity. }
  assert (S2 : starts_with fence_json (96 :: 96 :: p :: post)%N = false).
  { unfold fence_json. cbn [starts_with]. rewrite E. reflexivity. }
  assert (S1 : starts_with fence_json (96 :: p :: post)%N = false).
  { unfold fence_json. cbn [starts_with]. rewrite E. reflexivity. }
  unfold fence at 2. cbn [app].
  destruct (starts_with fence_json (96 :: 96 :: 96 :: p :: post)%N) eqn:S3.
  - rewrite (before_hit _ _ S3). reflexivity.
  - rewrite (before_miss _ _ _ S3), (before_miss _ _ _ S2), (before_miss _ _ _ S1).
    reflexivity.
Qed.

Lemma before_body (body post : text) :
  ~ In backtick body -> hd_error post <> Some backtick ->
  before fence (before fence_json (body ++ fence ++ post)) = body.
Proof.
  intros Hb Hp. induction body as [| c t IH]; [exact (before_closing post Hp) |].
  assert (E : N.eqb 96 c = false).
  { destruct (N.eqb_spec 96 c) as [<- |]; [| reflexivity].
    exfalso. apply Hb. left. reflexivity. }
  cbn [app before]. unfold fence_json at 1. cbn [starts_with].
  rewrite E. cbn [andb before]. unfold fence at 1. cbn [starts_with].
  rewrite E. cbn [andb]. rewrite IH; [reflexivity |].
  intros Hin. apply Hb. right. exact Hin.
Qed.

(** X22.  Round trip of a fenced block: when the reply holds one JSON block
    whose text has no backtick, opened by the first JSON fence of the reply
    and closed by a fence that no backtick follows, the text handed to
    [json.loads] is the block's text, stripped. *)
Theorem extract_json_fenced_block (pre body post : text) :
  contains fence_json pre = false ->
  ~ In backtick body ->
  hd_error post <> Some backtick ->
  extract_json (pre ++ fence_json ++ body ++ fence ++ post) = Some (strip body).
Proof.
  intros Hpre Hbody Hpost. rewrite extract_json_eq.
  assert (C : contains fence_json (pre ++ fence_json ++ body ++ fence ++ post) = true).
  { apply contains_app_l, contains_app_r. reflexivity. }
  rewrite C, (after_at _ _ _ (before_fence_json pre _ Hpre)).
  rewrite (before_body body post Hbody Hpost). reflexivity.
Qed.

Lemma extract_json_fenced_block_witness :
  extract_json (codes "Sure: " ++ fence_json ++ codes " {} " ++ fence ++ codes " bye")
  = Some (strip (codes " {} ")).
Proof.
  apply (extract_json_fenced_block (codes "Sure: ") (codes " {} ") (codes " bye")).
  - reflexivity.
  - vm_compute. intros H. repeat (destruct H as [H | H]; [discriminate H |]). exact H.
  - vm_compute. discriminate.
Defined.

(** * Best-selling products ([src/analysis.py], [get_top_products])

    The table is read through the columns [category], [product_name],
    [total_amount], [quantity] and [transaction_id].  [total_amount] and
    [transaction_id] are columns of every table; the three others may be
    absent.  [sort_values] orders by one float column with an unstable sort,
    so the order of equal totals is not fixed: the sort is a parameter, known
    by what any sort guarantees.  [None] is the [KeyError] of a column that
    is not there. *)

Module Products.

Record line : Type := {
  category : option string;
  product_name : option string;
  total_amount : option Q;
  quantity : option Q;
  transaction_id : option string
}.

Record table : Type := {
  has_category : bool;
  has_product_name : bool;
  has_quantity : bool;
  lines : list line
}.

(** A row of the aggregated table: its index is the group's key, and its
    columns keep the names of the columns they aggregate. *)
Module Row.
Record t : Type := {
  index : string;
  total_amount : Q;
  quantity : Q;
  transaction_id : Z
}.
End Row.

(** ['category' if 'category' in df.columns else 'product_name']. *)
Definition groupby_col (tb : table) : line -> option string :=
  if has_category tb then category else product_name.

(** The rows of one group of [df.groupby(col)]. *)
Definition group (col : line -> option string) (ls : list line) (k : string) : list line :=
  filter (fun r => match col r with
                   | Some k' => String.eqb k k'
                   | None => false
                   end) ls.

(** [groupby(col).agg({'total_amount': 'sum', 'quantity': 'sum',
    'transaction_id': 'count'})]. *)
Definition agg (col : line -> option string) (ls : list line) : list Row.t :=
  map (fun k =>
         let g := group col ls k in
         {| Row.index := k;
            Row.total_amount := Pandas.series_sum (map total_amount g);
            Row.quantity := Pandas.series_sum (map quantity g);
            Row.transaction_id := Pandas.series_count (map transaction_id g) |})
      (Pandas.group_keys (map col ls)).

(** [DataFrame.head(n)], that is [iloc[:n]]: the first [n] rows, and all
    rows but the last [-n] when [n] is negative. *)
Definition head {A : Type} (n : Z) (l : list A) : list A :=
  if (0 <=? n)%Z then firstn (Z.to_nat n) l
  else firstn (length l - Z.to_nat (- n)) l.

Section SortValues.

Variable sort_values : list Row.t -> list Row.t.

Definition get_top_products (tb : table) (n : Z) : option (list Row.t) :=
  if (has_category tb || has_product_name tb) && has_quantity tb
  then Some (head n (sort_values (agg (groupby_col tb) (lines tb))))
  else None.

End SortValues.

(** [a] comes before [b] in descending order of [total_amount]. *)
Definition descending (a b : Row.t) : Prop :=
  (Row.total_amount b <= Row.total_amount a)%Q.

End Products.

(** A sort of the aggregated rows by descending [total_amount]. *)
Module RowOrder <: TotalLeBool.
Definition t := Products.Row.t.
Definition leb (a b : t) : bool :=
  Qle_bool (Products.Row.total_amount b) (Products.Row.total_amount a).
Definition leb_total : forall x y, leb x y = true \/ leb y x = true :=
  fun x y => Qle_bool_total (Products.Row.total_amount y) (Products.Row.total_amount x).
End RowOrder.

Module RowSort := Sort RowOrder.

Lemma row_sort_perm (l : list Products.Row.t) : Permutation (RowSort.sort l) l.
Proof. apply Permutation_sym, RowSort.Permuted_sort. Qed.

Lemma row_sort_desc (l : list Products.Row.t) :
  StronglySorted Products.descending (RowSort.sort l).
Proof.
  assert (T : Relations_1.Transitive (fun x y => is_true (RowOrder.leb x y))).
  { intros x y z. unfold is_true, RowOrder.leb. rewrite !Qle_bool_iff.
    intros H1 H2. exact (Qle_trans _ _ _ H2 H1). }
  pose proof (RowSort.StronglySorted_sort l T) as H.
  induction H as [| a t _ IH Hall]; constructor; [exact IH |].
  apply (Forall_impl _ (fun y Hy => proj1 (Qle_bool_iff _ _) Hy) Hall).
Qed.

Lemma head_prefix {A : Type} (n : Z) (l : list A) :
  exists rest, l = (Products.head n l ++ rest)%list.
Proof.
  unfold Products.head. destruct (0 <=? n)%Z.
  - exists (skipn (Z.to_nat n) l). symmetry. apply firstn_skipn.
  - exists (skipn (length l - Z.to_nat (- n)) l). symmetry. apply firstn_skipn.
Qed.

Lemma head_length {A : Type} (n : Z) (l : list A) :
  (0 <= n)%Z ->
  Z.of_nat (length (Products.head n l)) = Z.min n (Z.of_nat (length l)).
Proof.
  intros Hn. unfold Products.head.
  destruct (Z.leb_spec 0 n) as [_ | H]; [| lia].
  rewrite length_firstn. lia.
Qed.

Lemma StronglySorted_app_l {A : Type} (R : A -> A -> Prop) (l1 l2 : list A) :
  StronglySorted R (l1 ++ l2) -> StronglySorted R l1.
Proof.
  induction l1 as [| a l1 IH]; intros H; [constructor |].
  cbn [app] in H. apply StronglySorted_inv in H. destruct H as [H1 H2].
  constructor; [exact (IH H1) |].
  apply Forall_app in H2. exact (proj1 H2).
Qed.

Lemma StronglySorted_app_cross {A : Type} (R : A -> A -> Prop) (l1 l2 : list A) :
  StronglySorted R (l1 ++ l2) ->
  forall a b, In a l1 -> In b l2 -> R a b.
Proof.
  induction l1 as [| x l1 IH]; intros H a b Ha Hb; [contradiction |].
  cbn [app] in H. apply StronglySorted_inv in H. destruct H as [H1 H2].
  destruct Ha as [<- | Ha]; [| exact (IH H1 a b Ha Hb)].
  rewrite Forall_forall in H2. apply H2, in_or_app. right. exact Hb.
Qed.

Lemma agg_index (col : Products.line -> option string) (ls : list Products.line) :
  map Products.Row.index (Products.agg col ls) = Pandas.group_keys (map col ls).
Proof. unfold Products.agg. rewrite map_map. cbn. apply map_id. Qed.

Lemma agg_In (col : Products.line -> option string) (ls : list Products.line)
  (r : Products.Row.t) :
  In r (Products.agg col ls) <->
  In (Some (Products.Row.index r)) (map col ls) /\
  r = {| Products.Row.index := Products.Row.index r;
         Products.Row.total_amount :=
           Pandas.series_sum (map Products.total_amount
                                  (Products.group col ls (Products.Row.index r)));
         Products.Row.quantity :=
           Pandas.series_sum (map Products.quantity
                                  (Products.group col ls (Products.Row.index r)));
         Products.Row.transaction_id :=
           Pandas.series_count (map Products.transaction_id
                                    (Products.group col ls (Products.Row.index r))) |}.
Proof.
  unfold Products.agg. rewrite in_map_iff. split.
  - intros [k [<- Hk]]. cbn. split; [| reflexivity].
    apply group_keys_In. exact Hk.
  - intros [Hk Hr]. exists (Products.Row.index r). split; [symmetry; exact Hr |].
    apply group_keys_In. exact Hk.
Qed.

Section TopProducts.

Variable sort_values : list Products.Row.t -> list Products.Row.t.
Hypothesis sort_values_perm : forall l, Permutation (sort_values l) l.
Hypothesis sort_values_desc :
  forall l, StronglySorted Products.descending (sort_values l).

Lemma top_products_eq (tb : Products.table) (n : Z) (top : list Products.Row.t) :
  Products.get_top_products sort_values tb n = Some top ->
  top = Products.head n (sort_values
          (Products.agg (Products.groupby_col tb) (Products.lines tb))).
Proof.
  unfold Products.get_top_products.
  destruct ((Products.has_category tb || Products.has_product_name tb)
            && Products.has_quantity tb); [| discriminate].
  intros H. injection H as <-. reflexivity.
Qed.

(** X23.  The table of best sellers is in descending order of revenue, no
    key comes twice, and for [n >= 0] it has [n] rows, or as many as the
    grouping column has distinct values when they are fewer. *)
Theorem top_products_ranked (tb : Products.table) (n : Z) (top : list Products.Row.t) :
  Products.get_top_products sort_values tb n = Some top ->
  StronglySorted Products.descending top /\
  NoDup (map Products.Row.index top) /\
  ((0 <= n)%Z ->
   Z.of_nat (length top)
   = Z.min n (nunique (map (Products.groupby_col tb) (Products.lines tb)))).
Proof.
  intros H. apply top_products_eq in H.
  set (rows := Products.agg (Products.groupby_col tb) (Products.lines tb)) in *.
  destruct (head_prefix n (sort_values rows)) as [rest Hrest]. rewrite <- H in Hrest.
  split; [| split].
  - apply (StronglySorted_app_l _ top rest). rewrite <- Hrest. apply sort_values_desc.
  - assert (N : NoDup (map Products.Row.index (sort_values rows))).
    { apply (Permutation_NoDup
               (Permutation_map _ (Permutation_sym (sort_values_perm rows)))).
      unfold rows. rewrite agg_index. apply group_keys_NoDup. }
    rewrite Hrest, map_app in N. exact (NoDup_app_remove_r _ _ N).
  - intros Hn. rewrite H, (head_length n _ Hn).
    rewrite (Permutation_length (sort_values_perm rows)).
    unfold rows, nunique.
    rewrite <- (length_map Products.Row.index), agg_index.
    rewrite <- (Permutation_length (group_keys_perm _)). reflexivity.
Qed.

(** X24.  No group left out of the table of best sellers sold more than a
    group in it. *)
Theorem top_products_dominate (tb : Products.table) (n : Z)
  (top : list Products.Row.t) (r : Products.Row.t) (k : string) :
  Products.get_top_products sort_values tb n = Some top ->
  In r top ->
  In (Some k) (map (Products.groupby_col tb) (Products.lines tb)) ->
  ~ In k (map Products.Row.index top) ->
  (Pandas.series_sum
     (map Products.total_amount
          (Products.group (Products.groupby_col tb) (Products.lines tb) k))
   <= Products.Row.total_amount r)%Q.
Proof.
  intros H Hr Hk Hout. apply top_products_eq in H.
  set (col := Products.groupby_col tb) in *.
  set (rows := Products.agg col (Products.lines tb)) in *.
  destruct (head_prefix n (sort_values rows)) as [rest Hrest]. rewrite <- H in Hrest.
  set (g := {| Products.Row.index := k;
               Products.Row.total_amount :=
                 Pandas.series_sum (map Products.total_amount
                                        (Products.group col (Products.lines tb) k));
               Products.Row.quantity :=
                 Pandas.series_sum (map Products.quantity
                                        (Products.group col (Products.lines tb) k));
               Products.Row.transaction_id :=
                 Pandas.series_count (map Products.transaction_id
                                          (Products.group col (Products.lines tb) k)) |}).
  assert (Hg : In g rows).
  { apply agg_In. split; [exact Hk | reflexivity]. }
  apply (Permutation_in g (Permutation_sym (sort_values_perm rows))) in Hg.
  rewrite Hrest in Hg. apply in_app_or in Hg. destruct Hg as [Hg | Hg].
  - exfalso. apply Hout. change k with (Products.Row.index g).
    apply in_map. exact Hg.
  - pose proof (sort_values_desc rows) as S. rewrite Hrest in S.
    exact (StronglySorted_app_cross _ top rest S r g Hr Hg).
Qed.

End TopProducts.

(** A table with three categories; the unit of the amounts is arbitrary. *)
Definition product_line (c : string) (a q : Z) (i : string) : Products.line :=
  {| Products.category := Some c;
     Products.product_name := None;
     Products.total_amount := Some (inject_Z a);
     Products.quantity := Some (inject_Z q);
     Products.transaction_id := Some i |}.

Definition sample_products : Products.table :=
  {| Products.has_category := true;
     Products.has_product_name := false;
     Products.has_quantity := true;
     Products.lines :=
       [product_line "toys" 10 1 "t1"; product_line "books" 5 2 "t2";
        product_line "toys" 7 1 "t3"; product_line "garden" 3 1 "t4"] |}.

Definition sample_top : list Products.Row.t :=
  Eval vm_compute in
    match Products.get_top_products RowSort.sort sample_products 2 with
    | Some top => top
    | None => []
    end.

Definition sample_top_row : Products.Row.t :=
  Eval vm_compute in nth 1 sample_top (Products.Row.Build_t "" 0 0 0).

Lemma sample_top_run :
  Products.get_top_products RowSort.sort sample_products 2 = Some sample_top.
Proof. vm_compute. reflexivity. Qed.

Lemma top_products_ranked_witness :
  StronglySorted Products.descending sample_top /\
  NoDup (map Products.Row.index sample_top) /\
  ((0 <= 2)%Z ->
   Z.of_nat (length sample_top)
   = Z.min 2 (nunique (map (Products.groupby_col sample_products)
                           (Products.lines sample_products)))).
Proof.
  exact (top_products_ranked RowSort.sort row_sort_perm row_sort_desc
           sample_products 2 sample_top sample_top_run).
Defined.

Lemma top_products_dominate_witness :
  (Pandas.series_sum
     (map Products.total_amount
          (Products.group (Products.groupby_col sample_products)
                          (Products.lines sample_products) "garden"))
   <= Products.Row.total_amount sample_top_row)%Q.
Proof.
  apply (top_products_dominate RowSort.sort row_sort_perm row_sort_desc
           sample_products 2 sample_top sample_top_row "garden" sample_top_run).
  - right. left. reflexivity.
  - right. right. right. left. reflexivity.
  - vm_compute. intros [H | [H | H]]; [discriminate H | discriminate H | exact H].
Defined.

(** * The colours of the review chart ([src/visualizations.py],
      [create_review_score_chart])

    The colour of the bar of one score, as the list comprehension of
    [create_review_score_chart] computes it.  A score is a rational; [None]
    is the [IndexError] of a list index out of range. *)

Module Charts.

(** [l[i]] on a Python list: a negative index counts from the end. *)
Definition getitem {A : Type} (l : list A) (i : Z) : option A :=
  if (0 <=? i)%Z then nth_error l (Z.to_nat i)
  else if (- Z.of_nat (length l) <=? i)%Z
       then nth_error l (Z.to_nat (Z.of_nat (length l) + i))
       else None.

(** [int(score)]: the score without its fractional part. *)
Definition int (score : Q) : Z := Z.quot (Qnum score) (Z.pos (Qden score)).

Definition colors : list string :=
  ["#ef4444"; "#f59e0b"; "#eab308"; "#84cc16"; "#10b981"]%string.

(** [colors[int(score)-1] if score <= 5 else colors[-1]]. *)
Definition bar_color (score : Q) : option string :=
  if Qle_bool score 5 then getitem colors (int score - 1)
  else getitem colors (-1).

End Charts.

Lemma int_quot (score : Q) :
  exists r : Z,
    (Qnum score = Z.pos (Qden score) * Charts.int score + r)%Z /\
    ((0 <= Qnum score)%Z /\ (0 <= r < Z.pos (Qden score))%Z \/
     (Qnum score <= 0)%Z /\ (- Z.pos (Qden score) < r <= 0)%Z).
Proof.
  exists (Z.rem (Qnum score) (Z.pos (Qden score))). split.
  - apply Z.quot_rem'.
  - destruct (Z_le_dec 0 (Qnum score)) as [H | H].
    + left. split; [exact H |]. apply Z.rem_bound_pos; lia.
    + right. split; [lia |].
      assert (Hn : (0 <= - Qnum score)%Z) by lia.
      pose proof (Z.rem_bound_pos (- Qnum score) (Z.pos (Qden score)) Hn
                    (Pos2Z.is_pos (Qden score))) as Hb.
      rewrite Z.rem_opp_l in Hb by discriminate. lia.
Qed.

Lemma int_low (score : Q) :
  (Charts.int score <= -5)%Z <-> (score <= inject_Z (-5))%Q.
Proof.
  destruct (int_quot score) as [r [E B]]. unfold Qle, inject_Z. cbn [Qnum Qden].
  split; intros H; nia.
Qed.

Lemma int_high (score : Q) :
  (score <= 5)%Q -> (Charts.int score <= 5)%Z.
Proof.
  destruct (int_quot score) as [r [E B]]. unfold Qle. cbn [Qnum Qden].
  intros H. nia.
Qed.

Lemma int_small (score : Q) :
  (inject_Z (-1) < score)%Q -> (score < 1)%Q -> Charts.int score = 0%Z.
Proof.
  destruct (int_quot score) as [r [E B]]. unfold Qlt, inject_Z. cbn [Qnum Qden].
  intros H1 H2. nia.
Qed.

Lemma getitem_colors (i : Z) :
  (i <= 4)%Z -> (Charts.getitem Charts.colors i = None <-> (i < -5)%Z).
Proof.
  intros Hi. destruct (Z_lt_dec i (-5)) as [H | H].
  - split; [intros _; exact H | intros _].
    unfold Charts.getitem.
    destruct (Z.leb_spec 0 i) as [H0 | _]; [lia |].
    destruct (Z.leb_spec (- Z.of_nat (length Charts.colors)) i) as [H1 | _];
      [cbn in H1; lia | reflexivity].
  - assert (C : (i = -5 \/ i = -4 \/ i = -3 \/ i = -2 \/ i = -1 \/
                 i = 0 \/ i = 1 \/ i = 2 \/ i = 3 \/ i = 4)%Z) by lia.
    repeat (destruct C as [-> | C]; [split; [discriminate | lia] |]).
    subst i. split; [discriminate | lia].
Qed.

(** X27.  The colour of a bar is missing exactly for a score of -5 or less:
    every other score, also one that is not a rating, finds a colour. *)
Theorem bar_color_fails_iff (score : Q) :
  Charts.bar_color score = None <-> (score <= inject_Z (-5))%Q.
Proof.
  unfold Charts.bar_color. destruct (Qle_bool score 5) eqn:E.
  - apply Qle_bool_iff in E. pose proof (int_high score E) as Hh.
    rewrite getitem_colors by lia. rewrite <- int_low. lia.
  - split; [discriminate |]. intros H. exfalso.
    assert (E' : Qle_bool score 5 = true).
    { apply Qle_bool_iff. apply (Qle_trans _ _ _ H). discriminate. }
    rewrite E' in E. discriminate.
Qed.

(** X28.  A score strictly between -1 and 1, such as 0, is drawn in the
    colour of the best rating, not in that of the worst. *)
Theorem bar_color_below_one (score : Q) :
  (inject_Z (-1) < score)%Q -> (score < 1)%Q ->
  Charts.bar_color score = Charts.bar_color 5 /\
  Charts.bar_color score <> Charts.bar_color 1.
Proof.
  intros H1 H2. unfold Charts.bar_color at 1 3.
  assert (E : Qle_bool score 5 = true).
  { apply Qle_bool_iff. apply Qlt_le_weak. apply (Qlt_trans _ _ _ H2). reflexivity. }
  rewrite E, (int_small score H1 H2). split; [reflexivity | discriminate].
Qed.

Lemma bar_color_below_one_witness :
  Charts.bar_color 0 = Charts.bar_color 5 /\
  Charts.bar_color 0 <> Charts.bar_color 1.
Proof. apply (bar_color_below_one 0); reflexivity. Defined.

(** * The run in binary64 on columns without spread and on the ranks

    The three facts below are the counterparts, on the edges that [numpy]
    computes, of what the exact layer shows for a single monetary value, for
    a single recency and for the ranks of the frequencies. *)

Lemma perform64_f_scores (sum : list Q -> Q) (df : DataFrame) (ps : list profile)
      (fs : list (option Z)) :
  Analysis64.perform_rfm_analysis sum df = Ok ps ->
  Analysis64.f_scores (Analysis64.aggregate sum df) = Ok fs ->
  map f_score ps = fs.
Proof.
  intros H Hfs.
  destruct (perform64_ok sum _ _ H) as [rs [fs' [ms [Hr [Hf [Hm [Hz _]]]]]]].
  rewrite Hfs in Hf. injection Hf as <-.
  destruct (qcut64_ok_labels _ _ _ Hr) as [Lr _].
  destruct (qcut64_ok_labels _ _ _ Hfs) as [Lf _].
  destruct (qcut64_ok_labels _ _ _ Hm) as [Lm _].
  rewrite length_map in Lr, Lm.
  rewrite length_map, rank_first_length, length_map in Lf.
  rewrite <- (zip_scores_fs (Analysis64.aggregate sum df) rs fs ms Lr Lf Lm), <- Hz, map_map.
  reflexivity.
Qed.

(** X29.  With the edges computed in binary64, a table whose customers all
    have the same monetary value is refused as well: the six edges of the
    monetary column are one number, five are dropped, the five labels no
    longer fit and the run raises. *)
Theorem single_monetary_value_raises_binary64 (sum : list Q -> Q) (df : DataFrame) :
  (forall x y, In x (Analysis64.aggregate sum df) ->
               In y (Analysis64.aggregate sum df) ->
               (monetary x == monetary y)%Q) ->
  Analysis64.m_scores (Analysis64.aggregate sum df) = Raise bin_labels_error /\
  Analysis64.perform_rfm_analysis sum df = Raise bin_labels_error.
Proof.
  intros H.
  assert (Hm : Analysis64.m_scores (Analysis64.aggregate sum df) = Raise bin_labels_error).
  { unfold Analysis64.m_scores. rewrite <- (map_map monetary Some).
    apply qcut64_constant_raises; [reflexivity |].
    intros u v Hu Hv. apply in_map_iff in Hu, Hv.
    destruct Hu as [x [<- Hx]]. destruct Hv as [y [<- Hy]]. apply H; assumption. }
  split; [exact Hm |]. unfold Analysis64.perform_rfm_analysis.
  destruct (Analysis64.r_scores (Analysis64.aggregate sum df)) as [rs | e] eqn:Hr;
    [| apply qcut64_raise in Hr; subst e; reflexivity].
  destruct (Analysis64.f_scores (Analysis64.aggregate sum df)) as [fs | e] eqn:Hf;
    [| apply qcut64_raise in Hf; subst e; reflexivity].
  rewrite Hm. reflexivity.
Qed.

Lemma single_monetary_value_raises_binary64_witness :
  Analysis64.m_scores (Analysis64.aggregate Binary64.sum Samples.same_amount)
  = Raise bin_labels_error /\
  Analysis64.perform_rfm_analysis Binary64.sum Samples.same_amount
  = Raise bin_labels_error.
Proof.
  apply (single_monetary_value_raises_binary64 Binary64.sum Samples.same_amount).
  vm_compute.
  intros x y [<- | [<- | [<- | [<- | [<- | []]]]]] [<- | [<- | [<- | [<- | [<- | []]]]]];
    reflexivity.
Defined.

(** X30.  With the edges computed in binary64, a table whose customers all
    have the same recency (they all bought last on the same day) is refused:
    line 41 raises, whatever the frequencies and the amounts. *)
Theorem single_recency_raises_binary64 (sum : list Q -> Q) (df : DataFrame) :
  (forall x y, In x (Analysis64.aggregate sum df) ->
               In y (Analysis64.aggregate sum df) ->
               recency x = recency y) ->
  Analysis64.r_scores (Analysis64.aggregate sum df) = Raise bin_labels_error /\
  Analysis64.perform_rfm_analysis sum df = Raise bin_labels_error.
Proof.
  intros H.
  pose proof (r_scores64_constant_raises (Analysis64.aggregate sum df) H) as Hr.
  split; [exact Hr |]. unfold Analysis64.perform_rfm_analysis. rewrite Hr. reflexivity.
Qed.

Lemma single_recency_raises_binary64_witness :
  Analysis64.r_scores (Analysis64.aggregate Binary64.sum Samples.five_customers)
  = Raise bin_labels_error /\
  Analysis64.perform_rfm_analysis Binary64.sum Samples.five_customers
  = Raise bin_labels_error.
Proof.
  apply (single_recency_raises_binary64 Binary64.sum Samples.five_customers).
  vm_compute.
  intros x y [<- | [<- | [<- | [<- | [<- | []]]]]] [<- | [<- | [<- | [<- | [<- | []]]]]];
    reflexivity.
Defined.

(** X31.  With the edges computed in binary64 the ranks of the frequencies
    are still cut into five buckets: on a table of two customers or more,
    and of at most [2 ^ 40] rows, line 42 returns a frequency score between
    1 and 5 for every customer, and these are the scores that the profiles
    of a run that returns carry. *)
Theorem frequency_score_returns_binary64 (sum : list Q -> Q) (df : DataFrame) :
  (2 <= length (distinct_customers df))%nat ->
  Z.of_nat (length df) <= 2 ^ 40 ->
  exists fs,
    Analysis64.f_scores (Analysis64.aggregate sum df) = Ok (map Some fs) /\
    length fs = length (distinct_customers df) /\
    Forall (fun s => 1 <= s <= 5) fs /\
    forall ps, Analysis64.perform_rfm_analysis sum df = Ok ps ->
               map f_score ps = map Some fs.
Proof.
  intros Hn Hb. rewrite <- (aggregate64_length sum) in Hn.
  set (rk := rank_first (map frequency (Analysis64.aggregate sum df))).
  assert (Hlen : length rk = length (Analysis64.aggregate sum df)).
  { unfold rk. rewrite rank_first_length, length_map. reflexivity. }
  assert (Hp : Permutation rk (ranks_upto (length rk))).
  { unfold rk at 1. rewrite Hlen, <- (length_map frequency). apply rank_first_perm. }
  pose proof (aggregate64_bound sum df Hb) as Hb'.
  destruct (qcut64_ranks rk Hp ltac:(lia) ltac:(lia)) as [fs [Hq [Hl Hf]]].
  exists fs. split; [exact Hq |].
  split; [rewrite Hl, Hlen; apply aggregate64_length |].
  split; [exact Hf |].
  intros ps H. apply (perform64_f_scores sum df ps _ H Hq).
Qed.

Lemma frequency_score_returns_binary64_witness :
  exists fs,
    Analysis64.f_scores (Analysis64.aggregate Binary64.sum Samples.sample)
    = Ok (map Some fs) /\
    length fs = length (distinct_customers Samples.sample) /\
    Forall (fun s => 1 <= s <= 5) fs /\
    forall ps, Analysis64.perform_rfm_analysis Binary64.sum Samples.sample = Ok ps ->
               map f_score ps = map Some fs.
Proof.
  apply (frequency_score_returns_binary64 Binary64.sum Samples.sample).
  - vm_compute. lia.
  - vm_compute. discriminate.
Defined.
